(** * start_services.py: configuration patching, verified over a shallow embedding

    The script bootstraps a local stack: it syncs a companion repository,
    copies the root environment file, provisions a secret in the SearXNG
    settings file, toggles the [cap_drop] hardening directive of the SearXNG
    service in [docker-compose.yml], rewrites the Supabase Realtime health
    check and finally sequences the container orchestrator.

    Text is modelled as [string] (code points below 256), the file system as a
    finite map from paths to file contents, and the script's functions as
    computations in a state-and-exception monad over a [World] that also
    records the observable events (prints, external commands, file writes).
    Everything that comes from outside the script (exit status and output of
    external commands, random bytes, the upstream repository) is read from an
    explicit environment record. *)

From Stdlib Require Import ZArith String Ascii List Bool Lia DecimalString.
From Stdlib.Strings Require Import Byte.
From stdpp Require Import gmap strings list fin_maps.


Local Open Scope list_scope.

(* Let [simpl] compute a concatenation whose first argument is known. *)
#[local] Arguments String.append !s1 s2 : simpl nomatch.

(** ** Python string primitives *)

Module PyStr.

(** [len(s)] *)
Definition len (s : string) : nat := String.length s.

(** The newline, carriage-return and double-quote characters. *)
Definition nl : ascii := "010"%char.
Definition cr : ascii := "013"%char.
Definition dq : ascii := "034"%char.
Definition NL : string := String nl "".
Definition quoted (s : string) : string := String dq (s +:+ String dq "").

(** [s.startswith(p)] *)
Fixpoint startswith (s p : string) : bool :=
  match p with
  | EmptyString => true
  | String a p' =>
      match s with
      | EmptyString => false
      | String b s' => if Ascii.eqb a b then startswith s' p' else false
      end
  end.

(** [sub in s] *)
Fixpoint str_in (sub s : string) : bool :=
  startswith s sub ||
  match s with
  | EmptyString => false
  | String _ s' => str_in sub s'
  end.

(** [s[n:]] for [0 <= n] *)
Fixpoint substr_from (n : nat) (s : string) : string :=
  match n, s with
  | O, _ => s
  | S _, EmptyString => EmptyString
  | S k, String _ s' => substr_from k s'
  end.

(** [s[:n]] for [0 <= n] *)
Fixpoint substr_to (n : nat) (s : string) : string :=
  match n, s with
  | O, _ => EmptyString
  | S _, EmptyString => EmptyString
  | S k, String c s' => String c (substr_to k s')
  end.

(** Python normalises a slice bound: a negative bound counts from the end,
    and every bound is clamped to [0, len(s)]. *)
Definition norm_index (n : nat) (i : Z) : nat :=
  let j := (if i <? 0 then i + Z.of_nat n else i)%Z in
  Z.to_nat (Z.min (Z.max 0 j) (Z.of_nat n)).

(** [s[a:b]] *)
Definition slice (s : string) (a b : Z) : string :=
  let i := norm_index (len s) a in
  let j := norm_index (len s) b in
  substr_to (j - i) (substr_from i s).

(** Scan for the lowest index at or after [pos] where [sub] starts;
    [-1] when there is none. *)
Fixpoint find_aux (s sub : string) (pos : Z) : Z :=
  if startswith s sub then pos
  else match s with
       | EmptyString => (-1)%Z
       | String _ s' => find_aux s' sub (pos + 1)%Z
       end.

(** [s.find(sub, start)] *)
Definition find (s sub : string) (start : Z) : Z :=
  let n := Z.of_nat (len s) in
  let st := (if start <? 0 then Z.max 0 (start + n) else start)%Z in
  if (n <? st)%Z then (-1)%Z else find_aux (substr_from (Z.to_nat st) s) sub st.

(** [s.replace(old, new)] for a non-empty [old]: the leftmost occurrence is
    replaced and the scan resumes after it.  [skip] counts the characters of
    a matched occurrence that are still to be passed over. *)
Fixpoint replace_go (old new s : string) (skip : nat) : string :=
  match s with
  | EmptyString => EmptyString
  | String c s' =>
      match skip with
      | S k => replace_go old new s' k
      | O =>
          if startswith s old
          then new +:+ replace_go old new s' (len old - 1)
          else String c (replace_go old new s' 0)
      end
  end.

(** With an empty [old], Python inserts [new] before every character and
    at the end. *)
Fixpoint interleave (new s : string) : string :=
  match s with
  | EmptyString => EmptyString
  | String c s' => String c (new +:+ interleave new s')
  end.

(** [s.replace(old, new)] *)
Definition replace (s old new : string) : string :=
  match old with
  | EmptyString => new +:+ interleave new s
  | String _ _ => replace_go old new s 0
  end.

(** [c.isspace()] on code points below 256. *)
Definition isspace (c : ascii) : bool :=
  let n := nat_of_ascii c in
  ((9 <=? n) && (n <=? 13)) || ((28 <=? n) && (n <=? 32))
  || (n =? 133) || (n =? 160).

(** [s.lstrip()] *)
Fixpoint lstrip (s : string) : string :=
  match s with
  | EmptyString => EmptyString
  | String c s' => if isspace c then lstrip s' else s
  end.

(** [s.rstrip()] *)
Fixpoint rstrip (s : string) : string :=
  match s with
  | EmptyString => EmptyString
  | String c s' =>
      match rstrip s' with
      | EmptyString => if isspace c then EmptyString else String c EmptyString
      | r => String c r
      end
  end.

(** [s.strip()] *)
Definition strip (s : string) : string := rstrip (lstrip s).

(** [s.split(sep)] for a one-character separator. *)
Fixpoint split (s : string) (sep : ascii) : list string :=
  match s with
  | EmptyString => [EmptyString]
  | String c s' =>
      if Ascii.eqb c sep then EmptyString :: split s' sep
      else match split s' sep with
           | h :: t => String c h :: t
           | [] => [String c EmptyString]
           end
  end.

(** [sep.join(parts)] *)
Fixpoint join (sep : string) (parts : list string) : string :=
  match parts with
  | [] => EmptyString
  | [p] => p
  | p :: rest => p +:+ sep +:+ join sep rest
  end.

(** [file.readlines()]: the lines of a text, each keeping its newline. *)
Fixpoint readlines (s : string) : list string :=
  match s with
  | EmptyString => []
  | String c s' =>
      if Ascii.eqb c nl then String c EmptyString :: readlines s'
      else match readlines s' with
           | h :: t => String c h :: t
           | [] => [String c EmptyString]
           end
  end.

(** [file.writelines(lines)] writes the lines one after the other. *)
Definition writelines (lines : list string) : string :=
  foldr String.append EmptyString lines.

End PyStr.

Import PyStr.

(** ** Exceptions, events, the world and the environment *)

Inductive Exc : Type :=
| CalledProcessError (cmd : list string) (returncode : Z)
| FileNotFoundError (path : string)
| NotADirectoryError (path : string)
| OSError (msg : string).

(** [repr(s)] for a string: single quotes unless the string holds a single
    quote and no double quote; the quote, the backslash and the usual control
    characters are escaped. *)
Definition sq : ascii := "039"%char.
Definition bs : ascii := "092"%char.

Fixpoint repr_body (q : ascii) (s : string) : string :=
  match s with
  | EmptyString => EmptyString
  | String c s' =>
      (if Ascii.eqb c bs then String bs (String bs "")
       else if Ascii.eqb c q then String bs (String q "")
       else if Ascii.eqb c nl then String bs "n"
       else if Ascii.eqb c "009"%char then String bs "t"
       else if Ascii.eqb c "013"%char then String bs "r"
       else String c "") +:+ repr_body q s'
  end.

Definition repr (s : string) : string :=
  let q := if str_in (String sq "") s && negb (str_in (String dq "") s)
           then dq else sq in
  String q (repr_body q s +:+ String q "").

Definition repr_list (l : list string) : string :=
  "[" +:+ join ", " (map repr l) +:+ "]".

Definition str_of_Z (z : Z) : string := NilZero.string_of_int (Z.to_int z).

(** [str(e)], as the f-strings of the script render an exception. *)
Definition str_exc (e : Exc) : string :=
  match e with
  | CalledProcessError cmd rc =>
      "Command " +:+ String sq (repr_list cmd) +:+ String sq
        (" returned non-zero exit status " +:+ str_of_Z rc +:+ ".")
  | FileNotFoundError p => "[Errno 2] No such file or directory: " +:+ repr p
  | NotADirectoryError p => "[Errno 20] Not a directory: " +:+ repr p
  | OSError msg => msg
  end.

(** What an observer of the run sees, in chronological order. *)
Inductive Event : Type :=
| EvPrint (msg : string)
| EvExec (argv : list string) (cwd : list string)
| EvCopy (src dst : string)
| EvWrite (path content : string)
| EvSleep (secs : Z).

(** Files (path to content), directories, the working directory (innermost
    component first) and the events so far.  Paths are written in POSIX form
    and are relative to the directory the script is started in.  A content is
    the text that reading the file in text mode delivers: [read_file] and
    [write_file] work on this text, and [universal_newlines] and [to_linesep]
    below relate it to the bytes on the disk (decoding is not modelled).
    Reading and writing a file that exists succeeds. *)
Record World : Type := MkWorld {
  fs : gmap string string;
  dirs : gset string;
  cwd : list string;
  trace : list Event
}.

(** Outcome of launching an external command: it could not be started, or it
    ran and exited with a status and a captured standard output. *)
Inductive Launch : Type :=
| LaunchError (e : Exc)
| Exited (returncode : Z) (stdout : string).

(** Everything the script reads from outside. *)
Record Env : Type := MkEnv {
  (** [platform.system()] *)
  system : string;
  (** outcome of an external command, by its argument vector (the same
      whenever the command is run: what a command reads from the files is
      not modelled) *)
  proc : list string -> Launch;
  (** the bytes the secure random source delivers, by position *)
  entropy : nat -> byte;
  (** the files a successful checkout or pull leaves in the companion
      repository, by path relative to its root *)
  repo_sync : list (string * string);
  (** I/O failure of a file copy whose source exists (missing target
      directory, permissions), if any *)
  copy_error : string -> string -> option Exc
}.

(** ** The state-and-exception monad *)

Inductive Result (A : Type) : Type :=
| Ok (a : A)
| Raise (e : Exc).
Arguments Ok {A} a.
Arguments Raise {A} e.

Definition M (A : Type) : Type := World -> Result A * World.

#[global] Instance M_ret : MRet M := fun A a w => (Ok a, w).

#[global] Instance M_bind : MBind M := fun A B f m w =>
  match m w with
  | (Ok a, w') => f a w'
  | (Raise e, w') => (Raise e, w')
  end.

Definition raise {A} (e : Exc) : M A := fun w => (Raise e, w).

(** [try: body except Exception as e: handler e] *)
Definition try_except {A} (body : M A) (handler : Exc -> M A) : M A :=
  fun w =>
    match body w with
    | (Ok a, w') => (Ok a, w')
    | (Raise e, w') => handler e w'
    end.

Definition get_world : M World := fun w => (Ok w, w).

(** The world after one more event. *)
Definition log (w : World) (ev : Event) : World :=
  MkWorld (fs w) (dirs w) (cwd w) (trace w ++ [ev]).

Definition emit (ev : Event) : M unit := fun w => (Ok tt, log w ev).

Definition set_fs (f : gmap string string) : M unit := fun w =>
  (Ok tt, MkWorld f (dirs w) (cwd w) (trace w)).

Definition set_dirs (d : gset string) : M unit := fun w =>
  (Ok tt, MkWorld (fs w) d (cwd w) (trace w)).

Definition set_cwd (c : list string) : M unit := fun w =>
  (Ok tt, MkWorld (fs w) (dirs w) c (trace w)).

(** [print(msg)] *)
Definition print (msg : string) : M unit := emit (EvPrint msg).

(** [os.path.exists(p)] *)
Definition path_exists (p : string) : M bool := fun w =>
  (Ok (bool_decide (is_Some (fs w !! p)) || bool_decide (p ∈ dirs w)), w).

(** [open(p, 'r').read()]: the text of a file that exists *)
Definition read_file (p : string) : M string := fun w =>
  match fs w !! p with
  | Some c => (Ok c, w)
  | None => (Raise (FileNotFoundError p), w)
  end.

(** [open(p, 'w').write(content)]: the file then holds the text [content] *)
Definition write_file (p content : string) : M unit :=
  w ← get_world;
  set_fs (<[p := content]> (fs w));;
  emit (EvWrite p content).

(** *** Text mode

    The script opens the compose files with [open(p, 'r')] and
    [open(p, 'w')], without [newline=].  Reading then hands out the bytes of
    the file with every [\r\n] and every lone [\r] turned into [\n], and
    writing stores every [\n] of the text as [os.linesep]. *)

(** What reading in text mode makes of the bytes of a file. *)
Fixpoint universal_newlines (bytes : string) : string :=
  match bytes with
  | EmptyString => EmptyString
  | String c rest =>
      if Ascii.eqb c cr then
        match rest with
        | String d _ =>
            if Ascii.eqb d nl then universal_newlines rest
            else String nl (universal_newlines rest)
        | EmptyString => NL
        end
      else String c (universal_newlines rest)
  end.

(** [os.linesep] *)
Definition linesep (env : Env) : string :=
  if String.eqb (system env) "Windows" then String cr NL else NL.

(** The bytes that writing in text mode stores for a text. *)
Definition to_linesep (env : Env) (content : string) : string :=
  replace content NL (linesep env).

(** [shutil.copyfile(src, dst)] *)
Definition copyfile (env : Env) (src dst : string) : M unit :=
  w ← get_world;
  match fs w !! src with
  | None => raise (FileNotFoundError src)
  | Some c =>
      match copy_error env src dst with
      | Some e => raise e
      | None => set_fs (<[dst := c]> (fs w));; emit (EvCopy src dst)
      end
  end.

(** [os.chdir(d)] for a directory name or [..] *)
Definition chdir (d : string) : M unit :=
  w ← get_world;
  if String.eqb d ".." then set_cwd (tail (cwd w))
  else
    let target := join "/" (rev (d :: cwd w)) in
    if bool_decide (target ∈ dirs w) then set_cwd (d :: cwd w)
    else if bool_decide (is_Some (fs w !! target))
         then raise (NotADirectoryError d)
         else raise (FileNotFoundError d).

(** [time.sleep(secs)] *)
Definition sleep (secs : Z) : M unit := emit (EvSleep secs).

(** [subprocess.run(cmd, check=check)], returning the captured output.  With
    [check] a non-zero exit status raises. *)
Definition subprocess_run (env : Env) (cmd : list string) (check : bool)
  : M string :=
  w ← get_world;
  emit (EvExec cmd (cwd w));;
  match proc env cmd with
  | LaunchError e => raise e
  | Exited rc out =>
      if check && negb (rc =? 0)%Z then raise (CalledProcessError cmd rc)
      else mret out
  end.

(** [run_command(cmd)] *)
Definition run_command (env : Env) (cmd : list string) : M unit :=
  print ("Running: " +:+ join " " cmd);;
  subprocess_run env cmd true;;
  mret tt.

(** ** External tools the script drives

    The exit status of a tool comes from the environment; what a tool that
    succeeded does to the files, or prints, is modelled here from the command
    line the script builds. *)

Definition hex_digit (n : N) : ascii :=
  match n with
  | 0 => "0" | 1 => "1" | 2 => "2" | 3 => "3" | 4 => "4" | 5 => "5"
  | 6 => "6" | 7 => "7" | 8 => "8" | 9 => "9" | 10 => "a" | 11 => "b"
  | 12 => "c" | 13 => "d" | 14 => "e" | _ => "f"
  end%N%char.

(** Two lower-case hexadecimal digits for a byte. *)
Definition hex_of_byte (b : byte) : string :=
  let n := Byte.to_N b in
  String (hex_digit (n / 16)) (String (hex_digit (n mod 16)) "").

Definition hexlify (l : list byte) : string :=
  foldr (fun b acc => hex_of_byte b +:+ acc) "" l.

(** The first [n] bytes of the random source. *)
Definition random_bytes (env : Env) (n : nat) : list byte :=
  map (entropy env) (seq 0 n).

(** The key of this invocation: the hexadecimal form of 32 random bytes. *)
Definition secret_key (env : Env) : string := hexlify (random_bytes env 32).

(** [git clone]: the repository directory appears. *)
Definition git_clone_effect : M unit :=
  w ← get_world;
  set_dirs ({["supabase"]} ∪ dirs w).

(** Files that a checkout or pull places under the repository directory. *)
Definition install (files : list (string * string)) (f : gmap string string)
  : gmap string string :=
  foldr (fun pc acc => <["supabase/" +:+ pc.1 := pc.2]> acc) f files.

Definition git_sync_effect (env : Env) : M unit :=
  w ← get_world;
  set_fs (install (repo_sync env) (fs w));;
  set_dirs ({["supabase/docker"]} ∪ dirs w).

(** In-place substitution of every occurrence of a literal by a literal.
    This is what GNU [sed -i s|old|new|g path] does to the bytes of the file.
    For BSD [sed] and for the PowerShell [Get-Content ... -replace ... |
    Set-Content] pipeline it is the substitution alone: the line terminators
    these tools write and the letter case [-replace] ignores are not
    modelled. *)
Definition substitute_in_file (path old new : string) : M unit :=
  w ← get_world;
  match fs w !! path with
  | Some c => set_fs (<[path := replace c old new]> (fs w))
  | None => mret tt
  end.

(** ** The script *)

(** [clone_supabase_repo()] *)
Definition clone_supabase_repo (env : Env) : M unit :=
  ex ← path_exists "supabase";
  if negb ex then
    print "Cloning the Supabase repository...";;
    run_command env ["git"; "clone"; "--filter=blob:none"; "--no-checkout";
                     "https://github.com/supabase/supabase.git"];;
    git_clone_effect;;
    chdir "supabase";;
    run_command env ["git"; "sparse-checkout"; "init"; "--cone"];;
    run_command env ["git"; "sparse-checkout"; "set"; "docker"];;
    run_command env ["git"; "checkout"; "master"];;
    git_sync_effect env;;
    chdir ".."
  else
    print "Supabase repository already exists, updating...";;
    chdir "supabase";;
    run_command env ["git"; "pull"];;
    git_sync_effect env;;
    chdir "..".

(** [prepare_supabase_env()] *)
Definition prepare_supabase_env (env : Env) : M unit :=
  let env_path := "supabase/docker/.env" in
  let env_example_path := ".env" in
  print "Copying .env in root to .env in supabase/docker...";;
  copyfile env env_example_path env_path.

(** [if profile and profile != "none"] *)
Definition profile_args (profile : option string) : list string :=
  match profile with
  | Some p =>
      if negb (String.eqb p "") && negb (String.eqb p "none")
      then ["--profile"; p] else []
  | None => []
  end.

(** [stop_existing_containers(profile)] *)
Definition stop_existing_containers (env : Env) (profile : option string)
  : M unit :=
  print "Stopping and removing existing containers for the unified project 'localai'...";;
  run_command env (["docker"; "compose"; "-p"; "localai"] ++ profile_args profile
                   ++ ["-f"; "docker-compose.yml"; "down"]).

(** [start_supabase()] *)
Definition start_supabase (env : Env) : M unit :=
  print "Starting Supabase services...";;
  run_command env ["docker"; "compose"; "-p"; "localai"; "-f";
                   "supabase/docker/docker-compose.yml"; "up"; "-d"].

(** [start_local_ai(profile)] *)
Definition start_local_ai (env : Env) (profile : option string) : M unit :=
  print "Starting local AI services...";;
  run_command env (["docker"; "compose"; "-p"; "localai"] ++ profile_args profile
                   ++ ["-f"; "docker-compose.yml"; "up"; "-d"]).

(** *** Secret provisioning *)

Definition settings_path : string := "searxng/settings.yml".
Definition settings_base_path : string := "searxng/settings-base.yml".
Definition placeholder : string := "ultrasecretkey".

Definition ps_command : list string :=
  ["powershell"; "-Command";
   "$randomBytes = New-Object byte[] 32; " +:+
   "(New-Object Security.Cryptography.RNGCryptoServiceProvider).GetBytes($randomBytes); " +:+
   "$secretKey = -join ($randomBytes | ForEach-Object { " +:+ quoted "{0:x2}" +:+ " -f $_ }); " +:+
   "(Get-Content searxng/settings.yml) -replace 'ultrasecretkey', $secretKey | Set-Content searxng/settings.yml"].

Definition openssl_cmd : list string := ["openssl"; "rand"; "-hex"; "32"].

(** [subprocess.check_output(openssl_cmd).decode('utf-8')]: the tool prints
    the hexadecimal form of 32 random bytes and a newline. *)
Definition check_output_openssl (env : Env) : M string :=
  subprocess_run env openssl_cmd true;;
  mret (secret_key env +:+ NL).

(** The manual commands printed when the secret could not be generated. *)
Definition remediation (e : Exc) : M unit :=
  print ("Error generating SearXNG secret key: " +:+ str_exc e);;
  print "You may need to manually generate the secret key using the commands:";;
  print ("  - Linux: sed -i " +:+ quoted "s|ultrasecretkey|$(openssl rand -hex 32)|g" +:+ " searxng/settings.yml");;
  print ("  - macOS: sed -i '' " +:+ quoted "s|ultrasecretkey|$(openssl rand -hex 32)|g" +:+ " searxng/settings.yml");;
  print "  - Windows (PowerShell):";;
  print "    $randomBytes = New-Object byte[] 32";;
  print "    (New-Object Security.Cryptography.RNGCryptoServiceProvider).GetBytes($randomBytes)";;
  print ("    $secretKey = -join ($randomBytes | ForEach-Object { " +:+ quoted "{0:x2}" +:+ " -f $_ })");;
  print "    (Get-Content searxng/settings.yml) -replace 'ultrasecretkey', $secretKey | Set-Content searxng/settings.yml".

(** The three platform branches of the [try] block. *)
Definition generate_key_for_platform (env : Env) : M unit :=
  (if String.eqb (system env) "Windows" then
     print "Detected Windows platform, using PowerShell to generate secret key...";;
     subprocess_run env ps_command true;;
     substitute_in_file settings_path placeholder (secret_key env)
   else if String.eqb (system env) "Darwin" then
     print "Detected macOS platform, using sed command with empty string parameter...";;
     out ← check_output_openssl env;
     let random_key := strip out in
     subprocess_run env ["sed"; "-i"; ""; "s|ultrasecretkey|" +:+ random_key +:+ "|g";
                         settings_path] true;;
     substitute_in_file settings_path placeholder random_key
   else
     print "Detected Linux/Unix platform, using standard sed command...";;
     out ← check_output_openssl env;
     let random_key := strip out in
     subprocess_run env ["sed"; "-i"; "s|ultrasecretkey|" +:+ random_key +:+ "|g";
                         settings_path] true;;
     substitute_in_file settings_path placeholder random_key);;
  print "SearXNG secret key generated successfully.".

(** The [try] block with its handler. *)
Definition try_generate_key (env : Env) : M unit :=
  try_except (generate_key_for_platform env) remediation.

(** [generate_searxng_secret_key()] *)
Definition generate_searxng_secret_key (env : Env) : M unit :=
  print "Checking SearXNG settings...";;
  base_exists ← path_exists settings_base_path;
  if negb base_exists then
    print ("Warning: SearXNG base settings file not found at " +:+ settings_base_path)
  else
    settings_exists ← path_exists settings_path;
    created ←
      (if negb settings_exists then
         print ("SearXNG settings.yml not found. Creating from " +:+ settings_base_path +:+ "...");;
         try_except
           (copyfile env settings_base_path settings_path;;
            print ("Created " +:+ settings_path +:+ " from " +:+ settings_base_path);;
            mret true)
           (fun e => print ("Error creating settings.yml: " +:+ str_exc e);; mret false)
       else
         print ("SearXNG settings.yml already exists at " +:+ settings_path);;
         mret true);
    if negb created then mret tt
    else
      print "Generating SearXNG secret key...";;
      try_generate_key env.

(** *** Compose hardening toggle *)

Definition docker_compose_path : string := "docker-compose.yml".

Definition docker_ps_cmd : list string :=
  ["docker"; "ps"; "--filter"; "name=searxng"; "--format"; "{{.Names}}"].

Definition probe_script : string :=
  "[ -f /etc/searxng/uwsgi.ini ] && echo 'found' || echo 'not_found'".

Definition docker_exec_cmd (container_name : string) : list string :=
  ["docker"; "exec"; container_name; "sh"; "-c"; probe_script].

(** What [probe_script] prints inside the container, by whether the marker
    file [/etc/searxng/uwsgi.ini] is there. *)
Definition probe_script_stdout (marker_present : bool) : string :=
  (if marker_present then "found" else "not_found") +:+ NL.

(** [next(container for container in l if container)] *)
Definition first_nonempty (l : list string) : option string :=
  List.find (fun c => negb (String.eqb c "")) l.

(** The inner [try] block: the classification of the invocation.  The
    result is [is_first_run]. *)
Definition detect_first_run (env : Env) : M bool :=
  try_except
    (out ← subprocess_run env docker_ps_cmd true;
     let searxng_containers := split (strip out) nl in
     match first_nonempty searxng_containers with
     | Some container_name =>
         print ("Found running SearXNG container: " +:+ container_name);;
         out' ← subprocess_run env (docker_exec_cmd container_name) false;
         if str_in "found" out' then
           print "Found uwsgi.ini inside the SearXNG container - not first run";;
           mret false
         else
           print "uwsgi.ini not found inside the SearXNG container - first run";;
           mret true
     | None =>
         print "No running SearXNG container found - assuming first run";;
         mret true
     end)
    (fun e =>
       print ("Error checking Docker container: " +:+ str_exc e +:+ " - assuming first run");;
       mret true).

Definition cap_drop_key : string := "cap_drop:".
Definition cap_drop_value : string := "- ALL".
Definition commented_key : string :=
  "# cap_drop: # Temporarily commented out for first run".
Definition commented_value : string :=
  "# - ALL # Temporarily commented out for first run".

(** [len(line) - len(line.lstrip())] *)
Definition indent_of (line : string) : nat := len line - len (lstrip line).

(** [not line.strip().startswith('#')] *)
Definition uncommented (line : string) : bool :=
  negb (startswith (strip line) "#").

(** The variables of the first pass; [None] stands for the index [-1]. *)
Record Scan : Type := MkScan {
  in_searxng_section : bool;
  searxng_section_indent : nat;
  cap_drop_line_index : option nat;
  cap_drop_value_line_index : option nat
}.

Definition scan_init : Scan := MkScan false 0 None None.

(** One iteration of the first pass on line [i]; the boolean tells whether
    the loop breaks. *)
Definition scan_step (st : Scan) (i : nat) (line : string) : Scan * bool :=
  if str_in "searxng:" line && negb (in_searxng_section st) then
    (MkScan true (indent_of line) (cap_drop_line_index st)
            (cap_drop_value_line_index st), false)
  else if in_searxng_section st then
    let current_indent := indent_of line in
    if negb (String.eqb (strip line) "")
       && (current_indent <=? searxng_section_indent st)%nat then
      (MkScan false (searxng_section_indent st) (cap_drop_line_index st)
              (cap_drop_value_line_index st), false)
    else if str_in cap_drop_key line && uncommented line then
      (MkScan true (searxng_section_indent st) (Some i)
              (cap_drop_value_line_index st), false)
    else if bool_decide (cap_drop_line_index st <> None)
            && str_in cap_drop_value line && uncommented line then
      (MkScan true (searxng_section_indent st) (cap_drop_line_index st)
              (Some i), true)
    else (st, false)
  else (st, false).

(** The first pass over the lines from index [i] on. *)
Fixpoint scan_from (st : Scan) (i : nat) (lines : list string) : Scan :=
  match lines with
  | [] => st
  | line :: rest =>
      let (st', stop) := scan_step st i line in
      if stop then st' else scan_from st' (S i) rest
  end.

Definition first_pass (lines : list string) : Scan := scan_from scan_init 0 lines.

(** The first-run transition on the two located lines. *)
Definition comment_out (lines : list string) (ci vi : nat) : list string :=
  let lines1 := alter (fun l => replace l cap_drop_key commented_key) ci lines in
  alter (fun l => replace l cap_drop_value commented_value) vi lines1.

(** The body of the uncommenting loop on one line. *)
Definition uncomment_line (line : string) : string :=
  if str_in commented_key line then replace line commented_key cap_drop_key
  else if str_in commented_value line then replace line commented_value cap_drop_value
  else line.

(** The uncommenting loop: the new lines and the two flags
    [commented_cap_drop_found] and [commented_all_found]. *)
Fixpoint uncomment_loop (lines : list string) (cap_found all_found : bool)
  : list string * bool * bool :=
  match lines with
  | [] => ([], cap_found, all_found)
  | line :: rest =>
      let cap_found' := cap_found || str_in commented_key line in
      let all_found' :=
        all_found || (negb (str_in commented_key line)
                      && str_in commented_value line) in
      let '(rest', c, a) := uncomment_loop rest cap_found' all_found' in
      (uncomment_line line :: rest', c, a)
  end.

(** The second pass: the lines to write back, if a write is due. *)
Definition second_pass (is_first_run : bool) (lines : list string) : M unit :=
  let st := first_pass lines in
  match is_first_run, cap_drop_line_index st, cap_drop_value_line_index st with
  | true, Some ci, Some vi =>
      print "First run detected for SearXNG. Temporarily commenting out cap_drop directives...";;
      write_file docker_compose_path (writelines (comment_out lines ci vi));;
      print "Note: After the first run completes successfully, you should re-enable 'cap_drop: - ALL' in docker-compose.yml for security reasons."
  | true, _, _ => mret tt
  | false, _, _ =>
      let '(lines', commented_cap_drop_found, commented_all_found) :=
        uncomment_loop lines false false in
      if commented_cap_drop_found || commented_all_found then
        print "SearXNG has been initialized. Re-enabling 'cap_drop: - ALL' directive for security...";;
        write_file docker_compose_path (writelines lines')
      else mret tt
  end.

(** [check_and_fix_docker_compose_for_searxng()] *)
Definition check_and_fix_docker_compose_for_searxng (env : Env) : M unit :=
  ex ← path_exists docker_compose_path;
  if negb ex then
    print ("Warning: Docker Compose file not found at " +:+ docker_compose_path)
  else
    try_except
      (content ← read_file docker_compose_path;
       let lines := readlines content in
       is_first_run ← detect_first_run env;
       second_pass is_first_run lines)
      (fun e => print ("Error checking/modifying docker-compose.yml for SearXNG: "
                       +:+ str_exc e)).

(** *** Health-check rewriter *)

Definition supabase_compose_path : string := "supabase/docker/docker-compose.yml".
Definition obsolete_endpoint : string := "/api/tenants/realtime-dev/health".
Definition service_token : string := "realtime-dev.supabase-realtime".

Definition new_healthcheck : string :=
  "healthcheck:" +:+ NL +:+
  "      test:" +:+ NL +:+
  "        [" +:+ NL +:+
  "          " +:+ quoted "CMD" +:+ "," +:+ NL +:+
  "          " +:+ quoted "curl" +:+ "," +:+ NL +:+
  "          " +:+ quoted "-sSfL" +:+ "," +:+ NL +:+
  "          " +:+ quoted "--head" +:+ "," +:+ NL +:+
  "          " +:+ quoted "-o" +:+ "," +:+ NL +:+
  "          " +:+ quoted "/dev/null" +:+ "," +:+ NL +:+
  "          " +:+ quoted "http://localhost:4000/" +:+ NL +:+
  "        ]" +:+ NL +:+
  "      timeout: 5s" +:+ NL +:+
  "      interval: 5s" +:+ NL +:+
  "      retries: 3" +:+ NL.

(** The condition of the outer [if]. *)
Definition has_triggers (content : string) : bool :=
  str_in obsolete_endpoint content && str_in "healthcheck" content
  && str_in service_token content.

Definition healthcheck_start (content : string) : Z :=
  find content "healthcheck:" (find content service_token 0).

Definition environment_start (content : string) : Z :=
  find content "environment:" (healthcheck_start content).

(** Both markers were found. *)
Definition located (content : string) : bool :=
  negb (healthcheck_start content =? -1)%Z
  && negb (environment_start content =? -1)%Z.

Definition healthcheck_section (content : string) : string :=
  slice content (healthcheck_start content) (environment_start content).

Definition modified_content (content : string) : string :=
  replace content (healthcheck_section content) new_healthcheck.

(** [fix_supabase_realtime_healthcheck()] (the traceback that follows the
    error message of the handler goes to the error stream). *)
Definition fix_supabase_realtime_healthcheck : M unit :=
  print "Checking and fixing Supabase Realtime healthcheck configuration...";;
  ex ← path_exists supabase_compose_path;
  if negb ex then
    print ("Warning: Supabase docker-compose.yml not found at " +:+ supabase_compose_path)
  else
    try_except
      (content ← read_file supabase_compose_path;
       if has_triggers content then
         print "Found problematic Supabase Realtime healthcheck configuration. Replacing with a root URL HTTP check...";;
         if located content then
           write_file supabase_compose_path (modified_content content);;
           print "Successfully updated Supabase Realtime healthcheck to use the root URL instead of the protected endpoint"
         else
           print "Could not locate exact healthcheck and environment sections in the docker-compose.yml file"
       else
         print "Supabase Realtime healthcheck is already using a non-authenticated configuration or not found")
      (fun e => print ("Error fixing Supabase Realtime healthcheck: " +:+ str_exc e)).

(** *** The run *)

(** The three configuration-patching steps, in the order [main] runs them. *)
Definition patch_configuration (env : Env) : M unit :=
  generate_searxng_secret_key env;;
  check_and_fix_docker_compose_for_searxng env;;
  fix_supabase_realtime_healthcheck.

(** [main()], for the profile the command line selected. *)
Definition main (env : Env) (profile : string) : M unit :=
  clone_supabase_repo env;;
  prepare_supabase_env env;;
  patch_configuration env;;
  stop_existing_containers env (Some profile);;
  start_supabase env;;
  print "Waiting for Supabase to initialize...";;
  sleep 10;;
  start_local_ai env (Some profile).

(** * Notions used in the statements *)

(** ** Runs *)

(** [post m w Q]: running [m] from the world [w] ends with a result and a
    world that satisfy [Q].  Every computation of [M] is a total function, so
    the run always ends. *)
Definition post {A} (m : M A) (w : World) (Q : Result A -> World -> Prop) : Prop :=
  Q (m w).1 (m w).2.

(** No event of the list is a file write. *)
Definition no_write (evs : list Event) : Prop :=
  forall p c, EvWrite p c ∉ evs.

(** The invocation is classified first-run ([true]) or not ([false]). *)
Definition classified (env : Env) (b : bool) : Prop :=
  forall w, (detect_first_run env w).1 = Ok b.

(** The platform takes the last branch of the secret generation, which runs
    [sed -i] the way GNU [sed] understands it. *)
Definition gnu_sed_branch (env : Env) : Prop :=
  system env <> "Windows" /\ system env <> "Darwin".

(** The command cannot be launched, or exits with a non-zero status. *)
Definition command_fails (env : Env) (cmd : list string) : Prop :=
  match proc env cmd with
  | LaunchError _ => True
  | Exited rc _ => rc <> 0%Z
  end.

(** ** Texts *)

(** [v] is what is left of [s] after some prefix. *)
Definition is_suffix (v s : string) : Prop := exists u, s = u +:+ v.

(** The replacement text [new] cannot supply the beginning of [v], nor of
    any non-empty suffix of [v]. *)
Definition blocked (new v : string) : Prop :=
  forall v' x, v' <> "" -> is_suffix v' v -> startswith (new +:+ x) v' = false.

(** No occurrence of [pat] starts inside the replacement text [new]. *)
Definition sealed (new pat : string) : Prop :=
  forall t x, t <> "" -> is_suffix t new -> startswith (t +:+ x) pat = false.

(** The character [c] occurs in [s]. *)
Fixpoint has_char (c : ascii) (s : string) : bool :=
  match s with
  | EmptyString => false
  | String d s' => Ascii.eqb c d || has_char c s'
  end.

(** [t] and [p] differ at a position they both have. *)
Fixpoint clash (t p : string) : bool :=
  match t, p with
  | String a t', String b p' => if Ascii.eqb a b then clash t' p' else true
  | _, _ => false
  end.

(** [clash] against every non-empty suffix of [new]. *)
Definition sealed_check (new pat : string) : bool :=
  forallb (fun n => clash (substr_from n new) pat) (seq 0 (len new)).

(** Lower-case hexadecimal digits. *)
Definition is_hex (c : ascii) : bool := has_char c "0123456789abcdef".

Fixpoint all_hex (s : string) : bool :=
  match s with
  | EmptyString => true
  | String c s' => is_hex c && all_hex s'
  end.

(** The positions at which [sub] starts in [s], counted from [i]. *)
Fixpoint occurrences_from (sub s : string) (i : nat) : list nat :=
  (if startswith s sub then [i] else []) ++
  match s with
  | EmptyString => []
  | String _ s' => occurrences_from sub s' (S i)
  end.

Definition occurrences (sub s : string) : list nat := occurrences_from sub s 0.

(** The text of a sequence of lines. *)
Definition text (lines : list string) : string :=
  foldr (fun l acc => l +:+ NL +:+ acc) "" lines.

(** ** Secret provisioning *)

(** The message that ends a successful secret provisioning. *)
Definition success_msg : string := "SearXNG secret key generated successfully.".

(** The first line of the remediation advice. *)
Definition remediation_hint : string :=
  "You may need to manually generate the secret key using the commands:".

(** The external command that generates the secret on this platform. *)
Definition generation_command (env : Env) : list string :=
  if String.eqb (system env) "Windows" then ps_command else openssl_cmd.

(** What [main] runs after the secret provisioning. *)
Definition rest_of_run (env : Env) (profile : string) : M unit :=
  check_and_fix_docker_compose_for_searxng env;;
  fix_supabase_realtime_healthcheck;;
  stop_existing_containers env (Some profile);;
  start_supabase env;;
  print "Waiting for Supabase to initialize...";;
  sleep 10;;
  start_local_ai env (Some profile).

(** ** The first pass of the toggle *)

(** What the first pass takes a line for, given the state it meets it in:
    the start marker of the service block, the line that closes the block,
    a key line, a value line, or none of these. *)
Inductive LineKind : Type := Opens | Closes | Key | Value | Other.

Definition line_kind (st : Scan) (line : string) : LineKind :=
  if str_in "searxng:" line && negb (in_searxng_section st) then Opens
  else if in_searxng_section st then
    if negb (String.eqb (strip line) "")
       && (indent_of line <=? searxng_section_indent st)%nat then Closes
    else if str_in cap_drop_key line && uncommented line then Key
    else if bool_decide (cap_drop_line_index st <> None)
            && str_in cap_drop_value line && uncommented line then Value
    else Other
  else Other.

(** The state in which the first pass meets line [k]. *)
Definition state_before (lines : list string) (k : nat) : Scan :=
  scan_from scan_init 0 (firstn k lines).

(** The kind of line [k] of a file, if there is such a line. *)
Definition kind_at (lines : list string) (k : nat) : option LineKind :=
  line_kind (state_before lines k) <$> lines !! k.

(** What the pass has recorded when it meets line [k]. *)
Definition scan_invariant (lines : list string) (k : nat) : Prop :=
  let st := state_before lines k in
  match cap_drop_value_line_index st with
  | None =>
      (forall j, j < k -> kind_at lines j <> Some Value) /\
      match cap_drop_line_index st with
      | None => forall j, j < k -> kind_at lines j <> Some Key
      | Some c =>
          c < k /\ kind_at lines c = Some Key /\
          forall j, c < j < k -> kind_at lines j <> Some Key
      end
  | Some v =>
      v < k /\ kind_at lines v = Some Value /\
      (forall j, j < v -> kind_at lines j <> Some Value) /\
      exists c, cap_drop_line_index st = Some c /\ c < v /\
                kind_at lines c = Some Key /\
                forall j, c < j < v -> kind_at lines j <> Some Key
  end.

(** Line [k] stands in a block that line [i] opens: line [i] contains
    [searxng:], and every line after it up to line [k] is blank or indented
    deeper than line [i]. *)
Definition in_block_of (lines : list string) (i k : nat) : Prop :=
  i < k /\
  exists opener,
    lines !! i = Some opener /\ str_in "searxng:" opener = true /\
    forall j line, i < j <= k -> lines !! j = Some line ->
      strip line = "" \/ indent_of opener < indent_of line.

(** The directive is commented: in every such block, a line that holds
    [cap_drop:] is a comment line. *)
Definition directive_commented (lines : list string) : Prop :=
  forall i k line,
    in_block_of lines i k -> lines !! k = Some line ->
    str_in cap_drop_key line = true -> uncommented line = false.

(** ** The health-check rewriter *)

(** The diagnostic of the health-check rewriter when a marker is missing. *)
Definition no_locate_msg : string :=
  "Could not locate exact healthcheck and environment sections in the docker-compose.yml file".

(** The corrected block between its first colon and its last newline. *)
Definition new_healthcheck_body : string :=
  substr_to (len new_healthcheck - 13) (substr_from 12 new_healthcheck).

(** ** Concrete environments *)

(** Every external command succeeds; every random byte is [0x2a]. *)
Definition env_ok : Env :=
  MkEnv "Linux" (fun _ => Exited 0 "") (fun _ => Byte.x2a) [] (fun _ _ => None).

(** As [env_ok], but [openssl] exits with status 1. *)
Definition env_openssl_fails : Env :=
  MkEnv "Linux"
        (fun cmd => if bool_decide (cmd = openssl_cmd) then Exited 1 "" else Exited 0 "")
        (fun _ => Byte.x2a) [] (fun _ _ => None).

(** A container named [searxng] runs and holds no marker file: the probe
    prints [not_found]. *)
Definition env_marker_absent : Env :=
  MkEnv "Linux"
        (fun cmd =>
           if bool_decide (cmd = docker_ps_cmd) then Exited 0 ("searxng" +:+ NL)
           else if bool_decide (cmd = docker_exec_cmd "searxng")
                then Exited 0 (probe_script_stdout false)
                else Exited 0 "")
        (fun _ => Byte.x2a) [] (fun _ _ => None).

(** A container named [searxng] runs and holds the marker file. *)
Definition env_marker_present : Env :=
  MkEnv "Linux"
        (fun cmd =>
           if bool_decide (cmd = docker_ps_cmd) then Exited 0 ("searxng" +:+ NL)
           else if bool_decide (cmd = docker_exec_cmd "searxng")
                then Exited 0 (probe_script_stdout true)
                else Exited 0 "")
        (fun _ => Byte.x2a) [] (fun _ _ => None).

(** ** Concrete worlds and files *)

Definition template0 : string := "secret_key: ultrasecretkey" +:+ NL.

(** A fresh checkout: the root environment file and the settings template. *)
Definition w_fresh : World :=
  MkWorld (<[".env" := "POSTGRES_PASSWORD=x"]> {[ settings_base_path := template0 ]})
          ∅ [] [].

(** As [w_fresh], with a settings file that holds no placeholder. *)
Definition w_provisioned : World :=
  MkWorld (<[settings_path := "secret_key: 0123" +:+ NL]> (fs w_fresh)) ∅ [] [].

(** A world without the root environment file. *)
Definition w_no_env : World :=
  MkWorld {[ settings_base_path := template0 ]} ∅ [] [].

(** A world whose only file is the Supabase compose file. *)
Definition w_supabase (content : string) : World :=
  MkWorld {[ supabase_compose_path := content ]} ∅ [] [].

(** The Realtime service as the companion repository ships it. *)
Definition compose_realtime : string :=
  text ["  realtime:";
        "    container_name: realtime-dev.supabase-realtime";
        "    healthcheck:";
        "      test:";
        "        [";
        "          " +:+ quoted "CMD" +:+ ",";
        "          " +:+ quoted "curl" +:+ ",";
        "          " +:+ quoted "-sSfL" +:+ ",";
        "          " +:+ quoted "--head" +:+ ",";
        "          " +:+ quoted "-o" +:+ ",";
        "          " +:+ quoted "/dev/null" +:+ ",";
        "          " +:+ quoted "-H" +:+ ",";
        "          " +:+ quoted "Authorization: Bearer ${ANON_KEY}" +:+ ",";
        "          " +:+ quoted "http://localhost:4000/api/tenants/realtime-dev/health";
        "        ]";
        "      timeout: 5s";
        "      interval: 5s";
        "      retries: 3";
        "    environment:";
        "      PORT: 4000"].

(** The obsolete path also stands in a comment before the service. *)
Definition compose_stale_comment : string :=
  text ["# was: /api/tenants/realtime-dev/health";
        "    container_name: realtime-dev.supabase-realtime";
        "    healthcheck:";
        "      test: [ " +:+ quoted "CMD" +:+ " ]";
        "    environment:"].

(** The text of the located span also stands before the service. *)
Definition compose_twice : string :=
  text ["    healthcheck:";
        "    # /api/tenants/realtime-dev/health";
        "    container_name: realtime-dev.supabase-realtime";
        "    healthcheck:";
        "    environment:"].

(** A compose file without the trigger texts. *)
Definition compose_plain : string :=
  text ["services:"; "  db:"; "    image: postgres"].

(** The trigger texts are there, the [healthcheck:] marker is not. *)
Definition compose_unlocatable : string :=
  text ["    container_name: realtime-dev.supabase-realtime";
        "    # healthcheck /api/tenants/realtime-dev/health"].

(** A world whose only file is the local compose file. *)
Definition w_compose (content : string) : World :=
  MkWorld {[ docker_compose_path := content ]} ∅ [] [].

(** The SearXNG service with its hardening directive active. *)
Definition compose_searxng : string :=
  text ["services:";
        "  searxng:";
        "    image: docker.io/searxng/searxng:latest";
        "    cap_drop:";
        "      - ALL";
        "    cap_add:";
        "      - CHOWN";
        "  caddy:";
        "    image: caddy"].

(** The bytes of the same file with the line terminator [\r\n]. *)
Definition compose_searxng_crlf : string :=
  replace compose_searxng NL (String cr NL).

(** The same after the first-run transition. *)
Definition compose_searxng_commented : string :=
  text ["services:";
        "  searxng:";
        "    image: docker.io/searxng/searxng:latest";
        "    # cap_drop: # Temporarily commented out for first run";
        "      # - ALL # Temporarily commented out for first run";
        "    cap_add:";
        "      - CHOWN";
        "  caddy:";
        "    image: caddy"].

(** The directive of the SearXNG block is active; another block holds a
    commented key line. *)
Definition compose_mixed : string :=
  text ["services:";
        "  searxng:";
        "    cap_drop:";
        "      - ALL";
        "  other:";
        "    # cap_drop: # Temporarily commented out for first run"].

(** The directive of the SearXNG block is commented; the block of a later
    service, whose name ends in [searxng], holds an active directive. *)
Definition compose_second_block : string :=
  text ["services:";
        "  searxng:";
        "    # cap_drop: # Temporarily commented out for first run";
        "      # - ALL # Temporarily commented out for first run";
        "  caddy:";
        "    image: caddy";
        "  old-searxng:";
        "    cap_drop:";
        "      - ALL"].

(** Two key lines precede the value line in the SearXNG block. *)
Definition compose_two_keys : string :=
  text ["  searxng:";
        "    cap_drop:";
        "    cap_drop:";
        "      - ALL"].

(** ** What a step is confined to *)

(** The event is a message, a pause, a command that [cmds] accepts, a copy
    to a path that [copies] accepts or a write to a path that [writes]
    accepts. *)
Definition permitted (cmds : list string -> bool) (copies writes : string -> bool)
    (ev : Event) : bool :=
  match ev with
  | EvPrint _ | EvSleep _ => true
  | EvExec argv _ => cmds argv
  | EvCopy _ dst => copies dst
  | EvWrite p _ => writes p
  end.

(** From [w] to [w'] only events that satisfy [P] were added. *)
Definition emitted (P : Event -> bool) (w w' : World) : Prop :=
  exists evs, trace w' = trace w ++ evs /\ forallb P evs = true.

(** From [w] to [w'] only permitted events were added, the directories and
    the working directory are the same, and so is every file whose path
    [files] does not accept. *)
Definition confined (cmds : list string -> bool) (copies writes files : string -> bool)
    (w w' : World) : Prop :=
  emitted (permitted cmds copies writes) w w' /\
  dirs w' = dirs w /\ cwd w' = cwd w /\
  forall p, files p = false -> fs w' !! p = fs w !! p.

(** The commands the secret provisioning may run. *)
Definition provisioning_tool (argv : list string) : bool :=
  match argv with
  | tool :: _ => bool_decide (tool ∈ ["powershell"; "openssl"; "sed"])
  | [] => false
  end.

(** The commands the hardening toggle may run: [docker ps] and
    [docker exec]. *)
Definition docker_query (argv : list string) : bool :=
  match argv with
  | tool :: verb :: _ =>
      String.eqb tool "docker" && bool_decide (verb ∈ ["ps"; "exec"])
  | _ => false
  end.

(** No command at all, and no path at all. *)
Definition no_command (argv : list string) : bool := false.

Definition no_path (p : string) : bool := false.

(** A command of the container orchestrator: [docker compose ...]. *)
Definition is_compose (argv : list string) : bool :=
  match argv with
  | tool :: verb :: _ => String.eqb tool "docker" && String.eqb verb "compose"
  | _ => false
  end.

(** The commands of a list of events, each with the directory it ran in. *)
Definition execs (evs : list Event) : list (list string * list string) :=
  omap (fun ev => match ev with
                  | EvExec argv c => Some (argv, c)
                  | _ => None
                  end) evs.

(** Whatever its result, the computation relates its final world to its
    initial one by [R]. *)
Definition keeps {A} (R : World -> World -> Prop) (m : M A) : Prop :=
  forall w, R w (m w).2.

(** The event is no command of the container orchestrator. *)
Definition not_compose (ev : Event) : bool :=
  match ev with
  | EvExec argv _ => negb (is_compose argv)
  | _ => true
  end.

(** The event is no command of the container orchestrator other than
    [cmd]. *)
Definition compose_only (cmd : list string) (ev : Event) : bool :=
  match ev with
  | EvExec argv _ => negb (is_compose argv) || bool_decide (argv = cmd)
  | _ => true
  end.

(** Only events other than orchestrator commands were added, and the
    working directory is the same. *)
Definition quiet (w w' : World) : Prop :=
  emitted not_compose w w' /\ cwd w' = cwd w.

(** ** Commands of the secret provisioning *)

(** The substitution script handed to [sed]. *)
Definition sed_script (key : string) : string :=
  "s|ultrasecretkey|" +:+ key +:+ "|g".

(** The commands of a complete secret generation, by platform. *)
Definition platform_commands (env : Env) : list (list string) :=
  if String.eqb (system env) "Windows" then [ps_command]
  else if String.eqb (system env) "Darwin"
       then [openssl_cmd;
             ["sed"; "-i"; ""; sed_script (secret_key env); settings_path]]
       else [openssl_cmd;
             ["sed"; "-i"; sed_script (secret_key env); settings_path]].

(** ** Lines of a text *)

(** A list of lines as [readlines] delivers them: every line but the last
    ends with its only newline, and the last line is not empty and holds no
    newline unless it ends with it. *)
Inductive well_lined : list string -> Prop :=
| wl_nil : well_lined []
| wl_last b : has_char nl b = false -> b <> "" -> well_lined [b]
| wl_cons b ls :
    has_char nl b = false -> well_lined ls -> well_lined ((b +:+ NL) :: ls).

(** ** Further concrete environments and worlds *)

(** As [env_ok], but taking down the containers of the [cpu] profile
    fails. *)
Definition env_down_fails : Env :=
  MkEnv "Linux"
        (fun cmd =>
           if bool_decide (cmd = ["docker"; "compose"; "-p"; "localai";
                                  "--profile"; "cpu";
                                  "-f"; "docker-compose.yml"; "down"])
           then Exited 1 "" else Exited 0 "")
        (fun _ => Byte.x2a) [] (fun _ _ => None).

(** As [env_ok], but [git pull] exits with status 1. *)
Definition env_pull_fails : Env :=
  MkEnv "Linux"
        (fun cmd => if bool_decide (cmd = ["git"; "pull"]) then Exited 1 "" else Exited 0 "")
        (fun _ => Byte.x2a) [] (fun _ _ => None).

(** As [w_fresh], with the companion repository already cloned. *)
Definition w_cloned : World :=
  MkWorld (fs w_fresh) {["supabase"]} [] [].

(** As [w_fresh], with a regular file in the place of the repository. *)
Definition w_blocked : World :=
  MkWorld (<["supabase" := "not a directory"]> (fs w_fresh)) ∅ [] [].

(** A settings file that still holds the placeholder, and no template. *)
Definition w_no_template : World :=
  MkWorld {[ settings_path := template0 ]} ∅ [] [].

(** As [env_ok], but no file can be copied. *)
Definition env_copy_fails : Env :=
  MkEnv "Linux" (fun _ => Exited 0 "") (fun _ => Byte.x2a) []
        (fun _ dst => Some (OSError ("[Errno 13] Permission denied: " +:+ repr dst))).

(** A compose file without a SearXNG service. *)
Definition compose_other_service : string :=
  text ["services:";
        "  caddy:";
        "    cap_drop:";
        "      - ALL"].

(** As [env_ok], with other random bytes. *)
Definition env_other_key : Env :=
  MkEnv "Linux" (fun _ => Exited 0 "") (fun _ => Byte.x07) [] (fun _ _ => None).

(** * Sanity checks of the string primitives *)

Example ex_replace : replace "a-b-c" "-" "+" = "a+b+c".
Proof. reflexivity. Qed.
Example ex_replace_overlap : replace "aaaa" "aa" "b" = "bb".
Proof. reflexivity. Qed.
Example ex_replace_empty : replace "ab" "" "-" = "-a-b-".
Proof. reflexivity. Qed.
Example ex_find : find "xxabxab" "ab" 3 = 5%Z.
Proof. reflexivity. Qed.
Example ex_find_neg : find "xxabxab" "ab" (-1) = (-1)%Z.
Proof. reflexivity. Qed.
Example ex_split : split "a,b,,c" ","%char = ["a"; "b"; ""; "c"].
Proof. reflexivity. Qed.
Example ex_strip : strip "  a b  " = "a b".
Proof. reflexivity. Qed.
Example ex_readlines : readlines ("a" +:+ NL +:+ NL +:+ "b") = ["a" +:+ NL; NL; "b"].
Proof. reflexivity. Qed.
Example ex_slice : slice "hello world" 2 5 = "llo".
Proof. reflexivity. Qed.

(** * Facts about the string primitives *)

Section StrFacts.

Implicit Types (s p r old new : string) (c : ascii).

Lemma str_app_assoc s p r : (s +:+ p) +:+ r = s +:+ (p +:+ r).
Proof. induction s as [|c s IH]; simpl; [reflexivity | now rewrite IH]. Qed.

Lemma str_app_nil_r s : s +:+ "" = s.
Proof. induction s as [|c s IH]; simpl; [reflexivity | now rewrite IH]. Qed.

Lemma len_app s p : len (s +:+ p) = len s + len p.
Proof. induction s as [|c s IH]; simpl; [reflexivity | now rewrite IH]. Qed.

Lemma startswith_nil s : startswith s "" = true.
Proof. now destruct s. Qed.

Lemma startswith_cons c s d p :
  startswith (String c s) (String d p) = Ascii.eqb d c && startswith s p.
Proof. simpl. now destruct (Ascii.eqb d c). Qed.

Lemma startswith_app p r : startswith (p +:+ r) p = true.
Proof.
  induction p as [|c p IH]; simpl; [apply startswith_nil |].
  now rewrite Ascii.eqb_refl.
Qed.

Lemma startswith_spec s p : startswith s p = true -> exists r, s = p +:+ r.
Proof.
  revert s; induction p as [|a p IH]; intros s H.
  - now exists s.
  - destruct s as [|b s]; [discriminate |].
    rewrite startswith_cons in H. apply andb_true_iff in H as [Hab Hs].
    apply Ascii.eqb_eq in Hab as ->.
    destruct (IH _ Hs) as [r ->]. now exists r.
Qed.

(** A prefix of a prefix. *)
Lemma startswith_app_l s p r :
  startswith s (p +:+ r) = true -> startswith s p = true.
Proof.
  revert s; induction p as [|a p IH]; intros s H; [apply startswith_nil |].
  destruct s as [|b s]; [discriminate |].
  simpl in H |- *. destruct (Ascii.eqb a b); [now apply IH | discriminate].
Qed.

(** A prefix of [s] is a prefix of any extension of [s]. *)
Lemma startswith_extend s p r :
  startswith s p = true -> startswith (s +:+ r) p = true.
Proof.
  intros H. destruct (startswith_spec _ _ H) as [t ->].
  rewrite str_app_assoc. apply startswith_app.
Qed.

Lemma str_in_nil s : str_in "" s = true.
Proof. destruct s; simpl; [reflexivity | reflexivity]. Qed.

Lemma str_in_cons sub c s :
  str_in sub (String c s) = startswith (String c s) sub || str_in sub s.
Proof. reflexivity. Qed.

Lemma str_in_head sub r : str_in sub (sub +:+ r) = true.
Proof.
  destruct (sub +:+ r) eqn:E.
  - destruct sub; [reflexivity | discriminate].
  - rewrite str_in_cons, <- E, startswith_app. reflexivity.
Qed.

(** An occurrence in a suffix is an occurrence in the whole. *)
Lemma str_in_app_r sub p s : str_in sub s = true -> str_in sub (p +:+ s) = true.
Proof.
  intros H. induction p as [|c p IH]; simpl; [exact H |].
  rewrite IH. apply orb_true_r.
Qed.

Lemma str_in_app_l sub s r : str_in sub s = true -> str_in sub (s +:+ r) = true.
Proof.
  induction s as [|c s IH]; intros H.
  - destruct sub; [apply str_in_nil | discriminate].
  - rewrite str_in_cons in H. apply orb_true_iff in H as [H | H].
    + change (String c s +:+ r) with (String c (s +:+ r)).
      rewrite str_in_cons.
      change (String c (s +:+ r)) with (String c s +:+ r).
      now rewrite (startswith_extend _ _ r H).
    + simpl. rewrite (IH H). apply orb_true_r.
Qed.

(** An occurrence of a text holds an occurrence of each of its parts. *)
Lemma str_in_part a sub b s :
  str_in (a +:+ sub +:+ b) s = true -> str_in sub s = true.
Proof.
  induction s as [|c s IH]; intros H.
  - destruct a; [destruct sub; [reflexivity | discriminate] | discriminate].
  - rewrite str_in_cons in H. apply orb_true_iff in H as [H | H].
    + destruct (startswith_spec _ _ H) as [r ->].
      rewrite !str_app_assoc. apply str_in_app_r, str_in_head.
    + rewrite str_in_cons, (IH H). apply orb_true_r.
Qed.

Lemma str_drop_app p r : substr_from (len p) (p +:+ r) = r.
Proof. induction p; simpl; auto. Qed.

Lemma str_take_app p r : substr_to (len p) (p +:+ r) = p.
Proof. induction p as [|c p IH]; simpl; [now destruct r | now rewrite IH]. Qed.

Lemma str_take_drop n s : substr_to n s +:+ substr_from n s = s.
Proof.
  revert s; induction n as [|n IH]; intros [|c s]; simpl; try reflexivity.
  now rewrite IH.
Qed.

Lemma len_take n s : n <= len s -> len (substr_to n s) = n.
Proof.
  revert s; induction n as [|n IH]; intros [|c s]; simpl; try lia.
  intros H. rewrite IH; lia.
Qed.

Lemma len_drop n s : len (substr_from n s) = len s - n.
Proof. revert s; induction n as [|n IH]; intros [|c s]; simpl; auto. Qed.

Lemma str_in_drop sub n s : str_in sub (substr_from n s) = true -> str_in sub s = true.
Proof.
  intros H. rewrite <- (str_take_drop n s). now apply str_in_app_r.
Qed.

(** *** The equations of [replace] for a non-empty [old] *)

Lemma replace_go_skip old new p s :
  replace_go old new (p +:+ s) (len p) = replace_go old new s 0.
Proof. induction p as [|c p IH]; simpl; [reflexivity | exact IH]. Qed.

Lemma replace_nil old new : old <> "" -> replace "" old new = "".
Proof. now destruct old. Qed.

Lemma replace_match old new r :
  old <> "" -> replace (old +:+ r) old new = new +:+ replace r old new.
Proof.
  intros Hne. destruct old as [|a o]; [congruence |].
  unfold replace. change (String a o +:+ r) with (String a (o +:+ r)).
  cbn [replace_go].
  change (String a (o +:+ r)) with (String a o +:+ r).
  rewrite startswith_app. f_equal.
  replace (len (String a o) - 1) with (len o) by (simpl; lia).
  apply replace_go_skip.
Qed.

Lemma replace_pass old new c s :
  startswith (String c s) old = false ->
  replace (String c s) old new = String c (replace s old new).
Proof.
  intros H. destruct old as [|a o]; [now rewrite startswith_nil in H |].
  unfold replace. cbn [replace_go]. now rewrite H.
Qed.

(** Induction along the scan of [replace]: at each position either [old]
    starts there and the scan jumps over it, or one character is passed. *)
Lemma replace_ind old (Hne : old <> "") (P : string -> Prop) :
  P "" ->
  (forall r, P r -> P (old +:+ r)) ->
  (forall c s, startswith (String c s) old = false -> P s -> P (String c s)) ->
  forall s, P s.
Proof.
  intros H0 Hm Hp s.
  remember (len s) as n eqn:Hn. revert s Hn.
  induction n as [n IH] using lt_wf_ind. intros s Hn.
  destruct s as [|c s]; [exact H0 |].
  destruct (startswith (String c s) old) eqn:E.
  - destruct (startswith_spec _ _ E) as [r Hr]. rewrite Hr.
    apply Hm, (IH (len r)); [| reflexivity].
    rewrite Hn, Hr, len_app. destruct old; [congruence | simpl; lia].
  - apply Hp; [exact E |]. apply (IH (len s)); [| reflexivity].
    rewrite Hn. simpl. lia.
Qed.

Lemma replace_same s old : old <> "" -> replace s old old = s.
Proof.
  intros Hne. induction s as [| r IH | c s Hc IH] using (replace_ind old Hne).
  - now apply replace_nil.
  - rewrite replace_match by exact Hne. now rewrite IH.
  - rewrite replace_pass by exact Hc. now rewrite IH.
Qed.

(** Substituting a text that does not occur changes nothing. *)
Lemma replace_absent s old new :
  old <> "" -> str_in old s = false -> replace s old new = s.
Proof.
  intros Hne. induction s as [| r IH | c s Hc IH] using (replace_ind old Hne);
    intros H.
  - now apply replace_nil.
  - now rewrite str_in_head in H.
  - rewrite replace_pass by exact Hc. f_equal. apply IH.
    rewrite str_in_cons in H. now apply orb_false_iff in H as [_ H].
Qed.

(** Substituting a text that occurs leaves the new text in the result. *)
Lemma replace_present s old new :
  str_in old s = true -> str_in new (replace s old new) = true.
Proof.
  destruct (String.eqb_spec old "") as [-> | Hne].
  - intros _. unfold replace. apply str_in_head.
  - induction s as [| r IH | c s Hc IH] using (replace_ind old Hne);
      intros H.
    + destruct old; [congruence | discriminate].
    + rewrite replace_match by exact Hne. apply str_in_head.
    + rewrite replace_pass by exact Hc. rewrite str_in_cons in H |- *.
      rewrite Hc in H. simpl in H. rewrite (IH H). apply orb_true_r.
Qed.

End StrFacts.

(* From here on the string primitives are reasoned about through their lemmas. *)
#[global] Arguments replace : simpl never.
#[global] Arguments str_in : simpl never.
#[global] Arguments startswith : simpl never.
#[global] Arguments find : simpl never.
#[global] Arguments slice : simpl never.
#[global] Arguments strip : simpl never.
#[global] Arguments split : simpl never.
#[global] Arguments join : simpl never.
#[global] Arguments readlines : simpl never.
#[global] Arguments writelines : simpl never.

(** * The scan of [replace]: what a substitution can and cannot create *)

Lemma is_suffix_refl s : is_suffix s s.
Proof. now exists "". Qed.

Lemma is_suffix_tail c v s : is_suffix (String c v) s -> is_suffix v s.
Proof.
  intros [u ->]. exists (u +:+ String c ""). now rewrite str_app_assoc.
Qed.

Lemma is_suffix_drop v s : is_suffix v s -> exists n, n <= len s /\ v = substr_from n s.
Proof.
  intros [u ->]. exists (len u). rewrite len_app, str_drop_app.
  split; [lia | reflexivity].
Qed.

Lemma has_char_suffix c v s : is_suffix (String c v) s -> has_char c s = true.
Proof.
  intros [u ->]. induction u as [|d u IH]; simpl.
  - now rewrite Ascii.eqb_refl.
  - rewrite IH. apply orb_true_r.
Qed.

Section ReplaceScan.

Variables old new : string.
Hypothesis old_ne : old <> "".

Lemma blocked_tail c v : blocked new (String c v) -> blocked new v.
Proof.
  intros H v' x Hne Hs. apply H; [exact Hne |].
  destruct Hs as [u ->]. now exists (String c u).
Qed.

(** Characters of a blocked text in the result were passed through from the
    source, one by one. *)
Lemma pass_through u v s :
  blocked new u ->
  startswith (replace s old new) (u +:+ v) = true ->
  exists s', s = u +:+ s' /\ startswith (replace s' old new) v = true.
Proof.
  revert s; induction u as [|c u IH]; intros s Hb H.
  - now exists s.
  - destruct s as [|d s].
    + rewrite replace_nil in H by exact old_ne. discriminate.
    + destruct (startswith (String d s) old) eqn:E.
      * destruct (startswith_spec _ _ E) as [r Hr]. rewrite Hr in H.
        rewrite replace_match in H by exact old_ne.
        apply startswith_app_l in H.
        rewrite (Hb (String c u)) in H;
          [discriminate | discriminate | apply is_suffix_refl].
      * rewrite replace_pass in H by exact E.
        change (String c u +:+ v) with (String c (u +:+ v)) in H.
        rewrite startswith_cons in H. apply andb_true_iff in H as [Hc H].
        apply Ascii.eqb_eq in Hc as ->.
        destruct (IH s (blocked_tail _ _ Hb) H) as [s' [-> H']].
        now exists s'.
Qed.

Lemma pass_through_prefix v s :
  blocked new v ->
  startswith (replace s old new) v = true -> startswith s v = true.
Proof.
  intros Hb H. rewrite <- (str_app_nil_r v) in H.
  destruct (pass_through _ _ _ Hb H) as [s' [-> _]]. apply startswith_app.
Qed.

Lemma str_in_sealed pat x :
  sealed new pat -> str_in pat (new +:+ x) = str_in pat x.
Proof.
  intros Hs.
  assert (G : forall t, is_suffix t new -> str_in pat (t +:+ x) = str_in pat x).
  { induction t as [|c t IH]; intros Ht; [reflexivity |].
    change (String c t +:+ x) with (String c (t +:+ x)).
    rewrite str_in_cons.
    change (String c (t +:+ x)) with (String c t +:+ x).
    rewrite (Hs (String c t)) by (auto; discriminate).
    apply IH. eapply is_suffix_tail, Ht. }
  apply G, is_suffix_refl.
Qed.

(** The substitution creates no occurrence of a text that is blocked and
    sealed. *)
Lemma no_new_occurrence pat s :
  blocked new pat -> sealed new pat ->
  str_in pat (replace s old new) = true -> str_in pat s = true.
Proof.
  intros Hb Hs.
  induction s as [| r IH | c s Hc IH] using (replace_ind old old_ne); intros H.
  - now rewrite replace_nil in H by exact old_ne.
  - rewrite replace_match in H by exact old_ne.
    rewrite str_in_sealed in H by exact Hs. apply str_in_app_r, IH, H.
  - rewrite str_in_cons. apply orb_true_iff.
    pose proof H as H'. rewrite replace_pass in H' by exact Hc.
    rewrite str_in_cons in H'. apply orb_true_iff in H' as [H' | H'].
    + left. apply pass_through_prefix; [exact Hb |].
      now rewrite replace_pass by exact Hc.
    + right. now apply IH.
Qed.

(** When [old] itself is blocked and sealed, no occurrence of it is left. *)
Lemma none_left s :
  blocked new old -> sealed new old -> str_in old (replace s old new) = false.
Proof.
  intros Hb Hs.
  induction s as [| r IH | c s Hc IH] using (replace_ind old old_ne).
  - rewrite replace_nil by exact old_ne. destruct old; [congruence | reflexivity].
  - rewrite replace_match by exact old_ne. now rewrite str_in_sealed.
  - destruct (str_in old (replace (String c s) old new)) eqn:E; [| reflexivity].
    rewrite replace_pass in E by exact Hc.
    rewrite str_in_cons, IH, orb_false_r in E.
    rewrite <- replace_pass in E by exact Hc.
    apply pass_through_prefix in E; [congruence | exact Hb].
Qed.

(** Round trip: when the replacement text is a character [h], a blocked text
    [a], then [old], then a rest, substituting back restores the source. *)
Lemma replace_round_trip h a b s :
  new = String h (a +:+ old +:+ b) -> blocked new a -> blocked new old ->
  replace (replace s old new) new old = s.
Proof.
  intros Hnew Hba Hbo.
  assert (new_ne : new <> "") by (rewrite Hnew; discriminate).
  induction s as [| r IH | c s Hc IH] using (replace_ind old old_ne).
  - rewrite replace_nil by exact old_ne. now apply replace_nil.
  - rewrite replace_match by exact old_ne.
    rewrite replace_match by exact new_ne. now rewrite IH.
  - rewrite replace_pass by exact Hc.
    rewrite replace_pass; [now rewrite IH |].
    destruct (startswith (String c (replace s old new)) new) eqn:E;
      [| reflexivity].
    exfalso.
    assert (E0 : startswith (replace s old new) (a +:+ old +:+ b) = true).
    { rewrite Hnew in E at 2. rewrite startswith_cons in E.
      now apply andb_true_iff in E as [_ E]. }
    destruct (pass_through _ _ _ Hba E0) as [s1 [Hs1 E1]].
    apply startswith_app_l in E1.
    pose proof (pass_through_prefix _ _ Hbo E1) as E2.
    destruct (startswith_spec _ _ E2) as [r Hr]. rewrite Hr in E1.
    rewrite replace_match in E1 by exact old_ne.
    rewrite (Hbo old) in E1;
      [discriminate | exact old_ne | apply is_suffix_refl].
Qed.

End ReplaceScan.

(** *** Criteria that compute *)

(** A text without the first character of [new] is blocked. *)
Lemma blocked_by_head h n v :
  has_char h v = false -> blocked (String h n) v.
Proof.
  intros Hv v' x Hne Hs. destruct v' as [|d v']; [congruence |].
  change (String h n +:+ x) with (String h (n +:+ x)).
  rewrite startswith_cons.
  destruct (Ascii.eqb_spec d h) as [-> | _]; [| reflexivity].
  now rewrite (has_char_suffix _ _ _ Hs) in Hv.
Qed.

Lemma clash_startswith t p x : clash t p = true -> startswith (t +:+ x) p = false.
Proof.
  revert p; induction t as [|a t IH]; intros [|b p] H; try discriminate.
  change (String a t +:+ x) with (String a (t +:+ x)).
  rewrite startswith_cons. simpl in H.
  rewrite Ascii.eqb_sym. destruct (Ascii.eqb a b); [now rewrite IH | reflexivity].
Qed.

Lemma sealed_by_check new pat : sealed_check new pat = true -> sealed new pat.
Proof.
  intros H t x Hne Hs. apply clash_startswith.
  destruct (is_suffix_drop _ _ Hs) as [n [Hn ->]].
  unfold sealed_check in H. rewrite forallb_forall in H. apply H, in_seq.
  assert (n <> len new); [| lia].
  intros ->. apply Hne. clear. induction new; simpl; auto.
Qed.

(** * Positions: [find], [slice] and [occurrences] *)

Lemma str_drop_drop n m s : substr_from n (substr_from m s) = substr_from (m + n) s.
Proof.
  revert s; induction m as [|m IH]; intros s; [reflexivity |].
  destruct s as [|c s]; [now destruct n | apply IH].
Qed.

Lemma str_drop_nil n : substr_from n "" = "".
Proof. now destruct n. Qed.

Lemma str_drop_app_le n p r : n <= len p -> substr_from n (p +:+ r) = substr_from n p +:+ r.
Proof.
  revert p; induction n as [|n IH]; intros p Hn; [reflexivity |].
  destruct p as [|c p]; [simpl in Hn; lia |].
  simpl. apply IH. simpl in Hn. lia.
Qed.

Lemma str_take_app_le n p r : n <= len p -> substr_to n (p +:+ r) = substr_to n p.
Proof.
  revert p; induction n as [|n IH]; intros p Hn; [reflexivity |].
  destruct p as [|c p]; [simpl in Hn; lia |].
  simpl. f_equal. apply IH. simpl in Hn. lia.
Qed.

Lemma str_in_startswith sub s : startswith s sub = true -> str_in sub s = true.
Proof.
  intros H. destruct (startswith_spec _ _ H) as [r ->]. apply str_in_head.
Qed.

Lemma str_in_take_drop n i s : str_in (substr_to n (substr_from i s)) s = true.
Proof.
  apply (str_in_drop _ i). rewrite <- (str_take_drop n (substr_from i s)) at 2.
  apply str_in_head.
Qed.

Lemma find_aux_found s sub pos r :
  find_aux s sub pos = r -> r <> (-1)%Z -> (0 <= pos)%Z ->
  exists k, r = (pos + Z.of_nat k)%Z /\ k <= len s /\
            startswith (substr_from k s) sub = true.
Proof.
  revert pos; induction s as [|c s IH]; intros pos H Hr Hpos; simpl in H.
  - destruct (startswith "" sub) eqn:E; [| congruence].
    exists 0. rewrite Z.add_0_r. auto.
  - destruct (startswith (String c s) sub) eqn:E.
    + exists 0. rewrite Z.add_0_r. simpl. auto with lia.
    + destruct (IH _ H Hr ltac:(lia)) as (k & -> & Hk & Hs).
      exists (S k). simpl. split; [lia | split; [lia | exact Hs]].
Qed.

(** A successful [find] returns a position at which [sub] starts, not before
    a non-negative [start]. *)
Lemma find_found s sub start r :
  find s sub start = r -> r <> (-1)%Z ->
  exists i, r = Z.of_nat i /\ i <= len s /\ startswith (substr_from i s) sub = true /\
            ((0 <= start)%Z -> (start <= r)%Z).
Proof.
  unfold find. intros H Hr.
  set (n := Z.of_nat (len s)) in *.
  set (st := (if (start <? 0)%Z then Z.max 0 (start + n) else start)%Z) in *.
  assert (Hst : (0 <= st)%Z) by (subst st; destruct (Z.ltb_spec start 0); lia).
  destruct (Z.ltb_spec n st) as [Hlt | Hle]; [congruence |].
  destruct (find_aux_found _ _ _ _ H Hr Hst) as (k & -> & Hk & Hs).
  rewrite len_drop in Hk. rewrite str_drop_drop in Hs.
  exists (Z.to_nat st + k). repeat split.
  - lia.
  - subst n. lia.
  - exact Hs.
  - intros H0. subst st. destruct (Z.ltb_spec start 0); lia.
Qed.

Lemma norm_index_nat n i : i <= n -> norm_index n (Z.of_nat i) = i.
Proof.
  intros H. unfold norm_index.
  destruct (Z.ltb_spec (Z.of_nat i) 0); lia.
Qed.

Lemma slice_nat s i j :
  i <= j -> j <= len s ->
  slice s (Z.of_nat i) (Z.of_nat j) = substr_to (j - i) (substr_from i s).
Proof.
  intros Hij Hj. unfold slice. now rewrite !norm_index_nat by lia.
Qed.

Lemma occurrences_none sub s i :
  occurrences_from sub s i = [] -> str_in sub s = false.
Proof.
  revert i; induction s as [|c s IH]; intros i H; simpl in H.
  - unfold str_in. destruct (startswith "" sub); [discriminate | reflexivity].
  - rewrite str_in_cons. destruct (startswith (String c s) sub); [discriminate |].
    simpl in H. now rewrite (IH _ H).
Qed.

(** When [old] occurs at one position only, [replace] substitutes there and
    nowhere else. *)
Lemma replace_unique old new pre post i :
  old <> "" ->
  occurrences_from old (pre +:+ old +:+ post) i = [i + len pre] ->
  replace (pre +:+ old +:+ post) old new = pre +:+ new +:+ post.
Proof.
  intros Hne. revert i; induction pre as [|c pre IH]; intros i H.
  - change ("" +:+ old +:+ post) with (old +:+ post) in *.
    rewrite replace_match by exact Hne. cbn [String.append]. f_equal.
    apply replace_absent; [exact Hne |].
    destruct old as [|a o]; [congruence |].
    change (String a o +:+ post) with (String a (o +:+ post)) in H.
    cbn [occurrences_from] in H.
    change (String a (o +:+ post)) with (String a o +:+ post) in H.
    rewrite startswith_app in H. simpl in H. injection H as _ H.
    apply occurrences_none in H.
    destruct (str_in (String a o) post) eqn:E; [| reflexivity].
    now rewrite (str_in_app_r _ o _ E) in H.
  - change (String c pre +:+ old +:+ post)
      with (String c (pre +:+ old +:+ post)) in *.
    cbn [occurrences_from] in H.
    destruct (startswith (String c (pre +:+ old +:+ post)) old) eqn:E.
    + simpl in H. injection H as H _. lia.
    + simpl in H. rewrite replace_pass by exact E. cbn [String.append]. f_equal.
      apply (IH (S i)). rewrite H. f_equal. lia.
Qed.

(** A character that is not in [pat] cuts the search for [pat] in two. *)
Lemma startswith_cut c pat a b :
  has_char c pat = false ->
  startswith (a +:+ String c b) pat = startswith a pat.
Proof.
  revert a; induction pat as [|d pat IH]; intros a H; [now rewrite !startswith_nil |].
  simpl in H. apply orb_false_iff in H as [Hd H].
  destruct a as [|e a].
  - cbn [String.append]. rewrite startswith_cons, Ascii.eqb_sym, Hd. reflexivity.
  - change (String e a +:+ String c b) with (String e (a +:+ String c b)).
    rewrite !startswith_cons. now rewrite IH.
Qed.

Lemma str_in_cut c pat a b :
  has_char c pat = false ->
  str_in pat (a +:+ String c b) = str_in pat a || str_in pat b.
Proof.
  intros H. induction a as [|e a IH].
  - cbn [String.append]. rewrite str_in_cons.
    destruct pat as [|d pat]; [now rewrite !str_in_nil, orb_true_r |].
    simpl in H. apply orb_false_iff in H as [Hd _].
    rewrite startswith_cons, Ascii.eqb_sym, Hd. reflexivity.
  - change (String e a +:+ String c b) with (String e (a +:+ String c b)).
    rewrite !str_in_cons, IH.
    change (String e (a +:+ String c b)) with (String e a +:+ String c b).
    rewrite (startswith_cut _ _ _ _ H). now rewrite orb_assoc.
Qed.

(** * The secret key and the placeholder *)

Lemma placeholder_ne : placeholder <> "".
Proof. discriminate. Qed.

Lemma is_hex_hex_digit n : is_hex (hex_digit n) = true.
Proof.
  destruct n as [|p]; [reflexivity |].
  do 4 (try destruct p as [p|p|]); reflexivity.
Qed.

Lemma all_hex_app s t : all_hex (s +:+ t) = all_hex s && all_hex t.
Proof. induction s as [|c s IH]; simpl; [reflexivity |]. now rewrite IH, andb_assoc. Qed.

Lemma all_hex_hexlify l : all_hex (hexlify l) = true.
Proof.
  induction l as [|b l IH]; [reflexivity |].
  simpl. unfold hex_of_byte. simpl. now rewrite !is_hex_hex_digit, IH.
Qed.

Lemma len_hexlify l : len (hexlify l) = 2 * length l.
Proof.
  induction l as [|b l IH]; [reflexivity |].
  change (hexlify (b :: l)) with (hex_of_byte b +:+ hexlify l).
  rewrite len_app, IH. simpl. lia.
Qed.

Lemma len_secret_key env : len (secret_key env) = 64.
Proof. unfold secret_key, random_bytes. now rewrite len_hexlify, length_map, length_seq. Qed.

Lemma is_hex_not_space c : is_hex c = true -> isspace c = false.
Proof.
  destruct c as [[] [] [] [] [] [] [] []]; vm_compute; intros H;
    first [reflexivity | discriminate H].
Qed.

Lemma lstrip_hex s t : all_hex s = true -> s <> "" -> lstrip (s +:+ t) = s +:+ t.
Proof.
  destruct s as [|c s]; [congruence |]. simpl. intros H _.
  apply andb_true_iff in H as [H _]. now rewrite (is_hex_not_space _ H).
Qed.

Lemma rstrip_hex_nl s : all_hex s = true -> rstrip (s +:+ NL) = s.
Proof.
  induction s as [|c s IH]; [reflexivity |]. simpl. intros H.
  apply andb_true_iff in H as [Hc H]. rewrite (IH H).
  destruct s; [now rewrite (is_hex_not_space _ Hc) | reflexivity].
Qed.

Lemma strip_hex_nl s : all_hex s = true -> strip (s +:+ NL) = s.
Proof.
  intros H. unfold strip. destruct s as [|c s]; [reflexivity |].
  rewrite lstrip_hex by (auto; discriminate). now apply rstrip_hex_nl.
Qed.

Lemma all_hex_suffix t s : is_suffix t s -> all_hex s = true -> all_hex t = true.
Proof. intros [u ->]. rewrite all_hex_app. intros H. now apply andb_true_iff in H. Qed.

Lemma hex_prefix v : forall key x,
  all_hex key = true -> len v <= len key ->
  startswith (key +:+ x) v = true -> all_hex v = true.
Proof.
  induction v as [|d v IH]; intros key x Hk Hl H; [reflexivity |].
  destruct key as [|k key]; [simpl in Hl; lia |].
  change (String k key +:+ x) with (String k (key +:+ x)) in H.
  rewrite startswith_cons in H. apply andb_true_iff in H as [Hd H].
  apply Ascii.eqb_eq in Hd as ->. simpl in Hk, Hl |- *.
  apply andb_true_iff in Hk as [-> Hk]. simpl. apply (IH key x); auto. lia.
Qed.

Lemma key_blocked key :
  all_hex key = true -> len placeholder <= len key -> blocked key placeholder.
Proof.
  intros Hk Hl v' x Hne Hs.
  destruct (startswith (key +:+ x) v') eqn:E; [| reflexivity]. exfalso.
  destruct (is_suffix_drop _ _ Hs) as [n [Hn ->]].
  apply hex_prefix in E; [| exact Hk | rewrite len_drop; lia].
  revert Hne E. clear. 
  do 14 (destruct n as [|n]; [discriminate |]). intros H. now destruct n.
Qed.

Lemma key_sealed key : all_hex key = true -> sealed key placeholder.
Proof.
  intros Hk t x Hne Hs. destruct t as [|d t]; [congruence |].
  pose proof (all_hex_suffix _ _ Hs Hk) as Ht. simpl in Ht.
  apply andb_true_iff in Ht as [Hd _].
  change (String d t +:+ x) with (String d (t +:+ x)).
  unfold placeholder. rewrite startswith_cons.
  destruct (Ascii.eqb_spec "u" d) as [<- | _]; [discriminate | reflexivity].
Qed.

(** After the substitution of a secret key no placeholder is left. *)
Lemma no_placeholder_left env s :
  str_in placeholder (replace s placeholder (secret_key env)) = false.
Proof.
  apply none_left.
  - exact placeholder_ne.
  - apply key_blocked; [apply all_hex_hexlify |]. rewrite len_secret_key. simpl. lia.
  - apply key_sealed, all_hex_hexlify.
Qed.

#[global] Arguments secret_key : simpl never.

(** * Rules for runs *)

Section Post.

Context {A B : Type}.
Implicit Types (w : World) (Q : Result B -> World -> Prop).

Lemma post_bind (m : M A) (f : A -> M B) w Q :
  post m w (fun r w1 =>
              match r with
              | Ok a => post (f a) w1 Q
              | Raise e => Q (Raise e) w1
              end) ->
  post (m ≫= f) w Q.
Proof.
  unfold post, mbind, M_bind. destruct (m w) as [[a | e] w1]; simpl; auto.
Qed.

Lemma post_try (body : M B) (h : Exc -> M B) w Q :
  post body w (fun r w1 =>
                 match r with
                 | Ok a => Q (Ok a) w1
                 | Raise e => post (h e) w1 Q
                 end) ->
  post (try_except body h) w Q.
Proof.
  unfold post, try_except. destruct (body w) as [[a | e] w1]; simpl; auto.
Qed.

Lemma post_mono (m : M B) w (Q Q' : Result B -> World -> Prop) :
  post m w Q -> (forall r w1, Q r w1 -> Q' r w1) -> post m w Q'.
Proof. unfold post. auto. Qed.

Lemma post_subprocess_run env cmd check w (Q : Result string -> World -> Prop) :
  (forall e, proc env cmd = LaunchError e ->
             Q (Raise e) (log w (EvExec cmd (cwd w)))) ->
  (forall rc out, proc env cmd = Exited rc out -> check = true -> rc <> 0%Z ->
             Q (Raise (CalledProcessError cmd rc)) (log w (EvExec cmd (cwd w)))) ->
  (forall rc out, proc env cmd = Exited rc out -> check = false \/ rc = 0%Z ->
             Q (Ok out) (log w (EvExec cmd (cwd w)))) ->
  post (subprocess_run env cmd check) w Q.
Proof.
  intros He Hf Hs. unfold post, subprocess_run, mbind, M_bind. simpl.
  destruct (proc env cmd) as [e | rc out] eqn:E; simpl; [now apply He |].
  destruct check; simpl; [| apply (Hs rc out); auto].
  destruct (Z.eqb_spec rc 0) as [-> | Hne]; simpl.
  - apply (Hs 0%Z out); auto.
  - apply (Hf rc out); auto.
Qed.

End Post.

Lemma post_run_command env cmd w (Q : Result unit -> World -> Prop) :
  (forall e, Q (Raise e)
               (log (log w (EvPrint ("Running: " +:+ join " " cmd)))
                    (EvExec cmd (cwd w)))) ->
  Q (Ok tt) (log (log w (EvPrint ("Running: " +:+ join " " cmd)))
                 (EvExec cmd (cwd w))) ->
  post (run_command env cmd) w Q.
Proof.
  intros He Hs. unfold run_command. apply post_bind. unfold post at 1. simpl.
  apply post_bind, post_subprocess_run; intros; simpl; auto.
Qed.

Section PostPrimitives.

Context {A : Type}.
Implicit Types (w : World).

Lemma post_ret (a : A) w (Q : Result A -> World -> Prop) :
  Q (Ok a) w -> post (mret a) w Q.
Proof. auto. Qed.

Lemma post_raise (e : Exc) w (Q : Result A -> World -> Prop) :
  Q (Raise e) w -> post (raise e) w Q.
Proof. auto. Qed.

Lemma post_get_world w (Q : Result World -> World -> Prop) :
  Q (Ok w) w -> post get_world w Q.
Proof. auto. Qed.

Lemma post_emit ev w (Q : Result unit -> World -> Prop) :
  Q (Ok tt) (log w ev) -> post (emit ev) w Q.
Proof. auto. Qed.

Lemma post_print msg w (Q : Result unit -> World -> Prop) :
  Q (Ok tt) (log w (EvPrint msg)) -> post (print msg) w Q.
Proof. auto. Qed.

Lemma post_sleep n w (Q : Result unit -> World -> Prop) :
  Q (Ok tt) (log w (EvSleep n)) -> post (sleep n) w Q.
Proof. auto. Qed.

Lemma post_set_fs f w (Q : Result unit -> World -> Prop) :
  Q (Ok tt) (MkWorld f (dirs w) (cwd w) (trace w)) -> post (set_fs f) w Q.
Proof. auto. Qed.

Lemma post_set_dirs d w (Q : Result unit -> World -> Prop) :
  Q (Ok tt) (MkWorld (fs w) d (cwd w) (trace w)) -> post (set_dirs d) w Q.
Proof. auto. Qed.

Lemma post_set_cwd c w (Q : Result unit -> World -> Prop) :
  Q (Ok tt) (MkWorld (fs w) (dirs w) c (trace w)) -> post (set_cwd c) w Q.
Proof. auto. Qed.

Lemma post_path_exists p w (Q : Result bool -> World -> Prop) :
  Q (Ok (bool_decide (is_Some (fs w !! p)) || bool_decide (p ∈ dirs w))) w ->
  post (path_exists p) w Q.
Proof. auto. Qed.

Lemma post_read_file p w (Q : Result string -> World -> Prop) :
  match fs w !! p with
  | Some c => Q (Ok c) w
  | None => Q (Raise (FileNotFoundError p)) w
  end ->
  post (read_file p) w Q.
Proof. unfold post, read_file. now destruct (fs w !! p). Qed.

Lemma post_write_file p content w (Q : Result unit -> World -> Prop) :
  Q (Ok tt) (log (MkWorld (<[p := content]> (fs w)) (dirs w) (cwd w) (trace w))
                 (EvWrite p content)) ->
  post (write_file p content) w Q.
Proof. auto. Qed.

Lemma post_copyfile env src dst w (Q : Result unit -> World -> Prop) :
  match fs w !! src with
  | None => Q (Raise (FileNotFoundError src)) w
  | Some c =>
      match copy_error env src dst with
      | Some e => Q (Raise e) w
      | None =>
          Q (Ok tt) (log (MkWorld (<[dst := c]> (fs w)) (dirs w) (cwd w) (trace w))
                         (EvCopy src dst))
      end
  end ->
  post (copyfile env src dst) w Q.
Proof.
  unfold post, copyfile, mbind, M_bind. simpl.
  destruct (fs w !! src); [destruct (copy_error env src dst) |]; auto.
Qed.

End PostPrimitives.

#[global] Arguments post : simpl never.

#[global] Opaque subprocess_run run_command print emit sleep path_exists
  read_file write_file copyfile set_fs set_dirs set_cwd get_world raise
  try_except.

(** One step of a run: sequencing, handlers and primitives. *)
Ltac post_step :=
  lazymatch goal with
  | |- post (mbind _ _) _ _ => apply post_bind
  | |- post (try_except _ _) _ _ => apply post_try
  | |- post (mret _) _ _ => apply post_ret
  | |- post (raise _) _ _ => apply post_raise
  | |- post get_world _ _ => apply post_get_world
  | |- post (emit _) _ _ => apply post_emit
  | |- post (print _) _ _ => apply post_print
  | |- post (sleep _) _ _ => apply post_sleep
  | |- post (set_fs _) _ _ => apply post_set_fs
  | |- post (set_dirs _) _ _ => apply post_set_dirs
  | |- post (set_cwd _) _ _ => apply post_set_cwd
  | |- post (path_exists _) _ _ => apply post_path_exists
  | |- post (read_file _) _ _ => apply post_read_file
  | |- post (write_file _ _) _ _ => apply post_write_file
  | |- post (copyfile _ _ _) _ _ => apply post_copyfile
  | |- post (subprocess_run _ _ _) _ _ => apply post_subprocess_run; intros
  | |- post (run_command _ _) _ _ => apply post_run_command; [intros ?e |]
  end; lazy beta iota; cbn [negb fs dirs cwd log].

(** * Secret provisioning *)

Lemma post_substitute_in_file path old new w (Q : Result unit -> World -> Prop) :
  match fs w !! path with
  | Some c => Q (Ok tt) (MkWorld (<[path := replace c old new]> (fs w))
                                 (dirs w) (cwd w) (trace w))
  | None => Q (Ok tt) w
  end ->
  post (substitute_in_file path old new) w Q.
Proof.
  unfold substitute_in_file. intros H. do 2 post_step.
  destruct (fs w !! path); post_step; exact H.
Qed.

(** The events of a run extend the trace. *)
Ltac trace_eq := cbn [trace log]; rewrite <- ?app_assoc; reflexivity.

(** An event that differs from every member of a list of events. *)
Ltac not_in_events :=
  let H := fresh in
  intros H;
  repeat (apply elem_of_cons in H as [H | H];
          [first [discriminate H | vm_compute in H; discriminate H] |]);
  apply elem_of_nil in H; destruct H.

(** Refute that an event is among the events of a run, given as a chain of
    lists of which it is no member. *)
Ltac no_event Hin :=
  rewrite ?elem_of_app in Hin;
  repeat match type of Hin with _ \/ _ => destruct Hin as [Hin | Hin] end;
  first [contradiction | revert Hin; not_in_events].

Lemma strip_secret_key env : strip (secret_key env +:+ NL) = secret_key env.
Proof. apply strip_hex_nl, all_hex_hexlify. Qed.

Ltac in_events :=
  solve [repeat first [apply list_elem_of_here | apply list_elem_of_further]].

(** Find an event in the events of a run, given as a chain of lists. *)
Ltac has_event :=
  rewrite ?elem_of_app;
  first [assumption | in_events | left; has_event | right; has_event].

Lemma generate_key_post env w c :
  fs w !! settings_path = Some c ->
  post (generate_key_for_platform env) w (fun r w' =>
    exists evs, trace w' = trace w ++ evs /\ dirs w' = dirs w /\ cwd w' = cwd w /\
      match r with
      | Ok _ => fs w' = <[settings_path := replace c placeholder (secret_key env)]> (fs w)
                /\ EvPrint success_msg ∈ evs
      | Raise _ => fs w' = fs w /\ EvPrint success_msg ∉ evs
      end).
Proof.
  intros Hc. unfold generate_key_for_platform, check_output_openssl.
  post_step.
  destruct (String.eqb (system env) "Windows");
    [| destruct (String.eqb (system env) "Darwin")].
  all: repeat post_step; rewrite ?strip_secret_key;
    try (apply post_substitute_in_file; cbn [fs log]; rewrite Hc; post_step).
  all: eexists; (split; [trace_eq |]); cbn [fs dirs cwd log];
    (split; [reflexivity |]); (split; [reflexivity |]);
    split; try reflexivity; try not_in_events; try in_events.
Qed.

(** The generation phase: the platform branches under their handler. *)
Lemma generation_post env w c :
  fs w !! settings_path = Some c ->
  post (try_generate_key env) w (fun r w' =>
    r = Ok tt /\
    exists evs, trace w' = trace w ++ evs /\
      ((fs w' = <[settings_path := replace c placeholder (secret_key env)]> (fs w)
        /\ EvPrint success_msg ∈ evs)
       \/ (fs w' = fs w /\ (EvPrint success_msg ∉ evs)
           /\ EvPrint remediation_hint ∈ evs))).
Proof.
  intros Hc. unfold try_generate_key. post_step.
  eapply post_mono; [apply (generate_key_post env w c Hc) |].
  intros [[] | e] w1 (evs & Ht & _ & _ & H); cbn beta iota.
  - destruct H as [Hfs Hin]. split; [reflexivity |]. exists evs. auto.
  - destruct H as [Hfs Hnot]. unfold remediation. repeat post_step.
    split; [reflexivity |]. eexists. split.
    { cbn [trace log]. rewrite Ht, <- ?app_assoc. reflexivity. }
    right. cbn [fs log]. split; [exact Hfs |]. split.
    + rewrite not_elem_of_app. split; [exact Hnot | not_in_events].
    + has_event.
Qed.

Lemma generation_total env w :
  post (try_generate_key env) w
       (fun r w' => r = Ok tt).
Proof.
  unfold try_generate_key. post_step.
  unfold generate_key_for_platform, check_output_openssl, remediation.
  post_step.
  destruct (String.eqb (system env) "Windows");
    [| destruct (String.eqb (system env) "Darwin")].
  all: repeat post_step;
    try (apply post_substitute_in_file; cbn [fs log];
         destruct (fs w !! settings_path); repeat post_step);
    reflexivity.
Qed.

Lemma provisioning_total env w : (generate_searxng_secret_key env w).1 = Ok tt.
Proof.
  change (post (generate_searxng_secret_key env) w (fun r _ => r = Ok tt)).
  unfold generate_searxng_secret_key. repeat post_step.
  destruct (_ || _); cbn [negb]; [| now post_step].
  repeat post_step. 
  destruct (_ || _); cbn [negb]; repeat post_step.
  - apply generation_total.
  - destruct (fs _ !! settings_base_path); [destruct (copy_error _ _ _) |];
      repeat post_step; try reflexivity; apply generation_total.
Qed.

Lemma join_one (sep p : string) : join sep [p] = p.
Proof. reflexivity. Qed.

Lemma join_more (sep p q : string) (l : list string) : join sep (p :: q :: l) = p +:+ sep +:+ join sep (q :: l).
Proof. reflexivity. Qed.

Lemma join_cons_char (sep : string) c (p : string) (l : list string) : join sep (String c p :: l) = String c (join sep (p :: l)).
Proof. destruct l; reflexivity. Qed.

Lemma join_starts (sep p : string) (l : list string) : exists r, join sep (p :: l) = p +:+ r.
Proof.
  destruct l as [|q l]; [exists ""; now rewrite join_one, str_app_nil_r |].
  eexists. apply join_more.
Qed.

(** The source is a sequence of pieces separated by [old], none of which
    holds [old]; the result is the same pieces separated by [new]. *)
Lemma replace_pieces (old new s : string) :
  old <> "" ->
  exists pieces,
    s = join old pieces /\ replace s old new = join new pieces /\
    Forall (fun p => str_in old p = false) pieces /\ pieces <> [].
Proof.
  intros Hne. induction s as [| r IH | c s Hc IH] using (replace_ind old Hne).
  - exists [""]. rewrite replace_nil by exact Hne. repeat split; try discriminate.
    constructor; [| constructor]. destruct old; [congruence | reflexivity].
  - destruct IH as (pieces & Hs & Hr & Hf & Hn).
    destruct pieces as [|q l]; [congruence |].
    exists ("" :: q :: l). rewrite replace_match by exact Hne.
    rewrite !join_more, <- Hs, <- Hr. repeat split; try discriminate.
    constructor; [| exact Hf]. destruct old; [congruence | reflexivity].
  - destruct IH as (pieces & Hs & Hr & Hf & Hn).
    destruct pieces as [|q l]; [congruence |].
    exists (String c q :: l). rewrite replace_pass by exact Hc.
    rewrite !join_cons_char, <- Hs, <- Hr. repeat split; try discriminate.
    inversion Hf as [| ? ? Hq Hl]; subst. constructor; [| exact Hl].
    rewrite str_in_cons, Hq, orb_false_r.
    destruct (startswith (String c q) old) eqn:E; [| reflexivity].
    destruct (join_starts old q l) as [r Hjr].
    rewrite <- Hc, Hjr. symmetry.
    change (String c (q +:+ r)) with (String c q +:+ r).
    now apply startswith_extend.
Qed.


(** C2. When the base template exists (and the settings path is no
    directory), the settings file is created from the template if it is
    absent, and once the step has reported success the settings file is the
    source text (the previous settings, or the template) in which every
    occurrence of the placeholder has been replaced by one key: 64 lower-case
    hexadecimal digits, the encoding of 32 bytes of the random source.  No
    placeholder is left; the source is a sequence of placeholder-free pieces
    separated by the placeholder and the result is the same pieces separated
    by the key. *)
Theorem secret_provisioned env w template :
  fs w !! settings_base_path = Some template ->
  settings_path ∉ dirs w ->
  let w' := (generate_searxng_secret_key env w).2 in
  let source := default template (fs w !! settings_path) in
  let result := replace source placeholder (secret_key env) in
  exists evs, trace w' = trace w ++ evs /\
    (fs w !! settings_path = None ->
     copy_error env settings_base_path settings_path = None ->
     EvCopy settings_base_path settings_path ∈ evs /\
     (fs w' !! settings_path = Some template \/
      fs w' !! settings_path = Some result)) /\
    (EvPrint success_msg ∈ evs ->
     fs w' !! settings_path = Some result /\
     len (secret_key env) = 64 /\ all_hex (secret_key env) = true /\
     str_in placeholder result = false /\
     exists pieces,
       source = join placeholder pieces /\
       result = join (secret_key env) pieces /\
       Forall (fun p => str_in placeholder p = false) pieces).
Proof.
  intros Hb Hd w' source result.
  assert (Hpure : len (secret_key env) = 64 /\ all_hex (secret_key env) = true /\
     str_in placeholder result = false /\
     exists pieces,
       source = join placeholder pieces /\
       result = join (secret_key env) pieces /\
       Forall (fun p => str_in placeholder p = false) pieces).
  { split; [apply len_secret_key |]. split; [apply all_hex_hexlify |].
    split; [apply no_placeholder_left |].
    destruct (replace_pieces placeholder (secret_key env) source placeholder_ne)
      as (pieces & H1 & H2 & H3 & _). eauto. }
  enough (G : post (generate_searxng_secret_key env) w (fun _ w1 =>
            exists evs, trace w1 = trace w ++ evs /\
              (fs w !! settings_path = None ->
               copy_error env settings_base_path settings_path = None ->
               EvCopy settings_base_path settings_path ∈ evs /\
               (fs w1 !! settings_path = Some template \/
                fs w1 !! settings_path = Some result)) /\
              (EvPrint success_msg ∈ evs -> fs w1 !! settings_path = Some result))).
  { destruct G as (evs & Ht & Hcopy & Hok). exists evs. auto. }
  unfold generate_searxng_secret_key. repeat post_step.

  rewrite Hb, bool_decide_true by eauto. cbn [orb negb].
  repeat post_step.
  rewrite (bool_decide_false (settings_path ∈ dirs w)) by exact Hd.
  rewrite orb_false_r. cbn [fs log].
  destruct (fs w !! settings_path) as [c |] eqn:Hs.
  - rewrite bool_decide_true by eauto. cbn [negb]. repeat post_step.
    eapply post_mono; [apply (generation_post env _ c); exact Hs |].
    intros r w1 (-> & evs & Ht & H). eexists. split.
    { rewrite Ht. trace_eq. }
    split; [discriminate |]. intros Hin.
    destruct H as [[Hfs _] | [_ [Hnot _]]].
    + rewrite Hfs. cbn [fs log]. apply lookup_insert_eq.
    + exfalso. no_event Hin.
  - rewrite bool_decide_false by (intros [? ?]; discriminate). cbn [negb].
    repeat post_step. cbn [fs log]. rewrite Hb.
    destruct (copy_error env settings_base_path settings_path) as [e |] eqn:Hce;
      repeat post_step.
    + eexists. split; [trace_eq |]. split; [discriminate |]. not_in_events.
    + eapply post_mono;
        [apply (generation_post env _ template); cbn [fs log]; apply lookup_insert_eq |].
      intros r w1 (-> & evs & Ht & H). eexists. split.
      { rewrite Ht. trace_eq. }
      split.
      * intros _ _. split; [has_event |].
        destruct H as [[Hfs _] | [Hfs _]]; rewrite Hfs; cbn [fs log];
          [right | left]; rewrite ?lookup_insert_eq; reflexivity.
      * intros Hin. destruct H as [[Hfs _] | [_ [Hnot _]]].
        -- rewrite Hfs. cbn [fs log]. apply lookup_insert_eq.
        -- exfalso. no_event Hin.
Qed.



Lemma secret_provisioned_witness :
  fs (generate_searxng_secret_key env_ok w_fresh).2 !! settings_path
  = Some (replace template0 placeholder (secret_key env_ok)).
Proof.
  assert (H1 : fs w_fresh !! settings_base_path = Some template0)
    by (vm_compute; reflexivity).
  assert (H2 : settings_path ∉ dirs w_fresh) by apply not_elem_of_empty.
  destruct (secret_provisioned env_ok w_fresh template0 H1 H2)
    as (evs & Ht & _ & Hok).
  apply Hok. vm_compute in Ht. rewrite <- Ht. has_event.
Defined.

(** ** Failure of the secret generation *)

Lemma generation_fails env w :
  command_fails env (generation_command env) ->
  post (try_generate_key env) w (fun r w' =>
    r = Ok tt /\ fs w' = fs w /\
    exists evs, trace w' = trace w ++ evs /\
      EvPrint remediation_hint ∈ evs /\ (EvPrint success_msg ∉ evs)).
Proof.
  unfold command_fails, generation_command, try_generate_key.
  unfold generate_key_for_platform, check_output_openssl, remediation.
  intros Hf. post_step. post_step.
  destruct (String.eqb (system env) "Windows");
    [| destruct (String.eqb (system env) "Darwin")].
  all: repeat post_step.
  all: match goal with
       | H : proc _ _ = _ |- _ => rewrite H in Hf
       end.
  all: try (exfalso; intuition congruence).
  all: (split; [reflexivity |]); (split; [reflexivity |]);
    eexists; (split; [trace_eq |]); split; [has_event | not_in_events].
Qed.

Lemma run_result {A} (m : M A) w : m w = ((m w).1, (m w).2).
Proof. now destruct (m w). Qed.

Lemma main_after_provisioning env profile w0 w :
  (clone_supabase_repo env;; prepare_supabase_env env) w0 = (Ok tt, w) ->
  main env profile w0 =
  match generate_searxng_secret_key env w with
  | (Ok _, w') => rest_of_run env profile w'
  | (Raise e, w') => (Raise e, w')
  end.
Proof.
  unfold main, patch_configuration, rest_of_run, mbind, M_bind.
  destruct (clone_supabase_repo env w0) as [[[] | e] w1]; [| discriminate].
  destruct (prepare_supabase_env env w1) as [[[] | e] w2]; [| discriminate].
  intros [= ->].
  destruct (generate_searxng_secret_key env w) as [[[] | e] w3]; [| reflexivity].
  destruct (check_and_fix_docker_compose_for_searxng env w3) as [[[] | e] w4];
    [| reflexivity].
  destruct (fix_supabase_realtime_healthcheck w4) as [[[] | e] w5]; reflexivity.
Qed.

(** C5 (amended). When the external secret-generation command fails while
    the template and the settings file are in place, the failure does not
    leave the provisioning step: the step returns normally, no file is
    changed, the manual remediation commands are printed and no success is
    reported; the run then goes on with the steps that follow, from the world
    the provisioning step left. *)
Theorem generation_failure_is_caught env w :
  command_fails env (generation_command env) ->
  is_Some (fs w !! settings_base_path) ->
  is_Some (fs w !! settings_path) ->
  let r := generate_searxng_secret_key env w in
  r.1 = Ok tt /\ fs r.2 = fs w /\
  (exists evs, trace r.2 = trace w ++ evs /\
     EvPrint remediation_hint ∈ evs /\ (EvPrint success_msg ∉ evs)) /\
  forall profile w0,
    (clone_supabase_repo env;; prepare_supabase_env env) w0 = (Ok tt, w) ->
    main env profile w0 = rest_of_run env profile r.2.
Proof.
  intros Hf Hb Hs r.
  assert (G : post (generate_searxng_secret_key env) w (fun r w' =>
            r = Ok tt /\ fs w' = fs w /\
            exists evs, trace w' = trace w ++ evs /\
              EvPrint remediation_hint ∈ evs /\ (EvPrint success_msg ∉ evs))).
  { unfold generate_searxng_secret_key. repeat post_step.
    rewrite bool_decide_true by assumption. cbn [orb negb].
    repeat post_step.
    rewrite bool_decide_true by assumption. cbn [orb negb].
    repeat post_step.
    eapply post_mono; [apply (generation_fails env _ Hf) |].
    intros r' w' (-> & Hfs & evs & Ht & Hin & Hnot).
    split; [reflexivity |]. split; [exact Hfs |].
    eexists. split; [rewrite Ht; trace_eq |].
    split; [has_event |]. intros Hin'. no_event Hin'. }
  destruct G as (Hr & Hfs & Hev). fold r in Hr, Hfs, Hev.
  repeat split; try assumption.
  intros profile w0 H0. rewrite (main_after_provisioning _ _ _ _ H0).
  rewrite (run_result (generate_searxng_secret_key env) w). fold r. now rewrite Hr.
Qed.

Lemma generation_failure_is_caught_witness :
  fs (generate_searxng_secret_key env_openssl_fails w_provisioned).2 = fs w_provisioned.
Proof.
  apply (generation_failure_is_caught env_openssl_fails w_provisioned).
  - vm_compute. discriminate.
  - vm_compute. eauto.
  - vm_compute. eauto.
Defined.

(** C5 as stated fails: [openssl] exits with status 1, and the run still
    ends normally, after having started the local AI services. *)
Lemma generation_failure_does_not_abort :
  command_fails env_openssl_fails (generation_command env_openssl_fails) /\
  (main env_openssl_fails "cpu" w_fresh).1 = Ok tt /\
  EvPrint "Starting local AI services..."
    ∈ trace (main env_openssl_fails "cpu" w_fresh).2.
Proof.
  split; [vm_compute; discriminate |]. split; [vm_compute; reflexivity |].
  vm_compute. has_event.
Qed.

(** * Classification of the invocation *)

(** Use what is known of an external command's outcome. *)
Ltac known_outcome :=
  repeat match goal with
  | H : proc ?env ?cmd = _, H' : proc ?env ?cmd = _ |- _ =>
      rewrite H in H'; first [discriminate H' | injection H' as ? ?; subst]
  end.

(** No running container: first run. *)
Lemma detect_no_container env w out :
  proc env docker_ps_cmd = Exited 0 out ->
  first_nonempty (split (strip out) nl) = None ->
  (detect_first_run env w).1 = Ok true.
Proof.
  intros Hps Hnone.
  change (post (detect_first_run env) w (fun r _ => r = Ok true)).
  unfold detect_first_run. repeat post_step; known_outcome;
    try (exfalso; congruence).
  rewrite Hnone. repeat post_step. reflexivity.
Qed.

(** A container runs and the probe finds the marker file: not first run. *)
Lemma detect_marker_present env w out name rc :
  proc env docker_ps_cmd = Exited 0 out ->
  first_nonempty (split (strip out) nl) = Some name ->
  proc env (docker_exec_cmd name) = Exited rc (probe_script_stdout true) ->
  (detect_first_run env w).1 = Ok false.
Proof.
  intros Hps Hname Hexec.
  change (post (detect_first_run env) w (fun r _ => r = Ok false)).
  unfold detect_first_run. repeat post_step; known_outcome;
    try (exfalso; congruence).
  rewrite Hname. repeat post_step; known_outcome; try discriminate.
  change (str_in "found" (probe_script_stdout true)) with true.
  repeat post_step. reflexivity.
Qed.

(** The listing fails, or the probe cannot be launched: first run. *)
Lemma detect_probe_error env w :
  (forall out, proc env docker_ps_cmd <> Exited 0 out) \/
  (exists out name e,
     proc env docker_ps_cmd = Exited 0 out /\
     first_nonempty (split (strip out) nl) = Some name /\
     proc env (docker_exec_cmd name) = LaunchError e) ->
  (detect_first_run env w).1 = Ok true.
Proof.
  intros H.
  change (post (detect_first_run env) w (fun r _ => r = Ok true)).
  unfold detect_first_run. repeat post_step; try reflexivity.
  destruct H as [H | (out' & name & e & Hps & Hname & Hexec)].
  - exfalso.
    match goal with
    | Hz : _ \/ _ = 0%Z |- _ => destruct Hz as [? | ->]; [discriminate |]
    end.
    eapply H; eauto.
  - known_outcome. rewrite Hname. repeat post_step; known_outcome; reflexivity.
Qed.

(** C1, the part the code misses.  A container runs and the probe reports
    the marker file absent by printing [not_found]; the test ["found" in
    stdout] holds of that output as well, so the invocation is classified
    not-first-run, where the claim (and the message of the [else] branch)
    says first-run. *)
Theorem detect_marker_absent env w out name rc :
  proc env docker_ps_cmd = Exited 0 out ->
  first_nonempty (split (strip out) nl) = Some name ->
  proc env (docker_exec_cmd name) = Exited rc (probe_script_stdout false) ->
  (detect_first_run env w).1 = Ok false.
Proof.
  intros Hps Hname Hexec.
  change (post (detect_first_run env) w (fun r _ => r = Ok false)).
  unfold detect_first_run. repeat post_step; known_outcome;
    try (exfalso; congruence).
  rewrite Hname. repeat post_step; known_outcome; try discriminate.
  change (str_in "found" (probe_script_stdout false)) with true.
  repeat post_step. reflexivity.
Qed.

Lemma detect_marker_absent_witness :
  (detect_first_run env_marker_absent w_fresh).1 = Ok false.
Proof.
  apply (detect_marker_absent env_marker_absent w_fresh
           ("searxng" +:+ NL) "searxng" 0);
    vm_compute; reflexivity.
Defined.

(** * The root environment file *)

Lemma post_chdir d w (Q : Result unit -> World -> Prop) :
  (forall c, Q (Ok tt) (MkWorld (fs w) (dirs w) c (trace w))) ->
  (forall e, Q (Raise e) w) ->
  post (chdir d) w Q.
Proof.
  intros Hok He. unfold chdir. do 2 post_step.
  destruct (String.eqb d ".."); [post_step; apply Hok |].
  destruct (bool_decide _); [post_step; apply Hok |].
  destruct (bool_decide _); post_step; apply He.
Qed.

Lemma install_outside files (f : gmap string string) p :
  startswith p "supabase/" = false -> install files f !! p = f !! p.
Proof.
  intros Hp. unfold install.
  induction files as [|[q c] files IH]; [reflexivity |].
  cbn [foldr fst snd]. rewrite lookup_insert_ne; [exact IH |].
  intros Heq. rewrite <- Heq, startswith_app in Hp. discriminate.
Qed.

(** The repository sync leaves every file outside the repository alone. *)
Lemma clone_keeps_outside env w p :
  startswith p "supabase/" = false ->
  post (clone_supabase_repo env) w (fun _ w' => fs w' !! p = fs w !! p).
Proof.
  intros Hp. unfold clone_supabase_repo, git_clone_effect, git_sync_effect.
  repeat post_step.
  destruct (_ || _); cbn [negb].
  all: repeat first [post_step | apply post_chdir; intros; cbn [fs]];
    rewrite ?install_outside by exact Hp; reflexivity.
Qed.

Lemma prepare_without_env env w :
  fs w !! ".env" = None ->
  (prepare_supabase_env env w).1 = Raise (FileNotFoundError ".env").
Proof.
  intros H.
  change (post (prepare_supabase_env env) w
            (fun r _ => r = Raise (FileNotFoundError ".env"))).
  unfold prepare_supabase_env. repeat post_step. now rewrite H.
Qed.

(** C9. Without the root environment file the run ends in an exception, and
    its outcome and final world are those of the repository sync followed by
    the environment propagation alone: no later step runs.  When the sync
    succeeded, the exception is the [FileNotFoundError] that the copy of
    [.env] raises. *)
Theorem missing_env_aborts env profile w :
  fs w !! ".env" = None ->
  let r := main env profile w in
  (exists e, r.1 = Raise e) /\
  r = (clone_supabase_repo env;; prepare_supabase_env env) w /\
  ((clone_supabase_repo env w).1 = Ok tt ->
   r.1 = Raise (FileNotFoundError ".env")).
Proof.
  intros Henv r. subst r.
  pose proof (clone_keeps_outside env w ".env" eq_refl) as Hk.
  unfold post in Hk. rewrite Henv in Hk.
  pose proof (prepare_without_env env _ Hk) as Hp.
  unfold main, mbind, M_bind.
  destruct (clone_supabase_repo env w) as [[[] | e] w1]; cbn [fst snd] in *.
  - destruct (prepare_supabase_env env w1) as [[[] | e] w2];
      cbn [fst snd] in *; [discriminate |].
    injection Hp as ->. eauto.
  - split; [eauto |]. split; [reflexivity | discriminate].
Qed.

Lemma missing_env_aborts_witness :
  (main env_ok "cpu" w_no_env).1 = Raise (FileNotFoundError ".env").
Proof.
  apply (missing_env_aborts env_ok "cpu" w_no_env).
  - vm_compute. reflexivity.
  - vm_compute. reflexivity.
Defined.

(** * The health-check rewriter *)

Ltac no_write_events :=
  let p := fresh in let c := fresh in intros p c; not_in_events.

(** C8. The health-check rewriter leaves the files alone outside the
    full-trigger case: when one of the three trigger texts is missing, the
    step returns normally, no file changes and nothing is written; when all
    three are there and one of the two markers is not found, likewise, and
    the diagnostic is printed. *)
Theorem healthcheck_untouched w content :
  fs w !! supabase_compose_path = Some content ->
  let r := fix_supabase_realtime_healthcheck w in
  ((str_in obsolete_endpoint content = false \/
    str_in "healthcheck" content = false \/
    str_in service_token content = false) ->
   r.1 = Ok tt /\ fs r.2 = fs w /\
   exists evs, trace r.2 = trace w ++ evs /\ no_write evs) /\
  (has_triggers content = true ->
   (healthcheck_start content = (-1)%Z \/ environment_start content = (-1)%Z) ->
   r.1 = Ok tt /\ fs r.2 = fs w /\
   exists evs, trace r.2 = trace w ++ evs /\ no_write evs /\
               EvPrint no_locate_msg ∈ evs).
Proof.
  intros Hc r. subst r. split.
  - intros Hmiss.
    assert (Ht : has_triggers content = false).
    { unfold has_triggers. destruct Hmiss as [-> | [-> | ->]];
        rewrite ?andb_false_r; reflexivity. }
    change (post fix_supabase_realtime_healthcheck w (fun r w' =>
              r = Ok tt /\ fs w' = fs w /\
              exists evs, trace w' = trace w ++ evs /\ no_write evs)).
    unfold fix_supabase_realtime_healthcheck. repeat post_step.
    rewrite bool_decide_true by eauto. cbn [orb negb]. repeat post_step.
    rewrite Hc, Ht. repeat post_step.
    repeat split. eexists. split; [trace_eq | no_write_events].
  - intros Ht Hloc.
    assert (Hl : located content = false).
    { unfold located. destruct Hloc as [-> | ->];
        rewrite ?andb_false_r; reflexivity. }
    change (post fix_supabase_realtime_healthcheck w (fun r w' =>
              r = Ok tt /\ fs w' = fs w /\
              exists evs, trace w' = trace w ++ evs /\ no_write evs /\
                          EvPrint no_locate_msg ∈ evs)).
    unfold fix_supabase_realtime_healthcheck. repeat post_step.
    rewrite bool_decide_true by eauto. cbn [orb negb]. repeat post_step.
    rewrite Hc, Ht. repeat post_step. rewrite Hl. repeat post_step.
    repeat split. eexists. split; [trace_eq |]. split; [no_write_events | has_event].
Qed.

Lemma healthcheck_untouched_witness :
  fs (fix_supabase_realtime_healthcheck (w_supabase compose_plain)).2
    = fs (w_supabase compose_plain) /\
  fs (fix_supabase_realtime_healthcheck (w_supabase compose_unlocatable)).2
    = fs (w_supabase compose_unlocatable).
Proof.
  split.
  - destruct (healthcheck_untouched (w_supabase compose_plain) compose_plain)
      as [H _]; [vm_compute; reflexivity |].
    apply H. left. vm_compute. reflexivity.
  - destruct (healthcheck_untouched (w_supabase compose_unlocatable)
                compose_unlocatable)
      as [_ H]; [vm_compute; reflexivity |].
    apply H; [vm_compute; reflexivity | left; vm_compute; reflexivity].
Defined.

Lemma is_suffix_drop_of n s : is_suffix (substr_from n s) s.
Proof. exists (substr_to n s). symmetry. apply str_take_drop. Qed.

Lemma startswith_take n p r :
  len p <= n -> startswith (substr_to n (p +:+ r)) p = true.
Proof.
  revert n; induction p as [|c p IH]; intros n H; [apply startswith_nil |].
  destruct n as [|n]; [simpl in H; lia |].
  cbn [String.append substr_to]. rewrite startswith_cons, Ascii.eqb_refl.
  apply IH. simpl in H. lia.
Qed.

Lemma len_pos_ne s : 0 < len s -> s <> "".
Proof. destruct s; simpl; [lia | discriminate]. Qed.

(** The located span: where it lies and how it begins and ends. *)
Lemma located_span content :
  healthcheck_start content <> (-1)%Z ->
  environment_start content <> (-1)%Z ->
  exists i j,
    healthcheck_start content = Z.of_nat i /\
    environment_start content = Z.of_nat j /\
    i + 12 <= j /\ j <= len content /\
    healthcheck_section content = substr_to (j - i) (substr_from i content) /\
    content = substr_to i content +:+ healthcheck_section content +:+ substr_from j content /\
    startswith (healthcheck_section content) "healthcheck:" = true /\
    startswith (substr_from j content) "environment:" = true.
Proof.
  intros Hh He.
  destruct (find_found content "healthcheck:" (find content service_token 0)
              (healthcheck_start content) eq_refl Hh)
    as (i & Hi & Hil & His & _).
  destruct (find_found content "environment:" (healthcheck_start content)
              (environment_start content) eq_refl He)
    as (j & Hj & Hjl & Hjs & Hle).
  assert (Hij : i <= j) by lia.
  destruct (startswith_spec _ _ His) as [r0 Hr0].
  assert (H12 : i + 12 <= j).
  { destruct (le_lt_dec (i + 12) j) as [? | Hlt]; [assumption | exfalso].
    replace j with (i + (j - i)) in Hjs by lia.
    rewrite <- str_drop_drop, Hr0, str_drop_app_le in Hjs by (simpl; lia).
    assert (Hs : sealed "healthcheck:" "environment:")
      by (apply sealed_by_check; reflexivity).
    rewrite Hs in Hjs; [discriminate | | apply is_suffix_drop_of].
    apply len_pos_ne. rewrite len_drop. simpl. lia. }
  assert (Hsec : healthcheck_section content = substr_to (j - i) (substr_from i content)).
  { unfold healthcheck_section. rewrite Hi, Hj. apply slice_nat; lia. }
  exists i, j. repeat split; try assumption.
  - rewrite Hsec.
    rewrite <- (str_take_drop i content) at 1. f_equal.
    rewrite <- (str_take_drop (j - i) (substr_from i content)) at 1. f_equal.
    rewrite str_drop_drop. f_equal. lia.
  - rewrite Hsec, Hr0. apply startswith_take. simpl. lia.
Qed.

Lemma has_triggers_located content :
  healthcheck_start content <> (-1)%Z ->
  environment_start content <> (-1)%Z ->
  located content = true.
Proof.
  intros Hh He. unfold located.
  destruct (Z.eqb_spec (healthcheck_start content) (-1)); [congruence |].
  destruct (Z.eqb_spec (environment_start content) (-1)); [congruence |].
  reflexivity.
Qed.

Lemma new_healthcheck_split :
  new_healthcheck = "healthcheck" +:+ String ":" (new_healthcheck_body +:+ NL).
Proof. vm_compute. reflexivity. Qed.

Lemma obsolete_absent_after pre rest :
  str_in obsolete_endpoint (pre +:+ "healthcheck") = false ->
  str_in obsolete_endpoint rest = false ->
  str_in obsolete_endpoint (pre +:+ new_healthcheck +:+ rest) = false.
Proof.
  intros Hpre Hrest. rewrite new_healthcheck_split.
  rewrite <- !str_app_assoc.
  rewrite !str_app_assoc.
  change (String ":" (new_healthcheck_body +:+ NL) +:+ rest)
    with (String ":" ((new_healthcheck_body +:+ NL) +:+ rest)).
  rewrite <- (str_app_assoc pre).
  rewrite str_in_cut by reflexivity. rewrite Hpre. cbn [orb].
  rewrite str_app_assoc. unfold NL.
  change (String nl "" +:+ rest) with (String nl rest).
  rewrite str_in_cut by reflexivity. rewrite Hrest.
  now vm_compute.
Qed.

(** C3 (amended). When the three trigger texts are there and both markers
    are found, the file is rewritten to [content.replace(span, block)]: the
    located span (from [healthcheck:] up to [environment:]) is the text that
    is looked for, every occurrence of that text is replaced by the corrected
    block, and the result holds the corrected block.  When the text of the
    span occurs at the located position only, exactly the span is replaced,
    and the obsolete path is gone provided it stood neither in what precedes
    the span followed by the word [healthcheck] nor in what follows the
    span. *)
Theorem healthcheck_rewritten w content :
  fs w !! supabase_compose_path = Some content ->
  has_triggers content = true ->
  healthcheck_start content <> (-1)%Z ->
  environment_start content <> (-1)%Z ->
  let section := healthcheck_section content in
  let result := replace content section new_healthcheck in
  let pre := substr_to (Z.to_nat (healthcheck_start content)) content in
  let rest := substr_from (Z.to_nat (environment_start content)) content in
  fs (fix_supabase_realtime_healthcheck w).2 !! supabase_compose_path
    = Some result /\
  content = pre +:+ section +:+ rest /\
  startswith section "healthcheck:" = true /\
  startswith rest "environment:" = true /\
  str_in new_healthcheck result = true /\
  (occurrences section content = [Z.to_nat (healthcheck_start content)] ->
   result = pre +:+ new_healthcheck +:+ rest /\
   (str_in obsolete_endpoint (pre +:+ "healthcheck") = false ->
    str_in obsolete_endpoint rest = false ->
    str_in obsolete_endpoint result = false)).
Proof.
  intros Hc Ht Hh He section result pre rest.
  destruct (located_span content Hh He)
    as (i & j & Hi & Hj & Hij & Hjl & Hsec & Hsplit & Hhc & Henv).
  subst pre rest. rewrite Hi, Hj, !Nat2Z.id. fold section in Hsec, Hsplit, Hhc.
  split.
  { change (post fix_supabase_realtime_healthcheck w (fun _ w' =>
              fs w' !! supabase_compose_path = Some result)).
    unfold fix_supabase_realtime_healthcheck. repeat post_step.
    rewrite bool_decide_true by eauto. cbn [orb negb]. repeat post_step.
    rewrite Hc, Ht. repeat post_step.
    rewrite (has_triggers_located _ Hh He). repeat post_step.
    apply lookup_insert_eq. }
  split; [exact Hsplit |]. split; [exact Hhc |]. split; [exact Henv |].
  split.
  { apply replace_present. subst section. rewrite Hsec. apply str_in_take_drop. }
  intros Huniq.
  assert (Hne : section <> "").
  { intros E. rewrite E in Hhc. discriminate. }
  assert (Hres : result = substr_to i content +:+ new_healthcheck +:+ substr_from j content).
  { subst result. rewrite Hsplit at 1.
    apply (replace_unique _ _ _ _ 0 Hne).
    rewrite <- Hsplit, len_take by lia. exact Huniq. }
  split; [exact Hres |]. intros Hpre Hrest. rewrite Hres.
  now apply obsolete_absent_after.
Qed.

Lemma healthcheck_rewritten_witness :
  str_in obsolete_endpoint
    (replace compose_realtime (healthcheck_section compose_realtime)
             new_healthcheck) = false.
Proof.
  assert (H1 : fs (w_supabase compose_realtime) !! supabase_compose_path
               = Some compose_realtime) by (vm_compute; reflexivity).
  assert (H2 : has_triggers compose_realtime = true) by (vm_compute; reflexivity).
  assert (H3 : healthcheck_start compose_realtime <> (-1)%Z)
    by (vm_compute; discriminate).
  assert (H4 : environment_start compose_realtime <> (-1)%Z)
    by (vm_compute; discriminate).
  destruct (healthcheck_rewritten _ _ H1 H2 H3 H4) as (_ & _ & _ & _ & _ & H).
  destruct H as [_ H]; [vm_compute; reflexivity |].
  apply H; vm_compute; reflexivity.
Defined.

(** C3 as stated fails.  In [compose_stale_comment] the triggers are there
    and both markers are found, yet the rewritten file still holds the
    obsolete path; in [compose_twice] the text of the span occurs twice and
    both occurrences are replaced, so the rewrite is not a substitution of
    the located span alone. *)
Lemma healthcheck_rewrite_misses :
  (has_triggers compose_stale_comment = true /\
   located compose_stale_comment = true /\
   exists result,
     fs (fix_supabase_realtime_healthcheck (w_supabase compose_stale_comment)).2
       !! supabase_compose_path = Some result /\
     str_in obsolete_endpoint result = true) /\
  (has_triggers compose_twice = true /\
   located compose_twice = true /\
   modified_content compose_twice <>
     substr_to (Z.to_nat (healthcheck_start compose_twice)) compose_twice
     +:+ new_healthcheck
     +:+ substr_from (Z.to_nat (environment_start compose_twice)) compose_twice).
Proof.
  split.
  - split; [vm_compute; reflexivity |]. split; [vm_compute; reflexivity |].
    eexists. split; vm_compute; reflexivity.
  - split; [vm_compute; reflexivity |]. split; [vm_compute; reflexivity |].
    vm_compute. discriminate.
Qed.

(** * The two transitions on one line *)

Lemma cap_drop_key_ne : cap_drop_key <> "".
Proof. discriminate. Qed.

Lemma cap_drop_value_ne : cap_drop_value <> "".
Proof. discriminate. Qed.

(** Commenting out the key and uncommenting it again restores the line. *)
Lemma key_round_trip line :
  replace (replace line cap_drop_key commented_key) commented_key cap_drop_key
  = line.
Proof.
  apply (replace_round_trip _ _ cap_drop_key_ne "#" " "
           " # Temporarily commented out for first run").
  - reflexivity.
  - apply blocked_by_head. reflexivity.
  - apply blocked_by_head. reflexivity.
Qed.

Lemma value_round_trip line :
  replace (replace line cap_drop_value commented_value)
          commented_value cap_drop_value
  = line.
Proof.
  apply (replace_round_trip _ _ cap_drop_value_ne "#" " "
           " # Temporarily commented out for first run").
  - reflexivity.
  - apply blocked_by_head. reflexivity.
  - apply blocked_by_head. reflexivity.
Qed.

(** Commenting out the value creates no occurrence of the key. *)
Lemma value_comment_no_key line :
  str_in cap_drop_key line = false ->
  str_in commented_key (replace line cap_drop_value commented_value) = false.
Proof.
  intros H.
  destruct (str_in commented_key _) eqn:E; [| reflexivity].
  apply (str_in_part "# " cap_drop_key
           " # Temporarily commented out for first run") in E.
  apply no_new_occurrence in E.
  - congruence.
  - exact cap_drop_value_ne.
  - apply blocked_by_head. reflexivity.
  - apply sealed_by_check. reflexivity.
Qed.

Lemma uncomment_key_line line :
  str_in cap_drop_key line = true ->
  uncomment_line (replace line cap_drop_key commented_key) = line.
Proof.
  intros H. unfold uncomment_line.
  rewrite (replace_present _ _ _ H). apply key_round_trip.
Qed.

Lemma uncomment_value_line line :
  str_in cap_drop_value line = true ->
  str_in cap_drop_key line = false ->
  uncomment_line (replace line cap_drop_value commented_value) = line.
Proof.
  intros Hv Hk. unfold uncomment_line.
  rewrite (value_comment_no_key _ Hk), (replace_present _ _ _ Hv).
  apply value_round_trip.
Qed.

(** * The first pass *)

(** One iteration, by the kind of the line. *)
Lemma scan_step_kind st i line :
  scan_step st i line =
  match line_kind st line with
  | Opens => (MkScan true (indent_of line) (cap_drop_line_index st) (cap_drop_value_line_index st), false)
  | Closes => (MkScan false (searxng_section_indent st) (cap_drop_line_index st) (cap_drop_value_line_index st), false)
  | Key => (MkScan true (searxng_section_indent st) (Some i) (cap_drop_value_line_index st), false)
  | Value => (MkScan true (searxng_section_indent st) (cap_drop_line_index st) (Some i), true)
  | Other => (st, false)
  end.
Proof.
  unfold scan_step, line_kind.
  repeat match goal with |- context [if ?b then _ else _] => destruct b end;
    reflexivity.
Qed.

Lemma scan_from_cons st i line rest :
  scan_from st i (line :: rest) =
  if (scan_step st i line).2 then (scan_step st i line).1
  else scan_from (scan_step st i line).1 (S i) rest.
Proof. simpl. now destruct (scan_step st i line) as [st' []]. Qed.

(** The value index is set by a value line, at which the pass stops. *)
Lemma scan_step_val st i line :
  cap_drop_value_line_index st = None ->
  (line_kind st line = Value /\ (scan_step st i line).2 = true /\
   cap_drop_value_line_index (scan_step st i line).1 = Some i /\
   cap_drop_line_index (scan_step st i line).1 = cap_drop_line_index st) \/
  (line_kind st line <> Value /\ (scan_step st i line).2 = false /\
   cap_drop_value_line_index (scan_step st i line).1 = None).
Proof.
  intros H. rewrite scan_step_kind.
  destruct (line_kind st line); cbn [fst snd cap_drop_value_line_index
    cap_drop_line_index]; auto; right; repeat split; auto; discriminate.
Qed.

(** Once the pass has stopped, further lines change nothing; until then,
    one more line is one more iteration. *)
Lemma scan_from_app st i l1 l2 :
  cap_drop_value_line_index st = None ->
  scan_from st i (l1 ++ l2) =
  match cap_drop_value_line_index (scan_from st i l1) with
  | Some _ => scan_from st i l1
  | None => scan_from (scan_from st i l1) (i + length l1) l2
  end.
Proof.
  revert st i; induction l1 as [|x l1 IH]; intros st i H.
  - cbn [app scan_from length]. rewrite H. f_equal. lia.
  - cbn [app]. rewrite !scan_from_cons.
    destruct (scan_step_val st i x H) as [(_ & -> & Hv & _) | (_ & -> & Hv)].
    + now rewrite Hv.
    + rewrite (IH _ _ Hv). cbn [length].
      replace (S i + length l1) with (i + S (length l1)) by lia. reflexivity.
Qed.

Lemma first_pass_state lines : first_pass lines = state_before lines (length lines).
Proof. unfold state_before. now rewrite firstn_all. Qed.

Lemma state_before_0 lines : state_before lines 0 = scan_init.
Proof. reflexivity. Qed.

Lemma state_before_S lines k line :
  lines !! k = Some line ->
  state_before lines (S k) =
  match cap_drop_value_line_index (state_before lines k) with
  | Some _ => state_before lines k
  | None => (scan_step (state_before lines k) k line).1
  end.
Proof.
  intros Hk. unfold state_before.
  rewrite (take_S_r _ _ _ Hk), scan_from_app by reflexivity.
  destruct (cap_drop_value_line_index (scan_from scan_init 0 (take k lines))) eqn:E; [reflexivity |].
  rewrite scan_from_cons. cbn [scan_from].
  rewrite length_take_le by (apply lookup_lt_Some in Hk; lia).
  now destruct (scan_step _ _ _) as [st' []].
Qed.

Lemma state_before_ge lines k :
  length lines <= k -> state_before lines k = first_pass lines.
Proof.
  intros H. unfold state_before, first_pass. now rewrite take_ge.
Qed.

Lemma line_kind_value_cap st line :
  line_kind st line = Value -> cap_drop_line_index st <> None.
Proof.
  unfold line_kind.
  repeat match goal with |- context [if ?b then _ else _] => destruct b eqn:? end;
    try discriminate.
  intros _.
  match goal with
  | H : _ && _ && _ = true |- _ =>
      apply andb_true_iff in H as [H _]; apply andb_true_iff in H as [H _];
      now apply bool_decide_eq_true in H
  end.
Qed.

Lemma scan_invariant_holds lines k : k <= length lines -> scan_invariant lines k.
Proof.
  induction k as [|k IH]; intros Hk.
  - unfold scan_invariant. rewrite state_before_0. cbn. split; intros; lia.
  - assert (Hlt : k < length lines) by lia.
    destruct (lookup_lt_is_Some_2 _ _ Hlt) as [line Hline].
    specialize (IH ltac:(lia)). unfold scan_invariant in *.
    rewrite (state_before_S _ _ _ Hline).
    assert (Hkind : kind_at lines k = Some (line_kind (state_before lines k) line))
      by (unfold kind_at; now rewrite Hline).
    destruct (cap_drop_value_line_index (state_before lines k)) as [v |] eqn:Ev.
    + rewrite Ev. destruct IH as (? & ? & ? & ?). repeat split; auto with lia.
    + destruct IH as [Hnv Hc]. rewrite scan_step_kind.
      destruct (line_kind (state_before lines k) line) eqn:Ek;
        cbn [fst cap_drop_value_line_index cap_drop_line_index];
        rewrite ?Ev.
      1, 2, 5:
        (split;
         [ intros j Hj; destruct (decide (j = k)) as [-> | ?];
           [congruence | apply Hnv; lia]
         | destruct (cap_drop_line_index (state_before lines k)) as [c |];
           [ destruct Hc as (? & ? & Hb); repeat split; auto with lia;
             intros j Hj; destruct (decide (j = k)) as [-> | ?];
             [congruence | apply Hb; lia]
           | intros j Hj; destruct (decide (j = k)) as [-> | ?];
             [congruence | apply Hc; lia] ] ]).
      * split.
        { intros j Hj. destruct (decide (j = k)) as [-> | ?];
            [congruence | apply Hnv; lia]. }
        repeat split; auto with lia.
      * split; [lia |]. split; [exact Hkind |]. split; [exact Hnv |].
        pose proof (line_kind_value_cap _ _ Ek) as Hcap.
        destruct (cap_drop_line_index (state_before lines k)) as [c |];
          [| congruence].
        destruct Hc as (? & ? & ?). exists c. auto.
Qed.

(** The pair the first pass locates: the value line is the first one the
    pass takes for a value line, and the key line is the last one it takes
    for a key line before that. *)
Lemma first_pass_pair lines ci vi :
  cap_drop_line_index (first_pass lines) = Some ci ->
  cap_drop_value_line_index (first_pass lines) = Some vi ->
  ci < vi /\
  kind_at lines ci = Some Key /\ kind_at lines vi = Some Value /\
  (forall j, ci < j < vi -> kind_at lines j <> Some Key) /\
  (forall j, j < vi -> kind_at lines j <> Some Value).
Proof.
  intros Hc Hv. pose proof (scan_invariant_holds lines (length lines) (le_n _)) as H.
  unfold scan_invariant in H. rewrite <- first_pass_state, Hv in H.
  destruct H as (_ & Hkv & Hfirst & c & Hc' & Hlt & Hkc & Hlast).
  rewrite Hc in Hc'. injection Hc' as <-. auto.
Qed.

Lemma kind_at_key lines k :
  kind_at lines k = Some Key ->
  exists line, lines !! k = Some line /\
               str_in cap_drop_key line = true /\ uncommented line = true.
Proof.
  unfold kind_at. destruct (lines !! k) as [line |]; [| discriminate].
  cbn. intros [= H]. exists line. split; [reflexivity |].
  revert H. unfold line_kind.
  repeat match goal with |- context [if ?b then _ else _] => destruct b eqn:? end;
    try discriminate.
  intros _.
  match goal with H : str_in cap_drop_key line && _ = true |- _ =>
    now apply andb_true_iff in H end.
Qed.

Lemma kind_at_value lines k :
  kind_at lines k = Some Value ->
  exists line, lines !! k = Some line /\
               str_in cap_drop_value line = true /\ uncommented line = true /\
               str_in cap_drop_key line = false.
Proof.
  unfold kind_at. destruct (lines !! k) as [line |]; [| discriminate].
  cbn. intros [= H]. exists line. split; [reflexivity |].
  revert H. unfold line_kind.
  repeat match goal with |- context [if ?b then _ else _] => destruct b eqn:? end;
    try discriminate.
  intros _.
  match goal with
  | H : _ && str_in cap_drop_value line && uncommented line = true,
    H' : str_in cap_drop_key line && uncommented line = false |- _ =>
      apply andb_true_iff in H as [H Hu]; apply andb_true_iff in H as [_ H];
      rewrite Hu, andb_true_r in H'; auto
  end.
Qed.

(** * The two transitions on a file *)

Lemma uncomment_loop_lines lines a b :
  (uncomment_loop lines a b).1.1 = uncomment_line <$> lines.
Proof.
  revert a b; induction lines as [|l lines IH]; intros a b; [reflexivity |].
  cbn [uncomment_loop]. specialize (IH (a || str_in commented_key l)
    (b || negb (str_in commented_key l) && str_in commented_value l)).
  destruct (uncomment_loop lines _ _) as [[ls c] d]. cbn in *. now rewrite IH.
Qed.

Lemma uncomment_loop_nothing lines :
  (forall line, line ∈ lines ->
     str_in commented_key line = false /\ str_in commented_value line = false) ->
  uncomment_loop lines false false = (lines, false, false).
Proof.
  induction lines as [|l lines IH]; intros H; [reflexivity |].
  cbn [uncomment_loop].
  destruct (H l ltac:(left)) as [Hk Hv]. rewrite Hk, Hv. cbn [orb andb negb].
  rewrite IH by (intros; apply H; now right).
  unfold uncomment_line. now rewrite Hk, Hv.
Qed.

Lemma comment_out_length lines ci vi :
  length (comment_out lines ci vi) = length lines.
Proof. unfold comment_out. now rewrite !length_alter. Qed.

Lemma comment_out_other lines ci vi k :
  k <> ci -> k <> vi -> comment_out lines ci vi !! k = lines !! k.
Proof.
  intros Hc Hv. unfold comment_out.
  rewrite !list_lookup_alter_ne by congruence. reflexivity.
Qed.

Lemma comment_out_key lines ci vi :
  ci <> vi ->
  comment_out lines ci vi !! ci
  = (fun l => replace l cap_drop_key commented_key) <$> lines !! ci.
Proof.
  intros H. unfold comment_out.
  rewrite list_lookup_alter_ne by congruence. apply list_lookup_alter_eq.
Qed.

Lemma comment_out_value lines ci vi :
  ci <> vi ->
  comment_out lines ci vi !! vi
  = (fun l => replace l cap_drop_value commented_value) <$> lines !! vi.
Proof.
  intros H. unfold comment_out.
  rewrite list_lookup_alter_eq, list_lookup_alter_ne by congruence. reflexivity.
Qed.

(** C4. Round trip.  For the two lines the first pass locates as the active
    hardening directive of the service block (the key line and the value
    line), the first-run transition replaces the live tokens by the commented,
    annotated tokens, and the not-first-run transition applied to its result
    yields the two original lines, character for character. *)
Theorem toggle_round_trip lines ci vi :
  cap_drop_line_index (first_pass lines) = Some ci ->
  cap_drop_value_line_index (first_pass lines) = Some vi ->
  let commented := comment_out lines ci vi in
  let restored := (uncomment_loop commented false false).1.1 in
  (exists key value,
     lines !! ci = Some key /\ lines !! vi = Some value /\
     commented !! ci = Some (replace key cap_drop_key commented_key) /\
     commented !! vi = Some (replace value cap_drop_value commented_value) /\
     str_in commented_key (replace key cap_drop_key commented_key) = true /\
     str_in commented_value (replace value cap_drop_value commented_value) = true) /\
  restored !! ci = lines !! ci /\
  restored !! vi = lines !! vi.
Proof.
  intros Hc Hv commented restored.
  destruct (first_pass_pair _ _ _ Hc Hv) as (Hlt & Hk & Hvk & _ & _).
  destruct (kind_at_key _ _ Hk) as (key & Hkey & Hkin & _).
  destruct (kind_at_value _ _ Hvk) as (value & Hval & Hvin & _ & Hvno).
  assert (Hne : ci <> vi) by lia.
  assert (Hck : commented !! ci = Some (replace key cap_drop_key commented_key))
    by (subst commented; now rewrite comment_out_key, Hkey).
  assert (Hcv : commented !! vi
                = Some (replace value cap_drop_value commented_value))
    by (subst commented; now rewrite comment_out_value, Hval).
  split.
  { exists key, value. repeat split; auto using replace_present. }
  subst restored. rewrite uncomment_loop_lines, !list_lookup_fmap, Hck, Hcv.
  cbn. rewrite Hkey, Hval.
  now rewrite uncomment_key_line, uncomment_value_line.
Qed.

(** * The hardening toggle as a step of the run *)

(** The classification writes nothing and never fails. *)
Lemma detect_post env w :
  post (detect_first_run env) w (fun r w' =>
    (exists b, r = Ok b) /\ fs w' = fs w /\
    exists evs, trace w' = trace w ++ evs /\ no_write evs).
Proof.
  unfold detect_first_run. repeat post_step.
  all: try (split; [eauto |]; split; [reflexivity |];
            eexists; split; [trace_eq | no_write_events]).
  destruct (first_nonempty _); repeat post_step.
  all: try destruct (str_in "found" _); repeat post_step.
  all: split; [eauto |]; split; [reflexivity |];
       eexists; split; [trace_eq | no_write_events].
Qed.

Lemma no_write_app evs1 evs2 : no_write evs1 -> no_write evs2 -> no_write (evs1 ++ evs2).
Proof. intros H1 H2 p c. rewrite not_elem_of_app. auto. Qed.

(** The step, by what the second pass does after the classification. *)
Lemma toggle_post env w content b (P : World -> Prop) :
  fs w !! docker_compose_path = Some content ->
  classified env b ->
  (forall w1 evs, fs w1 = fs w -> trace w1 = trace w ++ evs -> no_write evs ->
     post (second_pass b (readlines content)) w1
          (fun r w' => r = Ok tt /\ P w')) ->
  post (check_and_fix_docker_compose_for_searxng env) w
       (fun r w' => r = Ok tt /\ P w').
Proof.
  intros Hc Hb HQ. unfold check_and_fix_docker_compose_for_searxng.
  repeat post_step. rewrite bool_decide_true by eauto. cbn [orb negb].
  repeat post_step. rewrite Hc. post_step.
  pose proof (detect_post env w) as Hd. unfold post in Hd. unfold post at 1.
  rewrite (Hb w) in *. destruct Hd as (_ & Hfs & evs & Ht & Hnw).
  eapply post_mono; [apply (HQ _ evs Hfs Ht Hnw) |].
  intros r w' [-> HP]. auto.
Qed.

(** A substitution by a longer text lengthens every text in which [old]
    occurs, and one by a shorter text shortens it. *)
Lemma replace_len (old new s : string) :
  old <> "" ->
  (len old <= len new -> len s <= len (replace s old new)) /\
  (len new <= len old -> len (replace s old new) <= len s) /\
  (str_in old s = true -> len old < len new -> len s < len (replace s old new)) /\
  (str_in old s = true -> len new < len old -> len (replace s old new) < len s).
Proof.
  intros Hne.
  induction s as [| r IH | c s Hc IH] using (replace_ind old Hne).
  - rewrite replace_nil by exact Hne.
    repeat split; intros; try lia; destruct old; try congruence; discriminate.
  - rewrite replace_match by exact Hne. rewrite !len_app.
    destruct IH as (H1 & H2 & _ & _).
    repeat split; intros; try specialize (H1 ltac:(lia));
      try specialize (H2 ltac:(lia)); lia.
  - rewrite replace_pass by exact Hc. cbn [len String.length].
    rewrite str_in_cons, Hc. cbn [orb]. fold (len s).
    fold (len (replace s old new)).
    destruct IH as (H1 & H2 & H3 & H4).
    repeat split; intros;
      try specialize (H1 ltac:(lia)); try specialize (H2 ltac:(lia));
      try specialize (H3 ltac:(assumption) ltac:(lia));
      try specialize (H4 ltac:(assumption) ltac:(lia)); lia.
Qed.

Lemma replace_changes (old new s : string) :
  old <> "" -> len old <> len new -> str_in old s = true ->
  replace s old new <> s.
Proof.
  intros Hne Hl Hin E.
  destruct (replace_len old new s Hne) as (_ & _ & H3 & H4).
  destruct (Nat.lt_total (len old) (len new)) as [H | [H | H]]; [| lia |].
  - specialize (H3 Hin H). rewrite E in H3. lia.
  - specialize (H4 Hin H). rewrite E in H4. lia.
Qed.

Lemma uncomment_line_changes line :
  str_in commented_key line || str_in commented_value line = true ->
  uncomment_line line <> line.
Proof.
  unfold uncomment_line. intros H.
  destruct (str_in commented_key line) eqn:Ek.
  - apply replace_changes; [discriminate | discriminate | exact Ek].
  - cbn in H. rewrite H. apply replace_changes; [discriminate | discriminate | exact H].
Qed.

(** The flags of the uncommenting loop are raised by a line that holds a
    commented form, which the loop changes. *)
Lemma uncomment_loop_found lines a b :
  let '(lines', c, d) := uncomment_loop lines a b in
  c || d = true -> a || b = true \/ lines' <> lines.
Proof.
  revert a b; induction lines as [|l lines IH]; intros a b.
  - cbn. auto.
  - cbn [uncomment_loop].
    specialize (IH (a || str_in commented_key l)
                   (b || negb (str_in commented_key l) && str_in commented_value l)).
    destruct (uncomment_loop lines _ _) as [[ls c] d]. intros H.
    destruct (IH H) as [Hab | Hne].
    + destruct (a || b) eqn:Eab; [now left |]. right.
      apply orb_false_iff in Eab as [-> ->]. cbn [orb] in Hab.
      intros E. injection E as E _. revert E. apply uncomment_line_changes.
      destruct (str_in commented_key l); [reflexivity | exact Hab].
    + right. intros E. injection E as _ E. contradiction.
Qed.

Lemma comment_out_changes lines ci vi :
  cap_drop_line_index (first_pass lines) = Some ci ->
  cap_drop_value_line_index (first_pass lines) = Some vi ->
  comment_out lines ci vi <> lines.
Proof.
  intros Hc Hv E.
  destruct (first_pass_pair _ _ _ Hc Hv) as (Hlt & Hk & _).
  destruct (kind_at_key _ _ Hk) as (key & Hkey & Hkin & _).
  assert (H : comment_out lines ci vi !! ci
              = Some (replace key cap_drop_key commented_key))
    by (rewrite comment_out_key, Hkey by lia; reflexivity).
  rewrite E, Hkey in H. injection H as H. symmetry in H. revert H.
  apply replace_changes; [discriminate | discriminate | exact Hkin].
Qed.

(** The second pass either writes nothing, or writes lines that differ from
    the lines read. *)
Lemma second_pass_post b lines w :
  post (second_pass b lines) w (fun r w' =>
    r = Ok tt /\
    ((fs w' = fs w /\ exists evs, trace w' = trace w ++ evs /\ no_write evs) \/
     (exists lines',
        lines' <> lines /\ length lines' = length lines /\
        fs w' = <[docker_compose_path := writelines lines']> (fs w)))).
Proof.
  unfold second_pass.
  destruct b;
    [destruct (cap_drop_line_index (first_pass lines)) as [ci |] eqn:Hc;
     [destruct (cap_drop_value_line_index (first_pass lines)) as [vi |] eqn:Hv |] |].
  - repeat post_step. split; [reflexivity |]. right.
    exists (comment_out lines ci vi).
    split; [now apply comment_out_changes |].
    split; [apply comment_out_length | reflexivity].
  - post_step. split; [reflexivity |]. left. split; [reflexivity |].
    exists []. split; [now rewrite app_nil_r | intros p c; apply not_elem_of_nil].
  - post_step. split; [reflexivity |]. left. split; [reflexivity |].
    exists []. split; [now rewrite app_nil_r | intros p c; apply not_elem_of_nil].
  - pose proof (uncomment_loop_found lines false false) as Hf.
    pose proof (uncomment_loop_lines lines false false) as Hl.
    destruct (uncomment_loop lines false false) as [[ls c] d].
    cbn [fst snd] in Hl.
    destruct (c || d) eqn:E.
    + repeat post_step. split; [reflexivity |]. right. exists ls.
      destruct (Hf eq_refl) as [? | Hne]; [discriminate |].
      split; [exact Hne |]. split; [| reflexivity].
      rewrite Hl. apply length_fmap.
    + post_step. split; [reflexivity |]. left. split; [reflexivity |].
      exists []. split; [now rewrite app_nil_r | intros p q; apply not_elem_of_nil].
Qed.

(** Where the directive is commented the first pass records no key line, and
    hence no value line. *)
Lemma commented_invariant lines k :
  directive_commented lines -> k <= length lines ->
  let st := state_before lines k in
  cap_drop_line_index st = None /\ cap_drop_value_line_index st = None /\
  (in_searxng_section st = true ->
   exists i opener,
     i < k /\ lines !! i = Some opener /\ str_in "searxng:" opener = true /\
     indent_of opener = searxng_section_indent st /\
     forall j line, i < j < k -> lines !! j = Some line ->
       strip line = "" \/ indent_of opener < indent_of line).
Proof.
  intros Hdc. induction k as [| k IH]; intros Hk; cbn zeta.
  - rewrite state_before_0. cbn. repeat split; discriminate.
  - assert (Hlt : k < length lines) by lia.
    destruct (lookup_lt_is_Some_2 _ _ Hlt) as [line Hline].
    destruct (IH ltac:(lia)) as (Hc & Hv & Hblock). clear IH.
    rewrite (state_before_S _ _ _ Hline), Hv.
    set (st := state_before lines k) in *.
    unfold scan_step.
    destruct (str_in "searxng:" line && negb (in_searxng_section st)) eqn:Eo.
    { cbn [fst cap_drop_line_index cap_drop_value_line_index in_searxng_section
           searxng_section_indent].
      apply andb_true_iff in Eo as [Eo _].
      split; [exact Hc |]. split; [exact Hv |]. intros _.
      exists k, line. repeat split; auto. intros j l Hj. lia. }
    destruct (in_searxng_section st) eqn:Ein;
      [| cbn [fst]; rewrite Ein; repeat split; auto; discriminate].
    destruct (Hblock eq_refl) as (i & opener & Hi & Hop & Hs & Hind & Hdeep).
    cbn zeta.
    destruct (negb (String.eqb (strip line) "")
              && (indent_of line <=? searxng_section_indent st)%nat) eqn:Ecl.
    { cbn [fst cap_drop_line_index cap_drop_value_line_index in_searxng_section].
      repeat split; auto; discriminate. }
    assert (Hin : strip line = "" \/ indent_of opener < indent_of line).
    { apply andb_false_iff in Ecl as [E | E].
      - left. apply negb_false_iff in E. now apply String.eqb_eq in E.
      - right. apply Nat.leb_gt in E. lia. }
    assert (Hdeep' : forall j l, i < j < S k -> lines !! j = Some l ->
              strip l = "" \/ indent_of opener < indent_of l).
    { intros j l Hj Hl. destruct (decide (j = k)) as [-> | Hne].
      - rewrite Hline in Hl. injection Hl as <-. exact Hin.
      - apply (Hdeep j); [lia | exact Hl]. }
    destruct (str_in cap_drop_key line && uncommented line) eqn:Ek.
    { exfalso. apply andb_true_iff in Ek as [Ek Eu].
      assert (in_block_of lines i k) as Hb.
      { split; [exact Hi |]. exists opener. repeat split; auto.
        intros j l Hj. apply Hdeep'. lia. }
      rewrite (Hdc i k line Hb Hline Ek) in Eu. discriminate. }
    rewrite Hc.
    rewrite (bool_decide_false (None <> None)) by (intros H; now apply H).
    cbn [andb fst]. fold st. rewrite Ein.
    split; [exact Hc |]. split; [exact Hv |]. intros _.
    exists i, opener. repeat split; auto.
Qed.

Lemma commented_no_key lines :
  directive_commented lines -> cap_drop_line_index (first_pass lines) = None.
Proof.
  intros H. rewrite first_pass_state.
  now destruct (commented_invariant lines (length lines) H (Nat.le_refl _)) as [? _].
Qed.

(** No active key line anywhere: the directive is commented. *)
Lemma no_active_key_commented lines :
  (forall line, line ∈ lines ->
     str_in cap_drop_key line = true -> uncommented line = false) ->
  directive_commented lines.
Proof.
  intros H i k line _ Hk. apply H. now apply list_elem_of_lookup_2 in Hk.
Qed.

(** C7 (amended).  The step changes no line and writes no file when the
    invocation is first-run and the directive is commented in every block
    that a line containing [searxng:] opens (each line of such a block that
    holds [cap_drop:] is a comment line), and when the invocation is
    not-first-run and no line of the whole file holds a commented form.
    Whatever the classification, the step either writes nothing or writes
    lines that differ from the lines it read. *)
Theorem toggle_idempotent env w content :
  fs w !! docker_compose_path = Some content ->
  let lines := readlines content in
  let r := check_and_fix_docker_compose_for_searxng env w in
  (classified env true ->
   directive_commented lines ->
   r.1 = Ok tt /\ fs r.2 = fs w /\
   exists evs, trace r.2 = trace w ++ evs /\ no_write evs) /\
  (classified env false ->
   (forall line, line ∈ lines ->
      str_in commented_key line = false /\
      str_in commented_value line = false) ->
   r.1 = Ok tt /\ fs r.2 = fs w /\
   exists evs, trace r.2 = trace w ++ evs /\ no_write evs) /\
  (forall b, classified env b ->
   r.1 = Ok tt /\
   ((fs r.2 = fs w /\ exists evs, trace r.2 = trace w ++ evs /\ no_write evs) \/
    (exists lines',
       lines' <> lines /\ length lines' = length lines /\
       fs r.2 = <[docker_compose_path := writelines lines']> (fs w)))).
Proof.
  intros Hc lines r. subst r. split; [| split].
  - intros Hb Hdc.
    apply (toggle_post env w content true
             (fun w' => fs w' = fs w /\
                        exists evs, trace w' = trace w ++ evs /\ no_write evs)
             Hc Hb).
    intros w1 evs Hfs Ht Hnw. unfold second_pass. fold lines.
    rewrite (commented_no_key lines Hdc). post_step. eauto.
  - intros Hb Hnone.
    apply (toggle_post env w content false
             (fun w' => fs w' = fs w /\
                        exists evs, trace w' = trace w ++ evs /\ no_write evs)
             Hc Hb).
    intros w1 evs Hfs Ht Hnw. unfold second_pass. fold lines.
    rewrite (uncomment_loop_nothing _ Hnone). cbn [orb].
    post_step. eauto.
  - intros b Hb.
    apply (toggle_post env w content b
             (fun w' =>
                (fs w' = fs w /\
                 exists evs, trace w' = trace w ++ evs /\ no_write evs) \/
                (exists lines',
                   lines' <> lines /\ length lines' = length lines /\
                   fs w' = <[docker_compose_path := writelines lines']> (fs w)))
             Hc Hb).
    intros w1 evs Hfs Ht Hnw.
    eapply post_mono; [apply second_pass_post |].
    intros r w' [-> H]. split; [reflexivity |].
    destruct H as [(Hfs' & evs' & Ht' & Hnw') | (lines' & ? & ? & Hfs')].
    + left. split; [congruence |]. exists (evs ++ evs').
      split; [rewrite Ht', Ht; now rewrite app_assoc | now apply no_write_app].
    + right. exists lines'. fold lines. repeat split; auto. now rewrite Hfs', Hfs.
Qed.

(** ** Text mode

    The text read from a file holds no carriage return, and a text without
    carriage returns that is written is read back as it was, whatever the
    platform.  Bytes without carriage returns are read as they are, and on
    a platform whose line separator is the newline character a text is
    stored as it is. *)

Example ex_text_mode :
  universal_newlines ("a" +:+ String cr NL +:+ "b" +:+ String cr "c" +:+ NL)
  = "a" +:+ NL +:+ "b" +:+ NL +:+ "c" +:+ NL /\
  to_linesep env_ok ("a" +:+ NL +:+ "b") = "a" +:+ NL +:+ "b" /\
  to_linesep (MkEnv "Windows" (proc env_ok) (entropy env_ok) []
                    (copy_error env_ok)) ("a" +:+ NL +:+ "b")
  = "a" +:+ String cr NL +:+ "b".
Proof. repeat split; vm_compute; reflexivity. Qed.

Lemma universal_newlines_plain s :
  has_char cr s = false -> universal_newlines s = s.
Proof.
  induction s as [| c s IH]; [reflexivity |].
  cbn [has_char universal_newlines]. intros H.
  apply orb_false_iff in H as [Hc Hs].
  rewrite Ascii.eqb_sym in Hc. rewrite Hc. now rewrite IH.
Qed.

Lemma to_linesep_plain env s : system env <> "Windows" -> to_linesep env s = s.
Proof.
  intros H. unfold to_linesep, linesep.
  destruct (String.eqb_spec (system env) "Windows"); [contradiction |].
  apply replace_same. discriminate.
Qed.

Lemma universal_newlines_no_cr bytes : has_char cr (universal_newlines bytes) = false.
Proof.
  induction bytes as [| c rest IH]; [reflexivity |].
  cbn [universal_newlines].
  destruct (Ascii.eqb_spec c cr) as [-> | Hc].
  - destruct rest as [| d r]; [reflexivity |].
    destruct (Ascii.eqb d nl); [exact IH |].
    cbn [has_char]. now rewrite IH.
  - cbn [has_char]. rewrite IH, orb_false_r.
    apply Ascii.eqb_neq. congruence.
Qed.

(** Whatever the platform, a text without carriage returns that is written
    in text mode is read back as it was. *)
Lemma text_mode_round_trip env content :
  has_char cr content = false ->
  universal_newlines (to_linesep env content) = content.
Proof.
  unfold to_linesep, linesep. destruct (String.eqb (system env) "Windows").
  - assert (NL <> "") as Hne by discriminate.
    induction content as [| r IH | c s Hc IH] using (replace_ind NL Hne);
      intros H.
    + now rewrite replace_nil.
    + rewrite replace_match by exact Hne.
      change (NL +:+ r) with (String nl r) in H. cbn [has_char] in H.
      apply orb_false_iff in H as [_ H].
      change (String cr NL +:+ replace r NL (String cr NL))
        with (String cr (String nl (replace r NL (String cr NL)))).
      change (NL +:+ r) with (String nl r).
      cbn [universal_newlines]. change (Ascii.eqb cr cr) with true.
      change (Ascii.eqb nl nl) with true. change (Ascii.eqb nl cr) with false.
      cbv iota. now rewrite IH.
    + rewrite replace_pass by exact Hc. cbn [has_char] in H.
      apply orb_false_iff in H as [Hcr H]. cbn [universal_newlines].
      rewrite Ascii.eqb_sym, Hcr. now rewrite IH.
  - intros H. rewrite replace_same by discriminate.
    now apply universal_newlines_plain.
Qed.

Lemma readlines_cons c s :
  readlines (String c s) =
  if Ascii.eqb c nl then String c "" :: readlines s
  else match readlines s with
       | h :: t => String c h :: t
       | [] => [String c ""]
       end.
Proof. reflexivity. Qed.

Lemma writelines_cons l ls : writelines (l :: ls) = l +:+ writelines ls.
Proof. reflexivity. Qed.

Lemma has_char_app c s t : has_char c (s +:+ t) = has_char c s || has_char c t.
Proof.
  induction s as [| d s IH]; [reflexivity |]. cbn [String.append has_char].
  now rewrite IH, orb_assoc.
Qed.

Lemma has_char_replace c old new s :
  old <> "" -> has_char c new = false -> has_char c s = false ->
  has_char c (replace s old new) = false.
Proof.
  intros Hne Hnew.
  induction s as [| r IH | d s Hd IH] using (replace_ind old Hne); intros Hs.
  - now rewrite replace_nil.
  - rewrite replace_match by exact Hne. rewrite has_char_app in *.
    apply orb_false_iff in Hs as [_ Hr]. now rewrite Hnew, IH.
  - rewrite replace_pass by exact Hd. cbn [has_char] in *.
    apply orb_false_iff in Hs as [-> Hs]. now rewrite IH.
Qed.

Lemma has_char_writelines c ls :
  Forall (fun l => has_char c l = false) ls -> has_char c (writelines ls) = false.
Proof.
  induction 1 as [| l ls Hl _ IH]; [reflexivity |].
  now rewrite writelines_cons, has_char_app, Hl, IH.
Qed.

Lemma has_char_readlines c s :
  has_char c s = false -> Forall (fun l => has_char c l = false) (readlines s).
Proof.
  induction s as [| d s IH]; intros H; [constructor |].
  cbn [has_char] in H. apply orb_false_iff in H as [Hd Hs].
  specialize (IH Hs). rewrite readlines_cons.
  destruct (Ascii.eqb d nl).
  - constructor; [| exact IH]. cbn [has_char]. now rewrite Hd.
  - inversion IH as [| h t Hh Ht]; subst.
    + constructor; [| constructor]. cbn [has_char]. now rewrite Hd.
    + constructor; [| exact Ht]. cbn [has_char]. now rewrite Hd, Hh.
Qed.

(** The first-run transition brings no carriage return into the file. *)
Lemma comment_out_plain content ci vi :
  has_char cr content = false ->
  has_char cr (writelines (comment_out (readlines content) ci vi)) = false.
Proof.
  intros H. apply has_char_writelines. unfold comment_out.
  apply Forall_alter;
    [| intros l _ Hl; apply has_char_replace; [discriminate | reflexivity | exact Hl]].
  apply Forall_alter;
    [| intros l _ Hl; apply has_char_replace; [discriminate | reflexivity | exact Hl]].
  now apply has_char_readlines.
Qed.

Lemma uncomment_line_plain line :
  has_char cr line = false -> has_char cr (uncomment_line line) = false.
Proof.
  intros H. unfold uncomment_line.
  destruct (str_in commented_key line);
    [| destruct (str_in commented_value line)];
    try exact H; apply has_char_replace; (discriminate || reflexivity || exact H).
Qed.

(** The transition back brings no carriage return into the file. *)
Lemma uncomment_plain content :
  has_char cr content = false ->
  has_char cr (writelines (uncomment_line <$> readlines content)) = false.
Proof.
  intros H. apply has_char_writelines, Forall_fmap.
  eapply Forall_impl; [apply has_char_readlines, H |].
  intros l Hl. now apply uncomment_line_plain.
Qed.

(** C10 (amended).  [bytes] are the bytes of the compose file and [content]
    is the text that reading them in text mode delivers.  In the first-run
    transition exactly the lines at the two indices of the first pass are
    rewritten and every other line is written back with the text it was
    read with; whatever the platform, the file then reads as the text
    written.  When the bytes hold no carriage return and the platform is
    not Windows, the text read is the bytes of the file and the bytes
    stored are the text written, so that every other line is written back
    byte for byte; otherwise the lines keep their text and are stored with
    the line separator of the platform.  The value line is the first line
    the pass takes for a value line (inside the block, uncommented, holding
    [- ALL] and no key, after a key line); the key line is the last line
    before it that the pass takes for a key line (inside the block,
    uncommented, holding [cap_drop:]), which need not be the first such
    line of the block. *)
Theorem first_run_frame env w bytes ci vi :
  let content := universal_newlines bytes in
  fs w !! docker_compose_path = Some content ->
  classified env true ->
  let lines := readlines content in
  cap_drop_line_index (first_pass lines) = Some ci ->
  cap_drop_value_line_index (first_pass lines) = Some vi ->
  let r := check_and_fix_docker_compose_for_searxng env w in
  let written := comment_out lines ci vi in
  r.1 = Ok tt /\
  fs r.2 = <[docker_compose_path := writelines written]> (fs w) /\
  length written = length lines /\
  (forall k, k <> ci -> k <> vi -> written !! k = lines !! k) /\
  universal_newlines (to_linesep env (writelines written))
  = writelines written /\
  (has_char cr bytes = false -> system env <> "Windows" ->
   content = bytes /\
   to_linesep env (writelines written) = writelines written) /\
  ci < vi /\
  kind_at lines ci = Some Key /\ kind_at lines vi = Some Value /\
  (forall j, ci < j < vi -> kind_at lines j <> Some Key) /\
  (forall j, j < vi -> kind_at lines j <> Some Value).
Proof.
  intros content Hc Hb lines Hci Hvi r written.
  assert (G : r.1 = Ok tt /\
              fs r.2 = <[docker_compose_path := writelines written]> (fs w)).
  { subst r.
    apply (toggle_post env w content true
             (fun w' => fs w' = <[docker_compose_path := writelines written]> (fs w))
             Hc Hb).
    intros w1 evs Hfs Ht Hnw. unfold second_pass. fold lines.
    rewrite Hci, Hvi. repeat post_step. split; [reflexivity |].
    now rewrite Hfs. }
  destruct G as [G1 G2]. split; [exact G1 |]. split; [exact G2 |].
  split; [apply comment_out_length |].
  split; [intros; now apply comment_out_other |].
  split; [apply text_mode_round_trip, comment_out_plain,
            universal_newlines_no_cr |].
  split; [| now apply first_pass_pair].
  intros Hcr Hsys.
  split; [now apply universal_newlines_plain | now apply to_linesep_plain].
Qed.

(** ** Concrete runs of the toggle *)

Lemma env_ok_first_run : classified env_ok true.
Proof.
  intros w. apply (detect_no_container env_ok w ""); vm_compute; reflexivity.
Qed.

Lemma env_marker_present_not_first_run : classified env_marker_present false.
Proof.
  intros w.
  apply (detect_marker_present env_marker_present w ("searxng" +:+ NL) "searxng" 0);
    vm_compute; reflexivity.
Qed.

Lemma toggle_round_trip_witness :
  (uncomment_loop (comment_out (readlines compose_searxng) 3 4) false false).1.1
    !! 3
  = readlines compose_searxng !! 3.
Proof.
  assert (H1 : cap_drop_line_index (first_pass (readlines compose_searxng))
               = Some 3) by (vm_compute; reflexivity).
  assert (H2 : cap_drop_value_line_index (first_pass (readlines compose_searxng))
               = Some 4) by (vm_compute; reflexivity).
  destruct (toggle_round_trip _ _ _ H1 H2) as (_ & H & _). exact H.
Defined.

Lemma toggle_idempotent_witness :
  fs (check_and_fix_docker_compose_for_searxng
        env_ok (w_compose compose_searxng_commented)).2
  = fs (w_compose compose_searxng_commented).
Proof.
  assert (H : fs (w_compose compose_searxng_commented) !! docker_compose_path
              = Some compose_searxng_commented) by (vm_compute; reflexivity).
  destruct (toggle_idempotent env_ok _ _ H) as (H1 & _ & _).
  apply H1; [exact env_ok_first_run |].
  apply no_active_key_commented. intros line Hin Hk.
  assert (F : forallb (fun l => negb (str_in cap_drop_key l)
                                || negb (uncommented l))
                      (readlines compose_searxng_commented) = true)
    by (vm_compute; reflexivity).
  rewrite forallb_forall in F. apply list_elem_of_In in Hin.
  specialize (F line Hin). rewrite Hk in F. now apply negb_true_iff in F.
Defined.

(** C7 as stated fails in both states.  The directive of the service block
    is active, the invocation is not-first-run, and the file is written all
    the same, because a line of another block holds a commented key.  And
    the directive of the service block is commented (lines 2 and 3), the
    invocation is first-run, and the file is written all the same: the
    block closes at line 4, line 6 contains [searxng:] and opens a block
    again, and the active directive of that block is commented out. *)
Lemma toggle_writes_though_active :
  cap_drop_line_index (first_pass (readlines compose_mixed)) = Some 2 /\
  cap_drop_value_line_index (first_pass (readlines compose_mixed)) = Some 3 /\
  classified env_marker_present false /\
  EvWrite docker_compose_path
          (text ["services:"; "  searxng:"; "    cap_drop:"; "      - ALL";
                 "  other:"; "    cap_drop:"])
    ∈ trace (check_and_fix_docker_compose_for_searxng
               env_marker_present (w_compose compose_mixed)).2 /\
  fs (check_and_fix_docker_compose_for_searxng
        env_marker_present (w_compose compose_mixed)).2 !! docker_compose_path
    <> Some compose_mixed /\
  classified env_ok true /\
  readlines compose_second_block !! 2
    = Some ("    " +:+ commented_key +:+ NL) /\
  readlines compose_second_block !! 3
    = Some ("      " +:+ commented_value +:+ NL) /\
  kind_at (readlines compose_second_block) 1 = Some Opens /\
  kind_at (readlines compose_second_block) 4 = Some Closes /\
  kind_at (readlines compose_second_block) 6 = Some Opens /\
  EvWrite docker_compose_path
          (text ["services:";
                 "  searxng:";
                 "    # cap_drop: # Temporarily commented out for first run";
                 "      # - ALL # Temporarily commented out for first run";
                 "  caddy:";
                 "    image: caddy";
                 "  old-searxng:";
                 "    # cap_drop: # Temporarily commented out for first run";
                 "      # - ALL # Temporarily commented out for first run"])
    ∈ trace (check_and_fix_docker_compose_for_searxng
               env_ok (w_compose compose_second_block)).2 /\
  fs (check_and_fix_docker_compose_for_searxng
        env_ok (w_compose compose_second_block)).2 !! docker_compose_path
    <> Some compose_second_block.
Proof.
  split; [vm_compute; reflexivity |]. split; [vm_compute; reflexivity |].
  split; [exact env_marker_present_not_first_run |].
  split; [vm_compute; has_event |]. split; [vm_compute; discriminate |].
  split; [exact env_ok_first_run |].
  do 5 (split; [vm_compute; reflexivity |]).
  split; [vm_compute; has_event | vm_compute; discriminate].
Qed.

Lemma first_run_frame_witness :
  fs (check_and_fix_docker_compose_for_searxng
        env_ok (w_compose compose_searxng)).2
  = <[docker_compose_path :=
        writelines (comment_out
                      (readlines (universal_newlines compose_searxng)) 3 4)]>
      (fs (w_compose compose_searxng)) /\
  universal_newlines compose_searxng = compose_searxng /\
  to_linesep env_ok
    (writelines (comment_out
                   (readlines (universal_newlines compose_searxng)) 3 4))
  = writelines (comment_out
                  (readlines (universal_newlines compose_searxng)) 3 4).
Proof.
  destruct (first_run_frame env_ok (w_compose compose_searxng)
              compose_searxng 3 4) as (_ & G & _ & _ & _ & T & _).
  - vm_compute. reflexivity.
  - exact env_ok_first_run.
  - vm_compute. reflexivity.
  - vm_compute. reflexivity.
  - split; [exact G |]. apply T; [vm_compute; reflexivity | discriminate].
Defined.

(** C10 as stated fails: line 1 is the first uncommented line of the block
    that holds [cap_drop:], and it is written back as it was; the lines
    rewritten are lines 2 and 3. *)
Lemma first_run_skips_first_key :
  classified env_ok true /\
  readlines compose_two_keys !! 1 = Some ("    cap_drop:" +:+ NL) /\
  kind_at (readlines compose_two_keys) 0 = Some Opens /\
  kind_at (readlines compose_two_keys) 1 = Some Key /\
  fs (check_and_fix_docker_compose_for_searxng
        env_ok (w_compose compose_two_keys)).2 !! docker_compose_path
  = Some (text ["  searxng:";
                "    cap_drop:";
                "    # cap_drop: # Temporarily commented out for first run";
                "      # - ALL # Temporarily commented out for first run"]).
Proof.
  split; [exact env_ok_first_run |].
  repeat split; vm_compute; reflexivity.
Qed.

(** Bytes with the terminator [\r\n] are read as the text with [\n], and on
    a platform whose line separator is the newline character the first-run
    transition stores line 0, which it does not rewrite, with another
    terminator than it had. *)
Example ex_crlf_rewritten :
  universal_newlines compose_searxng_crlf = compose_searxng /\
  readlines compose_searxng_crlf !! 0 = Some ("services:" +:+ String cr NL) /\
  exists stored,
    fs (check_and_fix_docker_compose_for_searxng env_ok
          (w_compose (universal_newlines compose_searxng_crlf))).2
      !! docker_compose_path = Some stored /\
    readlines (to_linesep env_ok stored) !! 0 = Some ("services:" +:+ NL).
Proof.
  split; [vm_compute; reflexivity |]. split; [vm_compute; reflexivity |].
  eexists. split; vm_compute; reflexivity.
Qed.

(** * What the steps are confined to *)

Lemma keeps_post {A} R (m : M A) w : keeps R m -> post m w (fun _ w' => R w w').
Proof. intros H. apply H. Qed.

Section Keeps.

Context (R : World -> World -> Prop) `{!PreOrder R}.
Context {A B : Type}.

Lemma keeps_bind (m : M A) (f : A -> M B) :
  keeps R m -> (forall a, keeps R (f a)) -> keeps R (m ≫= f).
Proof.
  intros Hm Hf w. change (post (m ≫= f) w (fun _ w' => R w w')).
  apply post_bind. eapply post_mono; [exact (keeps_post R m w Hm) |].
  intros [a | e] w1 H1; [| exact H1].
  eapply post_mono; [exact (keeps_post R (f a) w1 (Hf a)) |].
  intros ? w2 H2. now transitivity w1.
Qed.

Lemma keeps_try (body : M A) (h : Exc -> M A) :
  keeps R body -> (forall e, keeps R (h e)) -> keeps R (try_except body h).
Proof.
  intros Hm Hh w. change (post (try_except body h) w (fun _ w' => R w w')).
  apply post_try. eapply post_mono; [exact (keeps_post R body w Hm) |].
  intros [a | e] w1 H1; [exact H1 |].
  eapply post_mono; [exact (keeps_post R (h e) w1 (Hh e)) |].
  intros ? w2 H2. now transitivity w1.
Qed.

Lemma keeps_ret (a : A) : keeps R (mret a).
Proof. intros w. change (post (mret a) w (fun _ w' => R w w')). now post_step. Qed.

Lemma keeps_raise (e : Exc) : keeps R (raise e : M A).
Proof. intros w. change (post (raise e : M A) w (fun _ w' => R w w')). now post_step. Qed.

End Keeps.

Lemma keeps_path_exists R `{!Reflexive R} p : keeps R (path_exists p).
Proof. intros w. change (post (path_exists p) w (fun _ w' => R w w')). now post_step. Qed.

Lemma keeps_read_file R `{!Reflexive R} p : keeps R (read_file p).
Proof.
  intros w. change (post (read_file p) w (fun _ w' => R w w')).
  post_step. now destruct (fs w !! p).
Qed.

Lemma keeps_get_world R `{!Reflexive R} : keeps R get_world.
Proof. intros w. change (post get_world w (fun _ w' => R w w')). now post_step. Qed.

(** ** Events *)

Lemma emitted_refl P w : emitted P w w.
Proof. exists []. now rewrite app_nil_r. Qed.

Lemma emitted_trans P w1 w2 w3 : emitted P w1 w2 -> emitted P w2 w3 -> emitted P w1 w3.
Proof.
  intros (e1 & H1 & F1) (e2 & H2 & F2). exists (e1 ++ e2). split.
  - now rewrite H2, H1, app_assoc.
  - now rewrite forallb_app, F1, F2.
Qed.

#[global] Instance emitted_preorder P : PreOrder (emitted P).
Proof. split; [intros w; apply emitted_refl | intros w1 w2 w3; apply emitted_trans]. Qed.

Lemma emitted_log P w ev : P ev = true -> emitted P w (log w ev).
Proof. intros H. exists [ev]. split; [reflexivity |]. cbn. now rewrite H. Qed.

Lemma emitted_same P w w' : trace w' = trace w -> emitted P w w'.
Proof. intros H. exists []. now rewrite app_nil_r. Qed.

Lemma emitted_weaken (P Q : Event -> bool) w w' :
  (forall ev, P ev = true -> Q ev = true) -> emitted P w w' -> emitted Q w w'.
Proof.
  intros HPQ (evs & H & F). exists evs. split; [exact H |].
  rewrite forallb_forall in *. auto.
Qed.

Lemma emitted_elem P w w' :
  emitted P w w' ->
  exists evs, trace w' = trace w ++ evs /\ forall ev, ev ∈ evs -> P ev = true.
Proof.
  intros (evs & H & F). exists evs. split; [exact H |].
  intros ev Hin. rewrite forallb_forall in F. apply F.
  now apply list_elem_of_In.
Qed.

(** ** Confinement *)

Section Confined.

Context (cmds : list string -> bool) (copies writes files : string -> bool).

Lemma confined_refl w : confined cmds copies writes files w w.
Proof. split; [apply emitted_refl | auto]. Qed.

Lemma confined_trans w1 w2 w3 :
  confined cmds copies writes files w1 w2 ->
  confined cmds copies writes files w2 w3 ->
  confined cmds copies writes files w1 w3.
Proof.
  intros (E1 & D1 & C1 & F1) (E2 & D2 & C2 & F2).
  split; [eapply emitted_trans; eauto |].
  split; [congruence |]. split; [congruence |].
  intros p Hp. now rewrite F2, F1.
Qed.

#[global] Instance confined_preorder : PreOrder (confined cmds copies writes files).
Proof.
  split; [intros w; apply confined_refl | intros w1 w2 w3; apply confined_trans].
Qed.

Lemma confined_log w ev :
  permitted cmds copies writes ev = true ->
  confined cmds copies writes files w (log w ev).
Proof. intros H. split; [now apply emitted_log | auto]. Qed.

Lemma confined_set w p c ev :
  files p = true -> permitted cmds copies writes ev = true ->
  confined cmds copies writes files w
    (log (MkWorld (<[p := c]> (fs w)) (dirs w) (cwd w) (trace w)) ev).
Proof.
  intros Hp Hev. split; [exists [ev]; cbn; now rewrite Hev |].
  split; [reflexivity |]. split; [reflexivity |].
  intros q Hq. cbn. apply lookup_insert_ne. congruence.
Qed.

Lemma confined_set_quiet w p c :
  files p = true ->
  confined cmds copies writes files w
    (MkWorld (<[p := c]> (fs w)) (dirs w) (cwd w) (trace w)).
Proof.
  intros Hp. split; [now apply emitted_same |].
  split; [reflexivity |]. split; [reflexivity |].
  intros q Hq. cbn. apply lookup_insert_ne. congruence.
Qed.

End Confined.

(** One step of a confinement proof: the structure of the computation, then
    its primitives. *)
Ltac keeps_prim :=
  let w := fresh "w" in
  intros w;
  lazymatch goal with
  | |- ?R w (?m w).2 => change (post m w (fun _ w' => R w w'))
  end;
  post_step.

Ltac keeps_step :=
  lazymatch goal with
  | |- keeps _ (mbind _ _) => apply keeps_bind; [.. | intros ?]
  | |- keeps _ (try_except _ _) => apply keeps_try; [.. | intros ?]
  | |- keeps _ (mret _) => apply keeps_ret
  | |- keeps _ (raise _) => apply keeps_raise
  | |- keeps _ (path_exists _) => apply keeps_path_exists; typeclasses eauto
  | |- keeps _ (read_file _) => apply keeps_read_file; typeclasses eauto
  | |- keeps _ get_world => apply keeps_get_world; typeclasses eauto
  | |- keeps _ (if ?b then _ else _) => destruct b
  | |- keeps _ (match ?x with _ => _ end) => destruct x
  end; try typeclasses eauto.

(** ** The three patching steps *)

Ltac confined_prim :=
  keeps_prim;
  first [ apply confined_refl
        | apply confined_log; reflexivity
        | apply confined_set; reflexivity
        | apply confined_set_quiet; reflexivity ].

Lemma keeps_substitute cmds copies writes files path old new :
  files path = true ->
  keeps (confined cmds copies writes files) (substitute_in_file path old new).
Proof.
  intros Hp w.
  change (post (substitute_in_file path old new) w
            (fun _ w' => confined cmds copies writes files w w')).
  apply post_substitute_in_file.
  destruct (fs w !! path); [now apply confined_set_quiet | apply confined_refl].
Qed.

Lemma keeps_copyfile cmds copies writes files env src dst :
  files dst = true -> copies dst = true ->
  keeps (confined cmds copies writes files) (copyfile env src dst).
Proof.
  intros Hp Hc w.
  change (post (copyfile env src dst) w
            (fun _ w' => confined cmds copies writes files w w')).
  post_step. destruct (fs w !! src); [| apply confined_refl].
  destruct (copy_error env src dst); [apply confined_refl |].
  now apply confined_set.
Qed.

Lemma provisioning_confined env :
  keeps (confined provisioning_tool (String.eqb settings_path) no_path
                 (String.eqb settings_path))
        (generate_searxng_secret_key env).
Proof.
  unfold generate_searxng_secret_key, try_generate_key,
    generate_key_for_platform, remediation, check_output_openssl.
  repeat first [keeps_step | apply keeps_substitute; reflexivity
               | apply keeps_copyfile; reflexivity | confined_prim].
Qed.

Lemma toggle_confined env :
  keeps (confined docker_query no_path (String.eqb docker_compose_path)
                 (String.eqb docker_compose_path))
        (check_and_fix_docker_compose_for_searxng env).
Proof.
  unfold check_and_fix_docker_compose_for_searxng, detect_first_run, second_pass.
  repeat first [keeps_step | confined_prim].
Qed.

Lemma healthcheck_confined :
  keeps (confined no_command no_path (String.eqb supabase_compose_path)
                 (String.eqb supabase_compose_path))
        fix_supabase_realtime_healthcheck.
Proof.
  unfold fix_supabase_realtime_healthcheck.
  repeat first [keeps_step | confined_prim].
Qed.

(** ** Exact rules for commands and directory changes *)

Lemma post_run_command_exact env cmd w (Q : Result unit -> World -> Prop) :
  (let w' := log (log w (EvPrint ("Running: " +:+ join " " cmd)))
                 (EvExec cmd (cwd w)) in
   match proc env cmd with
   | LaunchError e => Q (Raise e) w'
   | Exited rc _ =>
       if (rc =? 0)%Z then Q (Ok tt) w' else Q (Raise (CalledProcessError cmd rc)) w'
   end) ->
  post (run_command env cmd) w Q.
Proof.
  intros H. with_strategy transparent [run_command] unfold run_command.
  cbn zeta in H. do 3 post_step.
  apply post_subprocess_run; cbn [cwd log].
  - intros e He. now rewrite He in H.
  - intros rc out He _ Hrc. rewrite He in H.
    now destruct (Z.eqb_spec rc 0).
  - intros rc out He [? | ->]; [discriminate |]. rewrite He in H.
    post_step. exact H.
Qed.

Lemma post_chdir_exact d w (Q : Result unit -> World -> Prop) :
  (if String.eqb d ".."
   then Q (Ok tt) (MkWorld (fs w) (dirs w) (tail (cwd w)) (trace w))
   else
     let target := join "/" (rev (d :: cwd w)) in
     if bool_decide (target ∈ dirs w)
     then Q (Ok tt) (MkWorld (fs w) (dirs w) (d :: cwd w) (trace w))
     else if bool_decide (is_Some (fs w !! target))
          then Q (Raise (NotADirectoryError d)) w
          else Q (Raise (FileNotFoundError d)) w) ->
  post (chdir d) w Q.
Proof.
  intros H. unfold chdir. do 2 post_step.
  destruct (String.eqb d ".."); [post_step; exact H |].
  cbn zeta in H.
  destruct (bool_decide _); [post_step; exact H |].
  destruct (bool_decide _); post_step; exact H.
Qed.

(** * The repository sync *)

Ltac chdir_step :=
  apply post_chdir_exact;
  lazy beta iota zeta delta [String.eqb Ascii.eqb Bool.eqb];
  cbn [negb fs dirs cwd log tail].

Ltac sync_step := first [post_step | chdir_step].

(** X1. When the repository sync returns normally, the working directory is
    the one it started in, and the commands it ran are: [git pull] inside
    [supabase] when that path existed; otherwise [git clone] in the starting
    directory followed by the two [sparse-checkout] commands and
    [git checkout master] inside [supabase]. *)
Theorem sync_runs_git env w :
  (clone_supabase_repo env w).1 = Ok tt ->
  let w' := (clone_supabase_repo env w).2 in
  let inside := "supabase" :: cwd w in
  cwd w' = cwd w /\
  exists evs, trace w' = trace w ++ evs /\
    execs evs =
      if bool_decide (is_Some (fs w !! "supabase")) || bool_decide ("supabase" ∈ dirs w)
      then [(["git"; "pull"], inside)]
      else [(["git"; "clone"; "--filter=blob:none"; "--no-checkout";
              "https://github.com/supabase/supabase.git"], cwd w);
            (["git"; "sparse-checkout"; "init"; "--cone"], inside);
            (["git"; "sparse-checkout"; "set"; "docker"], inside);
            (["git"; "checkout"; "master"], inside)].
Proof.
  cbn zeta.
  change (post (clone_supabase_repo env) w (fun r w' =>
    r = Ok tt ->
    cwd w' = cwd w /\
    exists evs, trace w' = trace w ++ evs /\
      execs evs =
        if bool_decide (is_Some (fs w !! "supabase")) || bool_decide ("supabase" ∈ dirs w)
        then [(["git"; "pull"], "supabase" :: cwd w)]
        else [(["git"; "clone"; "--filter=blob:none"; "--no-checkout";
                "https://github.com/supabase/supabase.git"], cwd w);
              (["git"; "sparse-checkout"; "init"; "--cone"], "supabase" :: cwd w);
              (["git"; "sparse-checkout"; "set"; "docker"], "supabase" :: cwd w);
              (["git"; "checkout"; "master"], "supabase" :: cwd w)])).
  unfold clone_supabase_repo, git_clone_effect, git_sync_effect.
  do 2 post_step.
  destruct (_ || _); cbn [negb].
  all: repeat first [sync_step
                    | match goal with |- context [bool_decide ?P] => destruct (bool_decide P) end].
  all: try discriminate.
  all: intros _; split; [reflexivity |]; eexists; split; [trace_eq | reflexivity].
Qed.

Lemma sync_runs_git_witness :
  cwd (clone_supabase_repo env_ok w_fresh).2 = cwd w_fresh.
Proof.
  apply (sync_runs_git env_ok w_fresh). vm_compute. reflexivity.
Defined.

Lemma cons_ne_self {A} (x : A) l : x :: l <> l.
Proof. intros H. apply (f_equal length) in H. cbn in H. lia. Qed.

(** X2. When the repository sync raises, the working directory is not
    restored: if a git command had been run inside [supabase], the run is
    left inside [supabase]; if none had, it is left where it started. *)
Theorem sync_failure_stays_inside env w e :
  (clone_supabase_repo env w).1 = Raise e ->
  let w' := (clone_supabase_repo env w).2 in
  let inside := "supabase" :: cwd w in
  exists evs, trace w' = trace w ++ evs /\
    ((exists argv, (argv, inside) ∈ execs evs) -> cwd w' = inside) /\
    ((forall argv, (argv, inside) ∉ execs evs) -> cwd w' = cwd w).
Proof.
  cbn zeta. revert e.
  change (post (clone_supabase_repo env) w (fun r w' =>
    forall e, r = Raise e ->
    exists evs, trace w' = trace w ++ evs /\
      ((exists argv, (argv, "supabase" :: cwd w) ∈ execs evs) ->
       cwd w' = "supabase" :: cwd w) /\
      ((forall argv, (argv, "supabase" :: cwd w) ∉ execs evs) -> cwd w' = cwd w))).
  unfold clone_supabase_repo, git_clone_effect, git_sync_effect.
  do 2 post_step.
  destruct (_ || _); cbn [negb].
  all: repeat first [sync_step
                    | match goal with |- context [bool_decide ?P] => destruct (bool_decide P) end].
  all: intros e' He'; try discriminate He'.
  all: eexists; (split; [trace_eq |]); cbn [execs omap app]; split;
    [intros [argv H] | intros H]; try reflexivity.
  all: exfalso; cbn in H.
  all: first [ solve [eapply H; in_events]
             | repeat (apply elem_of_cons in H as [H | H];
                       [injection H as _ H; now apply cons_ne_self in H |]);
               now apply elem_of_nil in H ].
Qed.

Lemma sync_failure_stays_inside_witness :
  cwd (clone_supabase_repo env_pull_fails w_cloned).2 = ["supabase"].
Proof.
  destruct (sync_failure_stays_inside env_pull_fails w_cloned
              (CalledProcessError ["git"; "pull"] 1))
    as (evs & Ht & Hin & _); [vm_compute; reflexivity |].
  apply Hin. exists ["git"; "pull"].
  vm_compute in Ht. apply (app_inv_head []) in Ht. subst evs.
  vm_compute. in_events.
Defined.

(** X3. When [supabase] exists but is a regular file, the sync takes the
    update branch, prints its message and fails with [NotADirectoryError] on
    entering the path: no git command is run and nothing is changed. *)
Theorem sync_over_regular_file env w content :
  fs w !! "supabase" = Some content ->
  "supabase" ∉ dirs w ->
  cwd w = [] ->
  clone_supabase_repo env w =
  (Raise (NotADirectoryError "supabase"),
   log w (EvPrint "Supabase repository already exists, updating...")).
Proof.
  intros Hf Hd Hc.
  rewrite (run_result (clone_supabase_repo env) w).
  change (post (clone_supabase_repo env) w (fun r w' =>
    (r, w') = (Raise (NotADirectoryError "supabase"),
               log w (EvPrint "Supabase repository already exists, updating...")))).
  unfold clone_supabase_repo. do 2 post_step. rewrite Hf.
  rewrite bool_decide_true by eauto. cbn [orb negb].
  do 3 post_step. chdir_step. rewrite Hc.
  change (join "/" (rev ["supabase"])) with "supabase".
  rewrite bool_decide_false by exact Hd.
  rewrite Hf, bool_decide_true by eauto. reflexivity.
Qed.

Lemma sync_over_regular_file_witness :
  (clone_supabase_repo env_ok w_blocked).1 = Raise (NotADirectoryError "supabase").
Proof.
  rewrite (sync_over_regular_file env_ok w_blocked "not a directory");
    [reflexivity | vm_compute; reflexivity | | reflexivity].
  vm_compute. discriminate.
Defined.

(** X4. When the repository sync and the environment propagation both
    return normally, the root [.env] existed, [supabase/docker/.env] holds
    its content (whatever the sync had placed there), and the root file is
    unchanged. *)
Theorem environment_file_propagated env w :
  let r := (clone_supabase_repo env;; prepare_supabase_env env) w in
  r.1 = Ok tt ->
  exists content,
    fs w !! ".env" = Some content /\
    fs r.2 !! "supabase/docker/.env" = Some content /\
    fs r.2 !! ".env" = Some content.
Proof.
  cbn zeta.
  change (post (clone_supabase_repo env;; prepare_supabase_env env) w
            (fun r w' => r = Ok tt ->
               exists content, fs w !! ".env" = Some content /\
                 fs w' !! "supabase/docker/.env" = Some content /\
                 fs w' !! ".env" = Some content)).
  apply post_bind. eapply post_mono; [exact (clone_keeps_outside env w ".env" eq_refl) |].
  intros [[] | e] w1 H1; [| discriminate].
  unfold prepare_supabase_env. cbn zeta. repeat post_step. rewrite H1.
  destruct (fs w !! ".env") as [content |]; [| discriminate].
  destruct (copy_error env ".env" "supabase/docker/.env"); [discriminate |].
  intros _. exists content. split; [reflexivity |]. cbn [fs log]. split.
  - apply lookup_insert_eq.
  - rewrite lookup_insert_ne by discriminate. exact H1.
Qed.

Lemma environment_file_propagated_witness :
  exists content,
    fs w_fresh !! ".env" = Some content /\
    fs ((clone_supabase_repo env_ok;; prepare_supabase_env env_ok) w_fresh).2
      !! "supabase/docker/.env" = Some content /\
    fs ((clone_supabase_repo env_ok;; prepare_supabase_env env_ok) w_fresh).2
      !! ".env" = Some content.
Proof.
  apply (environment_file_propagated env_ok w_fresh). vm_compute. reflexivity.
Defined.

(** * The patching steps never abort the run *)

Lemma post_any {A} (m : M A) w : post m w (fun _ _ => True).
Proof. exact I. Qed.

Lemma post_conj {A} (m : M A) w (Q1 Q2 : Result A -> World -> Prop) :
  post m w Q1 -> post m w Q2 -> post m w (fun r w' => Q1 r w' /\ Q2 r w').
Proof. unfold post. auto. Qed.

Lemma try_print_total (body : M unit) (msg : Exc -> string) w :
  (try_except body (fun e => print (msg e)) w).1 = Ok tt.
Proof.
  change (post (try_except body (fun e => print (msg e))) w (fun r _ => r = Ok tt)).
  apply post_try. eapply post_mono; [apply post_any |].
  intros [[] | e] w1 _; [reflexivity | now post_step].
Qed.

Lemma toggle_total env w :
  (check_and_fix_docker_compose_for_searxng env w).1 = Ok tt.
Proof.
  change (post (check_and_fix_docker_compose_for_searxng env) w
            (fun r _ => r = Ok tt)).
  unfold check_and_fix_docker_compose_for_searxng. do 2 post_step.
  destruct (negb _); [now post_step | apply try_print_total].
Qed.

Lemma healthcheck_total w : (fix_supabase_realtime_healthcheck w).1 = Ok tt.
Proof.
  change (post fix_supabase_realtime_healthcheck w (fun r _ => r = Ok tt)).
  unfold fix_supabase_realtime_healthcheck. do 4 post_step.
  destruct (negb _); [now post_step | apply try_print_total].
Qed.

Lemma confined_elim cmds copies writes path w w' :
  confined cmds copies writes (String.eqb path) w w' ->
  dirs w' = dirs w /\ cwd w' = cwd w /\
  (forall p, p <> path -> fs w' !! p = fs w !! p) /\
  exists evs, trace w' = trace w ++ evs /\
    (forall argv c, EvExec argv c ∈ evs -> cmds argv = true) /\
    (forall src dst, EvCopy src dst ∈ evs -> copies dst = true) /\
    (forall p c, EvWrite p c ∈ evs -> writes p = true).
Proof.
  intros (E & D & C & F). split; [exact D |]. split; [exact C |]. split.
  - intros p Hp. apply F. apply String.eqb_neq. congruence.
  - apply emitted_elem in E as (evs & Ht & Hev). exists evs.
    split; [exact Ht |]. repeat split.
    + intros argv c Hin. exact (Hev _ Hin).
    + intros src dst Hin. exact (Hev _ Hin).
    + intros p c Hin. exact (Hev _ Hin).
Qed.

(** X5. The secret provisioning always returns normally.  It keeps the
    directories, the working directory and every file other than the
    settings file; the only commands it runs are [powershell], [openssl] and
    [sed]; the only copy it makes goes to the settings file, and it writes
    no file itself (the substitution is the work of the command). *)
Theorem provisioning_stays_in_bounds env w :
  let r := generate_searxng_secret_key env w in
  r.1 = Ok tt /\
  dirs r.2 = dirs w /\ cwd r.2 = cwd w /\
  (forall p, p <> settings_path -> fs r.2 !! p = fs w !! p) /\
  exists evs, trace r.2 = trace w ++ evs /\
    (forall argv c, EvExec argv c ∈ evs -> provisioning_tool argv = true) /\
    (forall src dst, EvCopy src dst ∈ evs -> dst = settings_path) /\
    (forall p c, EvWrite p c ∉ evs).
Proof.
  split; [apply provisioning_total |].
  destruct (confined_elim _ _ _ _ _ _ (provisioning_confined env w))
    as (D & C & F & evs & Ht & He & Hc & Hw).
  repeat (split; [assumption |]). exists evs. repeat (split; [assumption |]).
  split.
  - intros src dst Hin. apply Hc in Hin. symmetry. now apply String.eqb_eq.
  - intros p c Hin. apply Hw in Hin. discriminate.
Qed.

(** X6. The hardening toggle always returns normally.  It keeps the
    directories, the working directory and every file other than
    [docker-compose.yml]; the only commands it runs are [docker ps] and
    [docker exec]; it copies no file, and every write it makes goes to
    [docker-compose.yml]. *)
Theorem toggle_stays_in_bounds env w :
  let r := check_and_fix_docker_compose_for_searxng env w in
  r.1 = Ok tt /\
  dirs r.2 = dirs w /\ cwd r.2 = cwd w /\
  (forall p, p <> docker_compose_path -> fs r.2 !! p = fs w !! p) /\
  exists evs, trace r.2 = trace w ++ evs /\
    (forall argv c, EvExec argv c ∈ evs -> docker_query argv = true) /\
    (forall src dst, EvCopy src dst ∉ evs) /\
    (forall p c, EvWrite p c ∈ evs -> p = docker_compose_path).
Proof.
  split; [apply toggle_total |].
  destruct (confined_elim _ _ _ _ _ _ (toggle_confined env w))
    as (D & C & F & evs & Ht & He & Hc & Hw).
  repeat (split; [assumption |]). exists evs. repeat (split; [assumption |]).
  split.
  - intros src dst Hin. apply Hc in Hin. discriminate.
  - intros p c Hin. apply Hw in Hin. symmetry. now apply String.eqb_eq.
Qed.

(** X7. The health-check rewriter always returns normally.  It runs no
    command, copies no file and keeps the directories, the working
    directory and every file other than the Supabase compose file, the only
    path it writes. *)
Theorem healthcheck_stays_in_bounds w :
  let r := fix_supabase_realtime_healthcheck w in
  r.1 = Ok tt /\
  dirs r.2 = dirs w /\ cwd r.2 = cwd w /\
  (forall p, p <> supabase_compose_path -> fs r.2 !! p = fs w !! p) /\
  exists evs, trace r.2 = trace w ++ evs /\
    (forall argv c, EvExec argv c ∉ evs) /\
    (forall src dst, EvCopy src dst ∉ evs) /\
    (forall p c, EvWrite p c ∈ evs -> p = supabase_compose_path).
Proof.
  split; [apply healthcheck_total |].
  destruct (confined_elim _ _ _ _ _ _ (healthcheck_confined w))
    as (D & C & F & evs & Ht & He & Hc & Hw).
  repeat (split; [assumption |]). exists evs. repeat (split; [assumption |]).
  split; [| split].
  - intros argv c Hin. apply He in Hin. discriminate.
  - intros src dst Hin. apply Hc in Hin. discriminate.
  - intros p c Hin. apply Hw in Hin. symmetry. now apply String.eqb_eq.
Qed.

(** * The order of the run *)

Lemma quiet_refl w : quiet w w.
Proof. split; [apply emitted_refl | reflexivity]. Qed.

Lemma quiet_trans w1 w2 w3 : quiet w1 w2 -> quiet w2 w3 -> quiet w1 w3.
Proof.
  intros [E1 C1] [E2 C2]. split; [eapply emitted_trans; eauto | congruence].
Qed.

#[global] Instance quiet_preorder : PreOrder quiet.
Proof. split; [intros w; apply quiet_refl | intros w1 w2 w3; apply quiet_trans]. Qed.

Lemma provisioning_tool_other argv :
  provisioning_tool argv = true -> is_compose argv = false.
Proof.
  destruct argv as [| tool [| verb rest]]; cbn; try reflexivity.
  intros H. apply bool_decide_eq_true in H.
  destruct (String.eqb_spec tool "docker") as [-> |]; [| reflexivity].
  exfalso. revert H. not_in_events.
Qed.

Lemma docker_query_other argv :
  docker_query argv = true -> is_compose argv = false.
Proof.
  destruct argv as [| tool [| verb rest]]; cbn; try reflexivity.
  intros H. apply andb_true_iff in H as [_ H]. apply bool_decide_eq_true in H.
  destruct (String.eqb_spec verb "compose") as [-> |];
    [| now rewrite andb_false_r].
  exfalso. revert H. not_in_events.
Qed.

Lemma confined_quiet cmds copies writes files w w' :
  (forall argv, cmds argv = true -> is_compose argv = false) ->
  confined cmds copies writes files w w' -> quiet w w'.
Proof.
  intros Hc (E & _ & C & _). split; [| exact C].
  eapply emitted_weaken; [| exact E].
  intros [] H; cbn in *; try reflexivity. now rewrite Hc.
Qed.

Lemma patching_quiet env : keeps quiet (patch_configuration env).
Proof.
  unfold patch_configuration.
  repeat keeps_step; intros w.
  - eapply confined_quiet; [| apply provisioning_confined].
    apply provisioning_tool_other.
  - eapply confined_quiet; [| apply toggle_confined]. apply docker_query_other.
  - eapply confined_quiet; [| apply healthcheck_confined]. discriminate.
Qed.

Lemma prepare_confined env :
  keeps (confined no_command (String.eqb "supabase/docker/.env") no_path
                 (String.eqb "supabase/docker/.env"))
        (prepare_supabase_env env).
Proof.
  unfold prepare_supabase_env. cbn zeta.
  repeat first [keeps_step | apply keeps_copyfile; reflexivity | confined_prim].
Qed.

Lemma prepare_quiet env : keeps quiet (prepare_supabase_env env).
Proof.
  intros w. eapply confined_quiet; [| apply prepare_confined]. discriminate.
Qed.

Ltac emitted_prim :=
  keeps_prim;
  repeat (eapply emitted_trans; [| apply emitted_log; reflexivity]);
  first [ apply emitted_refl
        | apply emitted_log; reflexivity
        | apply emitted_same; reflexivity ].

Lemma sync_emits env : keeps (emitted not_compose) (clone_supabase_repo env).
Proof.
  unfold clone_supabase_repo, git_clone_effect, git_sync_effect, chdir.
  repeat first [keeps_step | emitted_prim].
Qed.

Lemma sync_cwd env w :
  post (clone_supabase_repo env) w (fun r w' => r = Ok tt -> cwd w' = cwd w).
Proof.
  unfold clone_supabase_repo, git_clone_effect, git_sync_effect.
  do 2 post_step.
  destruct (_ || _); cbn [negb].
  all: repeat first [sync_step
                    | match goal with |- context [bool_decide ?P] => destruct (bool_decide P) end].
  all: first [discriminate | reflexivity].
Qed.

(** The run up to the orchestrator commands: either a set-up step raised
    and the run ends there, or the orchestrator commands run next, in the
    starting directory. *)
Lemma main_post env profile w (Q : Result unit -> World -> Prop) :
  (forall e w1, emitted not_compose w w1 -> Q (Raise e) w1) ->
  (forall w1, quiet w w1 ->
     post (stop_existing_containers env (Some profile);;
           start_supabase env;;
           print "Waiting for Supabase to initialize...";;
           sleep 10;;
           start_local_ai env (Some profile)) w1 Q) ->
  post (main env profile) w Q.
Proof.
  intros Hfail Hnext. unfold main.
  apply post_bind. eapply post_mono;
    [exact (post_conj _ _ _ _ (keeps_post _ _ w (sync_emits env)) (sync_cwd env w)) |].
  intros [[] | e] w1 [E1 C1]; [| now apply Hfail].
  specialize (C1 eq_refl). assert (quiet w w1) as Q1 by (split; assumption).
  apply post_bind. eapply post_mono; [exact (keeps_post _ _ w1 (prepare_quiet env)) |].
  intros [[] | e] w2 Q2;
    [| apply Hfail; eapply emitted_trans; [exact E1 | apply Q2]].
  assert (quiet w w2) as Q12 by (eapply quiet_trans; eassumption).
  apply post_bind. eapply post_mono; [exact (keeps_post _ _ w2 (patching_quiet env)) |].
  intros [[] | e] w3 Q3.
  - apply Hnext. eapply quiet_trans; eassumption.
  - apply Hfail. eapply emitted_trans; [apply Q12 | apply Q3].
Qed.

(** X8. When the command that takes the existing containers down cannot be
    launched or exits with a non-zero status, the run ends in an exception
    and the only orchestrator command among its events is that [down]
    command: neither stack is started. *)
Theorem stop_failure_starts_nothing env profile w :
  let down := ["docker"; "compose"; "-p"; "localai"]
              ++ profile_args (Some profile)
              ++ ["-f"; "docker-compose.yml"; "down"] in
  command_fails env down ->
  let r := main env profile w in
  (exists e, r.1 = Raise e) /\
  exists evs, trace r.2 = trace w ++ evs /\
    forall argv c, EvExec argv c ∈ evs -> is_compose argv = true -> argv = down.
Proof.
  intros down Hfail. cbn zeta.
  assert (forall (r : Result unit) w', (exists e, r = Raise e) -> emitted (compose_only down) w w' ->
            (exists e : Exc, r = Raise e) /\
            exists evs, trace w' = trace w ++ evs /\
              forall argv c, EvExec argv c ∈ evs -> is_compose argv = true ->
                             argv = down) as Hend.
  { intros r w' Hr E. split; [exact Hr |].
    apply emitted_elem in E as (evs & Ht & Hev). exists evs.
    split; [exact Ht |]. intros argv c Hin Hc. apply Hev in Hin.
    cbn in Hin. rewrite Hc in Hin. now apply bool_decide_eq_true in Hin. }
  assert (forall w1, emitted not_compose w w1 -> emitted (compose_only down) w w1)
    as Hweak.
  { intros w1. apply emitted_weaken. intros [] H; cbn in *; try reflexivity.
    now rewrite H. }
  change (post (main env profile) w (fun r w' =>
    (exists e, r = Raise e) /\
    exists evs, trace w' = trace w ++ evs /\
      forall argv c, EvExec argv c ∈ evs -> is_compose argv = true -> argv = down)).
  apply main_post.
  - intros e w1 E. apply Hend; eauto.
  - intros w1 [E _]. unfold stop_existing_containers.
    do 3 post_step. apply post_run_command_exact. cbn zeta.
    fold down. unfold command_fails in Hfail.
    assert (emitted (compose_only down) w
              (log (log (log w1 (EvPrint "Stopping and removing existing containers for the unified project 'localai'..."))
                        (EvPrint ("Running: " +:+ join " " down)))
                   (EvExec down (cwd w1)))) as E'.
    { repeat (eapply emitted_trans; [| apply emitted_log]);
        [apply Hweak, E | reflexivity | reflexivity |].
      unfold compose_only. rewrite bool_decide_true by reflexivity.
      apply orb_true_r. }
    destruct (proc env down) as [e | rc out]; [apply Hend; eauto |].
    destruct (Z.eqb_spec rc 0) as [-> | _]; [contradiction | apply Hend; eauto].
Qed.

Lemma stop_failure_starts_nothing_witness :
  exists e, (main env_down_fails "cpu" w_fresh).1 = Raise e.
Proof.
  apply (stop_failure_starts_nothing env_down_fails "cpu" w_fresh).
  vm_compute. discriminate.
Defined.

(** X9. A run that returns normally ends in the starting directory, and
    its events end with: the [down] command, the [up -d] of the Supabase
    stack, the wait message, a pause of 10 seconds and the [up -d] of the
    local stack, each command run in the starting directory and with the
    profile flags of [profile_args]; no orchestrator command is run before
    these. *)
Theorem launch_order env profile w :
  (main env profile w).1 = Ok tt ->
  let w' := (main env profile w).2 in
  let compose := ["docker"; "compose"; "-p"; "localai"] in
  let down := compose ++ profile_args (Some profile)
              ++ ["-f"; "docker-compose.yml"; "down"] in
  let up_supabase := ["docker"; "compose"; "-p"; "localai"; "-f";
                      "supabase/docker/docker-compose.yml"; "up"; "-d"] in
  let up_local_ai := compose ++ profile_args (Some profile)
                     ++ ["-f"; "docker-compose.yml"; "up"; "-d"] in
  cwd w' = cwd w /\
  exists evs,
    trace w' = trace w ++ evs ++
      [EvPrint "Stopping and removing existing containers for the unified project 'localai'...";
       EvPrint ("Running: " +:+ join " " down);
       EvExec down (cwd w);
       EvPrint "Starting Supabase services...";
       EvPrint ("Running: " +:+ join " " up_supabase);
       EvExec up_supabase (cwd w);
       EvPrint "Waiting for Supabase to initialize...";
       EvSleep 10;
       EvPrint "Starting local AI services...";
       EvPrint ("Running: " +:+ join " " up_local_ai);
       EvExec up_local_ai (cwd w)] /\
    forall argv c, EvExec argv c ∈ evs -> is_compose argv = false.
Proof.
  cbn zeta.
  set (down := ["docker"; "compose"; "-p"; "localai"]
               ++ profile_args (Some profile)
               ++ ["-f"; "docker-compose.yml"; "down"]).
  set (up_local_ai := ["docker"; "compose"; "-p"; "localai"]
                      ++ profile_args (Some profile)
                      ++ ["-f"; "docker-compose.yml"; "up"; "-d"]).
  set (tail := [_; _; _; _; _; _; _; _; _; _; _]).
  change (post (main env profile) w (fun r w' =>
    r = Ok tt ->
    cwd w' = cwd w /\
    exists evs, trace w' = trace w ++ evs ++ tail /\
      forall argv c, EvExec argv c ∈ evs -> is_compose argv = false)).
  apply main_post; [discriminate |].
  intros w1 [E C].
  unfold stop_existing_containers, start_supabase, start_local_ai.
  fold down up_local_ai.
  repeat post_step; try discriminate.
  intros _. split; [exact C |].
  apply emitted_elem in E as (evs & Ht & Hev). exists evs. split.
  - cbn [trace log]. rewrite Ht, C. subst tail. rewrite <- !app_assoc. reflexivity.
  - intros argv c Hin. apply Hev in Hin. cbn in Hin.
    now apply negb_true_iff in Hin.
Qed.

Lemma launch_order_witness :
  cwd (main env_ok "cpu" w_fresh).2 = cwd w_fresh.
Proof.
  apply (launch_order env_ok "cpu" w_fresh). vm_compute. reflexivity.
Defined.


(** * Edges of the secret provisioning *)

(** X11. Without the settings template the step prints its two messages and
    returns: it runs no command and changes nothing, also when a settings
    file exists that still holds the placeholder. *)
Theorem template_missing_skips env w :
  fs w !! settings_base_path = None ->
  settings_base_path ∉ dirs w ->
  generate_searxng_secret_key env w =
  (Ok tt,
   log (log w (EvPrint "Checking SearXNG settings..."))
       (EvPrint ("Warning: SearXNG base settings file not found at "
                +:+ settings_base_path))).
Proof.
  intros Hf Hd.
  rewrite (run_result (generate_searxng_secret_key env) w).
  change (post (generate_searxng_secret_key env) w (fun r w' =>
    (r, w') = (Ok tt,
               log (log w (EvPrint "Checking SearXNG settings..."))
                   (EvPrint ("Warning: SearXNG base settings file not found at "
                +:+ settings_base_path))))).
  unfold generate_searxng_secret_key. do 4 post_step.
  rewrite Hf, bool_decide_false by (intros [? [=]]).
  rewrite bool_decide_false by exact Hd. cbn [orb negb].
  post_step. reflexivity.
Qed.

Lemma template_missing_skips_witness :
  fs (generate_searxng_secret_key env_ok w_no_template).2 !! settings_path
  = Some template0.
Proof.
  rewrite (template_missing_skips env_ok w_no_template);
    [reflexivity | reflexivity | vm_compute; discriminate].
Defined.

(** X12. When the settings file is absent and the copy of the template
    fails, the step reports the error and returns before any secret is
    generated: it runs no command and changes nothing. *)
Theorem copy_failure_skips env w template e :
  fs w !! settings_base_path = Some template ->
  fs w !! settings_path = None ->
  settings_path ∉ dirs w ->
  copy_error env settings_base_path settings_path = Some e ->
  generate_searxng_secret_key env w =
  (Ok tt,
   log (log (log w (EvPrint "Checking SearXNG settings..."))
            (EvPrint ("SearXNG settings.yml not found. Creating from "
                     +:+ settings_base_path +:+ "...")))
       (EvPrint ("Error creating settings.yml: " +:+ str_exc e))).
Proof.
  intros Hb Hs Hd He.
  rewrite (run_result (generate_searxng_secret_key env) w).
  change (post (generate_searxng_secret_key env) w (fun r w' =>
    (r, w') = (Ok tt,
      log (log (log w (EvPrint "Checking SearXNG settings..."))
               (EvPrint ("SearXNG settings.yml not found. Creating from "
                     +:+ settings_base_path +:+ "...")))
          (EvPrint ("Error creating settings.yml: " +:+ str_exc e))))).
  unfold generate_searxng_secret_key. do 4 post_step.
  rewrite Hb, bool_decide_true by eauto. cbn [orb negb].
  do 2 post_step. rewrite Hs, bool_decide_false by (intros [? [=]]).
  rewrite bool_decide_false by exact Hd. cbn [orb negb].
  repeat post_step. rewrite Hb, He. repeat post_step. reflexivity.
Qed.

Lemma copy_failure_skips_witness :
  fs (generate_searxng_secret_key env_copy_fails w_fresh).2 = fs w_fresh.
Proof.
  rewrite (copy_failure_skips env_copy_fails w_fresh template0
             (OSError ("[Errno 13] Permission denied: " +:+ repr settings_path)));
    [reflexivity | reflexivity | reflexivity | vm_compute; discriminate | reflexivity].
Defined.

Lemma hex_has_no c s : is_hex c = false -> all_hex s = true -> has_char c s = false.
Proof.
  intros Hc. induction s as [| d s IH]; [reflexivity |].
  change (all_hex (String d s)) with (is_hex d && all_hex s).
  cbn [has_char]. intros H. apply andb_true_iff in H as [Hd Hs].
  destruct (Ascii.eqb_spec c d) as [-> |]; [congruence |]. cbn [orb]. auto.
Qed.

(** X13. The commands the secret provisioning runs are, in order, an initial
    part of the commands of its platform: [powershell] alone on Windows;
    [openssl rand -hex 32] and then [sed -i '' script file] on macOS,
    [sed -i script file] elsewhere, where the script is
    [s|ultrasecretkey|key|g] for the key of this run.  Once the success
    message is printed, they are exactly these commands.  The key holds no
    [|], the delimiter of the script. *)
Theorem provisioning_commands env w :
  let w' := (generate_searxng_secret_key env w).2 in
  let expected := map (fun argv => (argv, cwd w)) (platform_commands env) in
  has_char "|" (secret_key env) = false /\
  exists evs, trace w' = trace w ++ evs /\
    execs evs `prefix_of` expected /\
    (EvPrint success_msg ∈ evs -> execs evs = expected).
Proof.
  cbn zeta. split.
  { apply hex_has_no; [reflexivity | apply all_hex_hexlify]. }
  change (post (generate_searxng_secret_key env) w (fun _ w' =>
    exists evs, trace w' = trace w ++ evs /\
      execs evs `prefix_of` map (fun argv => (argv, cwd w)) (platform_commands env) /\
      (EvPrint success_msg ∈ evs ->
       execs evs = map (fun argv => (argv, cwd w)) (platform_commands env)))).
  unfold generate_searxng_secret_key, try_generate_key,
    generate_key_for_platform, remediation, check_output_openssl, platform_commands,
    sed_script.
  destruct (String.eqb (system env) "Windows");
    [| destruct (String.eqb (system env) "Darwin")].
  all: repeat first
         [ post_step
         | apply post_substitute_in_file
         | match goal with
           | |- context [negb ?b] => destruct b; cbn [negb]
           | |- match ?x with _ => _ end => destruct x
           end ].
  all: rewrite ?strip_secret_key.
  all: eexists; (split; [trace_eq |]); cbn [execs omap list_omap map app]; split.
  all: try solve [eexists; cbn [app]; reflexivity].
  all: try solve [intros _; reflexivity].
  all: try solve [intros Hin; exfalso; revert Hin; not_in_events].
Qed.

(** * The key is kept *)

(** Once the success message is printed, the settings file holds the
    substituted text. *)
Lemma provisioning_result env w template :
  fs w !! settings_base_path = Some template ->
  settings_path ∉ dirs w ->
  post (generate_searxng_secret_key env) w (fun _ w1 =>
    exists evs, trace w1 = trace w ++ evs /\
      (EvPrint success_msg ∈ evs ->
       fs w1 !! settings_path
       = Some (replace (default template (fs w !! settings_path))
                       placeholder (secret_key env)))).
Proof.
  intros Hb Hd. unfold generate_searxng_secret_key. repeat post_step.
  rewrite Hb, bool_decide_true by eauto. cbn [orb negb].
  repeat post_step.
  rewrite (bool_decide_false (settings_path ∈ dirs w)) by exact Hd.
  rewrite orb_false_r. cbn [fs log].
  destruct (fs w !! settings_path) as [c |] eqn:Hs.
  - rewrite bool_decide_true by eauto. cbn [negb]. repeat post_step.
    eapply post_mono; [apply (generation_post env _ c); exact Hs |].
    intros r w1 (-> & evs & Ht & H). eexists. split.
    { rewrite Ht. trace_eq. }
    intros Hin. destruct H as [[Hfs _] | [_ [Hnot _]]].
    + rewrite Hfs. cbn [fs log]. apply lookup_insert_eq.
    + exfalso. no_event Hin.
  - rewrite bool_decide_false by (intros [? ?]; discriminate). cbn [negb].
    repeat post_step. cbn [fs log]. rewrite Hb.
    destruct (copy_error env settings_base_path settings_path) as [e |] eqn:Hce;
      repeat post_step.
    + eexists. split; [trace_eq |]. not_in_events.
    + eapply post_mono;
        [apply (generation_post env _ template); cbn [fs log]; apply lookup_insert_eq |].
      intros r w1 (-> & evs & Ht & H). eexists. split.
      { rewrite Ht. trace_eq. }
      intros Hin. destruct H as [[Hfs _] | [_ [Hnot _]]].
      * rewrite Hfs. cbn [fs log]. apply lookup_insert_eq.
      * exfalso. no_event Hin.
Qed.

(** Without a placeholder in the settings file the step changes no file. *)
Lemma provisioning_settled env w content :
  fs w !! settings_path = Some content ->
  str_in placeholder content = false ->
  fs (generate_searxng_secret_key env w).2 = fs w.
Proof.
  intros Hc Hp.
  change (post (generate_searxng_secret_key env) w (fun _ w' => fs w' = fs w)).
  unfold generate_searxng_secret_key. repeat post_step.
  destruct (_ || _); cbn [negb]; [| now post_step].
  repeat post_step. cbn [fs log]. rewrite Hc.
  rewrite bool_decide_true by eauto. cbn [orb negb].
  repeat post_step.
  eapply post_mono; [apply (generation_post env _ content); exact Hc |].
  intros r w' (-> & evs & _ & [[Hfs _] | [Hfs _]]).
  - rewrite Hfs. cbn [fs log].
    rewrite replace_absent by (auto using placeholder_ne).
    now apply insert_id.
  - exact Hfs.
Qed.

(** X14. The key is not rotated.  When a provisioning, on whatever
    platform, has printed its success message, the settings file holds no
    placeholder, and a later provisioning on the branch that runs GNU [sed],
    whatever key it generates, changes no file. *)
Theorem key_is_kept env env' w template :
  fs w !! settings_base_path = Some template ->
  settings_path ∉ dirs w ->
  gnu_sed_branch env' ->
  let w1 := (generate_searxng_secret_key env w).2 in
  let w2 := (generate_searxng_secret_key env' w1).2 in
  (exists evs, trace w1 = trace w ++ evs /\ EvPrint success_msg ∈ evs) ->
  (exists provisioned,
     fs w1 !! settings_path = Some provisioned /\
     str_in placeholder provisioned = false) /\
  fs w2 = fs w1.
Proof.
  intros Hb Hd _ w1 w2 (evs & Ht & Hin).
  destruct (provisioning_result env w template Hb Hd) as (evs' & Ht' & Hres).
  fold w1 in Ht'. rewrite Ht in Ht'. apply app_inv_head in Ht'. subst evs'.
  specialize (Hres Hin). fold w1 in Hres.
  split; [eexists; split; [exact Hres | apply no_placeholder_left] |].
  apply (provisioning_settled env' w1 _ Hres).
  apply no_placeholder_left.
Qed.

Lemma key_is_kept_witness :
  fs (generate_searxng_secret_key env_other_key
        (generate_searxng_secret_key env_ok w_fresh).2).2
  = fs (generate_searxng_secret_key env_ok w_fresh).2.
Proof.
  apply (key_is_kept env_ok env_other_key w_fresh template0).
  - reflexivity.
  - vm_compute. discriminate.
  - split; discriminate.
  - eexists. split; [vm_compute; reflexivity |]. vm_compute. in_events.
Defined.

(** * A failed generation can be retried *)

(** X15. A failed generation can be retried.  When the settings file is
    created from the template and the generation command then fails, the
    settings file is left as the copied template, placeholder included, and
    every other file as it was; a later provisioning that prints its success
    message substitutes its own key into that template. *)
Theorem generation_can_be_retried env1 env2 w template :
  fs w !! settings_base_path = Some template ->
  fs w !! settings_path = None ->
  settings_path ∉ dirs w ->
  copy_error env1 settings_base_path settings_path = None ->
  command_fails env1 (generation_command env1) ->
  let w1 := (generate_searxng_secret_key env1 w).2 in
  let w2 := (generate_searxng_secret_key env2 w1).2 in
  fs w1 = <[settings_path := template]> (fs w) /\
  forall evs, trace w2 = trace w1 ++ evs -> EvPrint success_msg ∈ evs ->
    fs w2 !! settings_path = Some (replace template placeholder (secret_key env2)).
Proof.
  intros Hb Hs Hd Hce Hfail w1 w2.
  assert (fs w1 = <[settings_path := template]> (fs w)) as H1.
  { subst w1.
    change (post (generate_searxng_secret_key env1) w (fun _ w' =>
              fs w' = <[settings_path := template]> (fs w))).
    unfold generate_searxng_secret_key. repeat post_step.
    rewrite Hb, bool_decide_true by eauto. cbn [orb negb]. repeat post_step.
    rewrite Hs, bool_decide_false by (intros [? [=]]).
    rewrite bool_decide_false by exact Hd. cbn [orb negb].
    repeat post_step. cbn [fs log]. rewrite Hb, Hce. repeat post_step.
    eapply post_mono; [apply (generation_fails env1 _ Hfail) |].
    intros r w' (_ & Hfs & _). rewrite Hfs. reflexivity. }
  split; [exact H1 |]. intros evs Ht Hin.
  assert (fs w1 !! settings_base_path = Some template) as Hb1
    by (rewrite H1, lookup_insert_ne by discriminate; exact Hb).
  assert (settings_path ∉ dirs w1) as Hd1.
  { destruct (provisioning_confined env1 w) as (_ & D & _). fold w1 in D.
    now rewrite D. }
  destruct (provisioning_result env2 w1 template Hb1 Hd1) as (evs' & Ht' & Hres).
  fold w2 in Ht', Hres. rewrite Ht in Ht'. apply app_inv_head in Ht'. subst evs'.
  rewrite (Hres Hin), H1, lookup_insert_eq. reflexivity.
Qed.

Lemma generation_can_be_retried_witness :
  fs (generate_searxng_secret_key env_openssl_fails w_fresh).2 !! settings_path
  = Some template0.
Proof.
  destruct (generation_can_be_retried env_openssl_fails env_ok w_fresh template0)
    as [H _].
  - reflexivity.
  - reflexivity.
  - vm_compute. discriminate.
  - reflexivity.
  - vm_compute. discriminate.
  - rewrite H. apply lookup_insert_eq.
Defined.


(** * The classification defaults to first-run *)

(** X16. The classification never fails and changes no file.  Its result is
    not-first-run exactly when the container listing exits with status 0
    and names a container, the probe inside that container can be launched
    and its output contains [found], whatever the exit status of the probe;
    in every other case, errors included, the result is first-run. *)
Theorem classification_defaults_to_first_run env w :
  let r := detect_first_run env w in
  (exists b, r.1 = Ok b) /\
  fs r.2 = fs w /\
  (r.1 = Ok false <->
   exists out name rc out',
     proc env docker_ps_cmd = Exited 0 out /\
     first_nonempty (split (strip out) nl) = Some name /\
     proc env (docker_exec_cmd name) = Exited rc out' /\
     str_in "found" out' = true).
Proof.
  cbn zeta.
  change (post (detect_first_run env) w (fun r w' =>
    (exists b, r = Ok b) /\ fs w' = fs w /\
    (r = Ok false <->
     exists out name rc out',
       proc env docker_ps_cmd = Exited 0 out /\
       first_nonempty (split (strip out) nl) = Some name /\
       proc env (docker_exec_cmd name) = Exited rc out' /\
       str_in "found" out' = true))).
  unfold detect_first_run. do 3 post_step.
  - (* the listing cannot be launched *)
    repeat post_step. split; [eauto |]. split; [reflexivity |].
    split; [discriminate |]. intros (out & name & rc & out' & Hps & _).
    known_outcome.
  - (* the listing exits with an error *)
    repeat post_step. split; [eauto |]. split; [reflexivity |].
    split; [discriminate |]. intros (out' & name & rc' & out'' & Hps & _).
    known_outcome. congruence.
  - (* the listing succeeded *)
    destruct H0 as [? | ->]; [discriminate |].
    destruct (first_nonempty (split (strip out) nl)) as [name |] eqn:Hname.
    + (do 4 post_step); [| discriminate |].
      * repeat post_step. split; [eauto |]. split; [reflexivity |].
        split; [discriminate |].
        intros (out1 & name1 & rc1 & out2 & Hps & Hn & Hex & _).
        known_outcome. assert (name1 = name) as -> by congruence. known_outcome.
      * destruct (str_in "found" out0) eqn:Hfound; repeat post_step.
        -- split; [eauto |]. split; [reflexivity |]. split; [| reflexivity].
           intros _. eexists _, _, _, _. eauto.
        -- split; [eauto |]. split; [reflexivity |]. split; [discriminate |].
           intros (out1 & name1 & rc1 & out2 & Hps & Hn & Hex & Hf).
           known_outcome. assert (name1 = name) as -> by congruence.
           known_outcome. congruence.
    + repeat post_step. split; [eauto |]. split; [reflexivity |].
      split; [discriminate |].
      intros (out1 & name1 & rc1 & out2 & Hps & Hn & _).
      known_outcome. congruence.
Qed.

(** ** The container that is probed *)

Lemma lstrip_head s :
  lstrip s = "" \/ exists c r, lstrip s = String c r /\ isspace c = false.
Proof.
  induction s as [| c s IH]; [now left |]. cbn [lstrip].
  destruct (isspace c) eqn:E; [exact IH | right; eauto].
Qed.

Lemma rstrip_head c r : isspace c = false -> exists r', rstrip (String c r) = String c r'.
Proof.
  intros Hc. cbn [rstrip]. destruct (rstrip r); [rewrite Hc |]; eauto.
Qed.

Lemma strip_head s :
  strip s = "" \/ exists c r, strip s = String c r /\ isspace c = false.
Proof.
  unfold strip. destruct (lstrip_head s) as [-> | (c & r & -> & Hc)]; [now left |].
  right. destruct (rstrip_head c r Hc) as [r' ->]. eauto.
Qed.

Lemma split_head s sep :
  exists h t, split s sep = h :: t /\ has_char sep h = false /\
              (s = h \/ exists rest, s = h +:+ String sep rest).
Proof.
  induction s as [| c s (h & t & IH & Hh & Hs)].
  - exists "", []. split; [reflexivity |]. split; [reflexivity |]. now left.
  - change (split (String c s) sep)
      with (if Ascii.eqb c sep then "" :: split s sep
            else match split s sep with
                 | h :: t => String c h :: t
                 | [] => [String c ""]
                 end).
    destruct (Ascii.eqb_spec c sep) as [-> | Hne].
    + exists "", (split s sep). split; [reflexivity |]. split; [reflexivity |].
      right. now exists s.
    + rewrite IH. exists (String c h), t. split; [reflexivity |]. split.
      * cbn [has_char]. rewrite Hh.
        destruct (Ascii.eqb_spec sep c) as [-> |]; [contradiction | reflexivity].
      * destruct Hs as [-> | [rest ->]]; [now left |]. right. now exists rest.
Qed.

(** X17. No container is found exactly when the listing is blank.
    Otherwise the container that is probed is the first line of the stripped
    listing: a non-empty name without a newline, which is the whole stripped
    listing or is followed in it by a newline; further containers of the
    listing are not looked at. *)
Theorem first_listed_container out :
  (first_nonempty (split (strip out) nl) = None <-> strip out = "") /\
  forall name, first_nonempty (split (strip out) nl) = Some name ->
    name <> "" /\ has_char nl name = false /\
    (strip out = name \/ exists rest, strip out = name +:+ NL +:+ rest).
Proof.
  destruct (strip_head out) as [-> | (c & r & -> & Hc)].
  - split; [split; reflexivity |]. intros name H. discriminate H.
  - destruct (split_head (String c r) nl) as (h & t & Hsplit & Hh & Hs).
    assert (exists h', h = String c h') as [h' ->].
    { destruct Hs as [<- | [rest Hs]]; [eauto |].
      destruct h as [| d h']; [| injection Hs as <- _; eauto].
      injection Hs as -> _. discriminate Hc. }
    rewrite Hsplit. unfold first_nonempty. cbn [List.find String.eqb negb].
    split; [split; discriminate |].
    intros name [= <-]. split; [discriminate |]. split; [exact Hh |].
    exact Hs.
Qed.


(** * The transition back to the active directive *)

Lemma uncomment_loop_flags lines a b :
  (uncomment_loop lines a b).1.2 || (uncomment_loop lines a b).2 =
  a || b || existsb (fun line => str_in commented_key line
                                || str_in commented_value line) lines.
Proof.
  revert a b. induction lines as [| line rest IH]; intros a b.
  - cbn. now rewrite orb_false_r.
  - cbn [uncomment_loop existsb].
    specialize (IH (a || str_in commented_key line)
                   (b || negb (str_in commented_key line)
                         && str_in commented_value line)).
    destruct (uncomment_loop rest _ _) as [[rest' c] d]. cbn [fst snd] in *.
    rewrite IH.
    destruct a, b, (str_in commented_key line), (str_in commented_value line);
      reflexivity.
Qed.

(** X18. [bytes] are the bytes of [docker-compose.yml] and [content] is the
    text that reading them in text mode delivers.  When the invocation is
    classified not-first-run and some line, anywhere in the file, holds a
    commented form, the file is rewritten with the same number of lines: in
    a line that holds the commented key every commented key is replaced by
    [cap_drop:] (and a commented value on the same line is left as it is);
    in any other line that holds the commented value it is replaced by
    [- ALL]; every line without a commented form is written back with the
    text it was read with.  Whatever the platform, the file then reads as
    the text written.  When the bytes hold no carriage return and the
    platform is not Windows, the text read is the bytes of the file and the
    bytes stored are the text written, so that the lines without a
    commented form are written back byte for byte. *)
Theorem reenable_rewrites_marked_lines env w bytes :
  let content := universal_newlines bytes in
  fs w !! docker_compose_path = Some content ->
  classified env false ->
  let lines := readlines content in
  (exists line, line ∈ lines /\
     (str_in commented_key line = true \/ str_in commented_value line = true)) ->
  let r := check_and_fix_docker_compose_for_searxng env w in
  let written := uncomment_line <$> lines in
  r.1 = Ok tt /\
  fs r.2 = <[docker_compose_path := writelines written]> (fs w) /\
  length written = length lines /\
  (forall k line, lines !! k = Some line ->
    (str_in commented_key line = true ->
     written !! k = Some (replace line commented_key cap_drop_key)) /\
    (str_in commented_key line = false ->
     str_in commented_value line = true ->
     written !! k = Some (replace line commented_value cap_drop_value)) /\
    (str_in commented_key line = false ->
     str_in commented_value line = false ->
     written !! k = Some line)) /\
  universal_newlines (to_linesep env (writelines written))
  = writelines written /\
  (has_char cr bytes = false -> system env <> "Windows" ->
   content = bytes /\
   to_linesep env (writelines written) = writelines written).
Proof.
  intros content Hc Hb lines (line & Hin & Hmark) r written. subst r.
  assert (forall k l, lines !! k = Some l ->
            written !! k = Some (uncomment_line l)) as Hk.
  { intros k l Hl. subst written. now rewrite list_lookup_fmap, Hl. }
  enough (post (check_and_fix_docker_compose_for_searxng env) w
            (fun r w' => r = Ok tt /\
               fs w' = <[docker_compose_path := writelines written]> (fs w)))
    as [H1 H2].
  { split; [exact H1 |]. split; [exact H2 |].
    split; [apply length_fmap |]. split; [| split].
    - intros k l Hl. rewrite (Hk k l Hl). unfold uncomment_line.
      repeat split; intros;
        repeat match goal with H : _ = _ |- _ => rewrite H end; reflexivity.
    - apply text_mode_round_trip, uncomment_plain, universal_newlines_no_cr.
    - intros Hcr Hsys.
      split; [now apply universal_newlines_plain | now apply to_linesep_plain]. }
  apply (toggle_post env w content false _ Hc Hb).
  intros w1 evs Hfs Ht Hnw. unfold second_pass. fold lines.
  pose proof (uncomment_loop_flags lines false false) as Hflags.
  pose proof (uncomment_loop_lines lines false false) as Hlines.
  destruct (uncomment_loop lines false false) as [[lines' c] d].
  cbn [fst snd] in *. subst lines'. rewrite Hflags. cbn [orb].
  replace (existsb _ lines) with true.
  - repeat post_step. cbn [fs log]. now rewrite Hfs.
  - symmetry. apply existsb_exists. exists line.
    split; [now apply list_elem_of_In |]. now destruct Hmark as [-> | ->]; [| apply orb_true_r].
Qed.

Lemma reenable_rewrites_marked_lines_witness :
  fs (check_and_fix_docker_compose_for_searxng
        env_marker_present (w_compose compose_searxng_commented)).2
    !! docker_compose_path
  = Some compose_searxng.
Proof.
  destruct (reenable_rewrites_marked_lines env_marker_present
              (w_compose compose_searxng_commented) compose_searxng_commented)
    as (_ & Hfs & _).
  - vm_compute. reflexivity.
  - apply env_marker_present_not_first_run.
  - exists ("    # cap_drop: # Temporarily commented out for first run" +:+ NL).
    split; [vm_compute; in_events | now left].
  - rewrite Hfs. rewrite lookup_insert_eq. vm_compute. reflexivity.
Defined.

(** * The commented lines are comments *)

Lemma len_lstrip s : len (lstrip s) <= len s.
Proof.
  induction s as [| c s IH]; [reflexivity |]. cbn [lstrip].
  destruct (isspace c); cbn [len String.length] in *; unfold len in *; lia.
Qed.

Lemma indent_of_space c s : isspace c = true -> indent_of (String c s) = S (indent_of s).
Proof.
  intros Hc. unfold indent_of. cbn [lstrip]. rewrite Hc.
  pose proof (len_lstrip s). unfold len in *. cbn [String.length]. lia.
Qed.

Lemma indent_of_text c s : isspace c = false -> indent_of (String c s) = 0.
Proof. intros Hc. unfold indent_of. cbn [lstrip]. rewrite Hc. lia. Qed.

Lemma strip_space c s : isspace c = true -> strip (String c s) = strip s.
Proof. intros Hc. unfold strip. cbn [lstrip]. now rewrite Hc. Qed.

Lemma strip_text c s :
  isspace c = false -> startswith (strip (String c s)) (String c "") = true.
Proof.
  intros Hc. unfold strip. cbn [lstrip]. rewrite Hc.
  destruct (rstrip_head c s Hc) as [r' ->].
  rewrite startswith_cons, Ascii.eqb_refl. apply startswith_nil.
Qed.

(** Commenting out a directive that is the first text of its line keeps the
    indentation and makes the line a comment. *)
Lemma comment_at_line_start h old new' line :
  isspace h = false ->
  startswith (lstrip line) (String h old) = true ->
  let line' := replace line (String h old) (String "#" new') in
  indent_of line' = indent_of line /\ uncommented line' = false.
Proof.
  intros Hh. cbn zeta. induction line as [| c s IH]; [discriminate |].
  cbn [lstrip]. destruct (isspace c) eqn:Hc.
  - intros Hs. destruct (IH Hs) as [Hi Hu].
    rewrite replace_pass.
    + rewrite !indent_of_space by exact Hc. split; [congruence |].
      unfold uncommented in *. now rewrite strip_space.
    + rewrite startswith_cons.
      destruct (Ascii.eqb_spec h c) as [-> |]; [congruence | reflexivity].
  - intros Hs. apply startswith_spec in Hs as [r Hr]. rewrite Hr.
    rewrite replace_match by discriminate.
    change (String "#" new' +:+ replace r (String h old) (String "#" new'))
      with (String "#" (new' +:+ replace r (String h old) (String "#" new'))).
    rewrite <- Hr. rewrite !indent_of_text by (exact Hc || reflexivity).
    split; [reflexivity |]. unfold uncommented.
    rewrite strip_text by reflexivity. reflexivity.
Qed.

(** X19. When [cap_drop:] (or [- ALL]) is the first text of a line, the
    first-run transition leaves the indentation of the line as it is and
    turns the line into a comment: its stripped text starts with [#], so
    the scan of a later invocation no longer takes it for an active key or
    value line. *)
Theorem commented_out_is_comment line :
  (startswith (lstrip line) cap_drop_key = true ->
   let line' := replace line cap_drop_key commented_key in
   indent_of line' = indent_of line /\ uncommented line' = false) /\
  (startswith (lstrip line) cap_drop_value = true ->
   let line' := replace line cap_drop_value commented_value in
   indent_of line' = indent_of line /\ uncommented line' = false).
Proof.
  split; intros H; eapply comment_at_line_start in H; try exact H; reflexivity.
Qed.

Lemma commented_out_is_comment_witness :
  uncommented (replace ("    cap_drop:" +:+ NL) cap_drop_key commented_key) = false.
Proof.
  destruct (commented_out_is_comment ("    cap_drop:" +:+ NL)) as [H _].
  assert (startswith (lstrip ("    cap_drop:" +:+ NL)) cap_drop_key = true) as Hs
    by (vm_compute; reflexivity).
  exact (proj2 (H Hs)).
Defined.

(** * Reading and writing lines *)

(** Writing the lines of a text gives the text back. *)
Lemma writelines_readlines s : writelines (readlines s) = s.
Proof.
  induction s as [| c s IH]; [reflexivity |]. rewrite readlines_cons.
  destruct (Ascii.eqb c nl).
  - rewrite writelines_cons, IH. reflexivity.
  - destruct (readlines s) as [| h t].
    + cbn in IH. subst s. reflexivity.
    + rewrite writelines_cons in *. cbn [String.append]. now rewrite IH.
Qed.

Lemma readlines_well_lined s : well_lined (readlines s).
Proof.
  induction s as [| c s IH]; [constructor |]. rewrite readlines_cons.
  destruct (Ascii.eqb_spec c nl) as [-> | Hne].
  - apply (wl_cons ""); [reflexivity | exact IH].
  - assert (has_char nl (String c "") = false) as Hc.
    { cbn [has_char]. destruct (Ascii.eqb_spec nl c); [congruence | reflexivity]. }
    inversion IH as [| b Hb Hbne | b ls Hb Hls].
    + now apply wl_last.
    + apply wl_last; [| discriminate]. cbn [has_char] in *.
      rewrite Hb. now destruct (Ascii.eqb nl c).
    + apply (wl_cons (String c b)); [| exact Hls]. cbn [has_char] in *.
      rewrite Hb. now destruct (Ascii.eqb nl c).
Qed.

Lemma readlines_line b x :
  has_char nl b = false -> readlines (b +:+ NL +:+ x) = (b +:+ NL) :: readlines x.
Proof.
  induction b as [| c b IH]; intros Hb.
  - reflexivity.
  - cbn [has_char] in Hb. apply orb_false_iff in Hb as [Hc Hb].
    cbn [String.append]. rewrite readlines_cons.
    rewrite Ascii.eqb_sym, Hc. now rewrite (IH Hb).
Qed.

Lemma readlines_unbroken b :
  has_char nl b = false -> b <> "" -> readlines b = [b].
Proof.
  induction b as [| c b IH]; intros Hb Hne; [congruence |].
  cbn [has_char] in Hb. apply orb_false_iff in Hb as [Hc Hb].
  rewrite readlines_cons, Ascii.eqb_sym, Hc.
  destruct b as [| d b]; [reflexivity |]. rewrite IH by (exact Hb || discriminate).
  reflexivity.
Qed.

(** Reading back what was written gives the lines back, for lines as
    [readlines] delivers them. *)
Lemma readlines_writelines ls : well_lined ls -> readlines (writelines ls) = ls.
Proof.
  induction 1 as [| b Hb Hne | b ls Hb Hls IH].
  - reflexivity.
  - rewrite writelines_cons. change (writelines []) with "".
    rewrite str_app_nil_r. now apply readlines_unbroken.
  - rewrite writelines_cons, str_app_assoc, readlines_line by exact Hb.
    now rewrite IH.
Qed.

(** ** Substitutions within a line *)

Lemma replace_cut old new c a b :
  old <> "" -> has_char c old = false ->
  replace (a +:+ String c b) old new
  = replace a old new +:+ String c (replace b old new).
Proof.
  intros Hne Hc.
  assert (forall x, startswith (String c x) old = false) as Hhead.
  { intros x. destruct old as [| d old]; [congruence |].
    rewrite startswith_cons. cbn [has_char] in Hc.
    apply orb_false_iff in Hc as [Hc _].
    now rewrite Ascii.eqb_sym, Hc. }
  induction a as [| r IH | d s Hd IH] using (replace_ind old Hne).
  - rewrite replace_nil by exact Hne. cbn [String.append].
    now apply replace_pass.
  - rewrite str_app_assoc, !replace_match, IH by exact Hne.
    now rewrite str_app_assoc.
  - cbn [String.append]. rewrite !replace_pass, IH; [reflexivity | exact Hd |].
    change (String d (s +:+ String c b)) with (String d s +:+ String c b).
    now rewrite startswith_cut.
Qed.

(** A substitution of newline-free texts, the new one no shorter than the
    old, keeps the lines of a file lines. *)
Lemma alter_well_lined old new i ls :
  old <> "" -> has_char nl old = false -> has_char nl new = false ->
  len old <= len new ->
  well_lined ls -> well_lined (alter (fun l => replace l old new) i ls).
Proof.
  intros Hne Hold Hnew Hlen Hwl. revert i.
  assert (forall b, has_char nl b = false -> b <> "" -> replace b old new <> "")
    as Hkeep.
  { intros b _ Hb E. destruct (replace_len old new b Hne) as [Hl _].
    specialize (Hl Hlen). rewrite E in Hl. destruct b; [congruence |].
    cbn in Hl. lia. }
  induction Hwl as [| b Hb Hbne | b ls Hb Hls IH]; intros i.
  - constructor.
  - destruct i as [| i]; [| now constructor]. cbn.
    apply wl_last; [now apply has_char_replace | now apply Hkeep].
  - destruct i as [| i]; cbn.
    + unfold NL. rewrite replace_cut, replace_nil by assumption.
      apply wl_cons; [now apply has_char_replace | exact Hls].
    + apply wl_cons; [exact Hb | apply IH].
Qed.

Lemma comment_out_well_lined lines ci vi :
  well_lined lines -> well_lined (comment_out lines ci vi).
Proof.
  intros H. unfold comment_out.
  apply alter_well_lined; try reflexivity; try discriminate;
    [cbn; lia |].
  apply alter_well_lined; try reflexivity; try discriminate; [cbn; lia | exact H].
Qed.

(** * The two transitions undo each other on a file *)

Lemma uncomment_comment_out lines ci vi :
  cap_drop_line_index (first_pass lines) = Some ci ->
  cap_drop_value_line_index (first_pass lines) = Some vi ->
  (forall line, line ∈ lines ->
     str_in commented_key line = false /\ str_in commented_value line = false) ->
  uncomment_line <$> comment_out lines ci vi = lines.
Proof.
  intros Hci Hvi Hno.
  destruct (first_pass_pair _ _ _ Hci Hvi) as (Hlt & Hk & Hv & _).
  destruct (kind_at_key _ _ Hk) as (key & Hkey & Hkin & _).
  destruct (kind_at_value _ _ Hv) as (value & Hval & Hvin & _ & Hvk).
  apply list_eq. intros k. rewrite list_lookup_fmap.
  destruct (decide (k = ci)) as [-> | Hkc];
    [| destruct (decide (k = vi)) as [-> | Hkv]].
  - rewrite comment_out_key, Hkey by lia. cbn [fmap option_fmap option_map].
    now rewrite uncomment_key_line.
  - rewrite comment_out_value, Hval by lia. cbn [fmap option_fmap option_map].
    now rewrite uncomment_value_line.
  - rewrite comment_out_other by assumption.
    destruct (lines !! k) as [line |] eqn:Hl; [| reflexivity].
    cbn [fmap option_fmap option_map]. f_equal. unfold uncomment_line.
    destruct (Hno line) as [-> ->]; [| reflexivity].
    now apply list_elem_of_lookup_2 in Hl.
Qed.

(** X20. A first-run invocation followed by a not-first-run invocation
    restores the file.  [bytes] are the bytes of [docker-compose.yml] and
    [content] is the text that reading them in text mode delivers.  When
    the first pass finds the pair and no line holds a commented form, the
    first invocation writes the commented lines, which differ from the
    original text and which the second invocation, whatever the two
    platforms, reads back as the very lines written; the second invocation
    writes the original text back, so that the file reads as it did before.
    When the bytes hold no carriage return and the second invocation does
    not run on Windows, the bytes it stores are the original bytes: the
    file is restored byte for byte. *)
Theorem toggle_restores_file env1 env2 w bytes ci vi :
  let content := universal_newlines bytes in
  fs w !! docker_compose_path = Some content ->
  classified env1 true ->
  classified env2 false ->
  let lines := readlines content in
  cap_drop_line_index (first_pass lines) = Some ci ->
  cap_drop_value_line_index (first_pass lines) = Some vi ->
  (forall line, line ∈ lines ->
     str_in commented_key line = false /\ str_in commented_value line = false) ->
  let w1 := (check_and_fix_docker_compose_for_searxng env1 w).2 in
  let w2 := (check_and_fix_docker_compose_for_searxng env2 w1).2 in
  fs w1 !! docker_compose_path = Some (writelines (comment_out lines ci vi)) /\
  writelines (comment_out lines ci vi) <> content /\
  universal_newlines (to_linesep env1 (writelines (comment_out lines ci vi)))
  = writelines (comment_out lines ci vi) /\
  readlines (writelines (comment_out lines ci vi)) = comment_out lines ci vi /\
  fs w2 = fs w /\
  universal_newlines (to_linesep env2 content) = content /\
  (has_char cr bytes = false -> system env2 <> "Windows" ->
   to_linesep env2 content = bytes).
Proof.
  intros content Hc Hb1 Hb2 lines Hci Hvi Hno w1 w2.
  set (commented := comment_out lines ci vi).
  assert (well_lined commented) as Hwl
    by apply comment_out_well_lined, readlines_well_lined.
  assert (readlines (writelines commented) = commented) as Hread
    by now apply readlines_writelines.
  assert (fs w1 = <[docker_compose_path := writelines commented]> (fs w)) as H1.
  { subst w1.
    apply (toggle_post env1 w content true
             (fun w' => fs w' = <[docker_compose_path := writelines commented]> (fs w))
             Hc Hb1).
    intros w0 evs Hfs Ht Hnw. unfold second_pass. fold lines.
    rewrite Hci, Hvi. repeat post_step. split; [reflexivity |].
    now rewrite Hfs. }
  assert (fs w1 !! docker_compose_path = Some (writelines commented)) as Hc1
    by (rewrite H1; apply lookup_insert_eq).
  split; [exact Hc1 |]. split.
  { intros E. apply (comment_out_changes lines ci vi Hci Hvi).
    fold commented. rewrite <- Hread, E. reflexivity. }
  split; [apply text_mode_round_trip, comment_out_plain,
            universal_newlines_no_cr |].
  split; [exact Hread |].
  split;
    [| split; [apply text_mode_round_trip, universal_newlines_no_cr |];
       intros Hcr Hsys; rewrite to_linesep_plain by exact Hsys;
       now apply universal_newlines_plain].
  - enough (fs w2 = <[docker_compose_path := content]> (fs w1)) as ->.
    { rewrite H1, insert_insert_eq. now apply insert_id. }
    subst w2.
    apply (toggle_post env2 w1 (writelines commented) false
             (fun w' => fs w' = <[docker_compose_path := content]> (fs w1))
             Hc1 Hb2).
    intros w0 evs Hfs Ht Hnw. unfold second_pass. rewrite Hread.
    pose proof (uncomment_loop_flags commented false false) as Hflags.
    pose proof (uncomment_loop_lines commented false false) as Hlines.
    destruct (uncomment_loop commented false false) as [[lines' c] d].
    cbn [fst snd] in *. subst lines'. rewrite Hflags. cbn [orb].
    subst commented. rewrite uncomment_comment_out by assumption.
    replace (existsb _ _) with true.
    + repeat post_step. cbn [fs log]. rewrite Hfs.
      subst lines. now rewrite writelines_readlines.
    + symmetry. apply existsb_exists.
      destruct (first_pass_pair _ _ _ Hci Hvi) as (Hlt & Hk & _).
      destruct (kind_at_key _ _ Hk) as (key & Hkey & Hkin & _).
      exists (replace key cap_drop_key commented_key). split.
      * apply list_elem_of_In. apply (list_elem_of_lookup_2 _ ci).
        rewrite comment_out_key, Hkey by lia. reflexivity.
      * now rewrite (replace_present key cap_drop_key commented_key Hkin).
Qed.

Lemma toggle_restores_file_witness :
  fs (check_and_fix_docker_compose_for_searxng env_marker_present
        (check_and_fix_docker_compose_for_searxng env_ok
           (w_compose compose_searxng)).2).2
  = fs (w_compose compose_searxng).
Proof.
  destruct (toggle_restores_file env_ok env_marker_present
              (w_compose compose_searxng) compose_searxng 3 4)
    as (_ & _ & _ & _ & G & _).
  - vm_compute. reflexivity.
  - apply env_ok_first_run.
  - apply env_marker_present_not_first_run.
  - vm_compute. reflexivity.
  - vm_compute. reflexivity.
  - vm_compute. intros line H.
    repeat (apply elem_of_cons in H as [-> | H]; [split; reflexivity |]).
    now apply elem_of_nil in H.
  - exact G.
Defined.

(** * A file without the service *)

Lemma scan_from_outside st i lines :
  in_searxng_section st = false ->
  (forall line, line ∈ lines -> str_in "searxng:" line = false) ->
  scan_from st i lines = st.
Proof.
  intros Hout. revert i. induction lines as [| line rest IH]; intros i Hno;
    [reflexivity |].
  rewrite scan_from_cons. unfold scan_step.
  rewrite (Hno line) by apply list_elem_of_here. rewrite Hout. cbn [andb fst snd].
  apply IH. intros l Hl. apply Hno. now apply list_elem_of_further.
Qed.

(** X21. When no line of [docker-compose.yml] contains [searxng:], the
    first pass never enters a service block and records nothing, and a
    first-run invocation performs no write: a [cap_drop] directive of
    another service is left alone. *)
Theorem no_service_no_change env w content :
  fs w !! docker_compose_path = Some content ->
  classified env true ->
  (forall line, line ∈ readlines content -> str_in "searxng:" line = false) ->
  let r := check_and_fix_docker_compose_for_searxng env w in
  first_pass (readlines content) = scan_init /\
  r.1 = Ok tt /\ fs r.2 = fs w /\
  exists evs, trace r.2 = trace w ++ evs /\ no_write evs.
Proof.
  intros Hc Hb Hno r. subst r.
  assert (first_pass (readlines content) = scan_init) as Hfp.
  { unfold first_pass. now apply scan_from_outside. }
  split; [exact Hfp |].
  apply (toggle_post env w content true
           (fun w' => fs w' = fs w /\
                      exists evs, trace w' = trace w ++ evs /\ no_write evs)
           Hc Hb).
  intros w1 evs Hfs Ht Hnw. unfold second_pass. rewrite Hfp. cbn.
  post_step. eauto.
Qed.

Lemma no_service_no_change_witness :
  fs (check_and_fix_docker_compose_for_searxng
        env_ok (w_compose compose_other_service)).2
  = fs (w_compose compose_other_service).
Proof.
  apply (no_service_no_change env_ok (w_compose compose_other_service)
           compose_other_service).
  - reflexivity.
  - apply env_ok_first_run.
  - vm_compute. intros line H.
    repeat (apply elem_of_cons in H as [-> | H]; [reflexivity |]).
    now apply elem_of_nil in H.
Defined.

(** * The scan stops at the value line *)

Lemma scan_from_value_range st i lines v :
  cap_drop_value_line_index st = None ->
  cap_drop_value_line_index (scan_from st i lines) = Some v ->
  i <= v < i + length lines.
Proof.
  revert st i. induction lines as [| line rest IH]; intros st i Hst Hv.
  - cbn in Hv. congruence.
  - rewrite scan_from_cons in Hv.
    destruct (scan_step_val st i line Hst) as [(_ & Hstop & Hval & _) | (_ & Hstop & Hval)];
      rewrite Hstop in Hv.
    + rewrite Hval in Hv. injection Hv as <-. cbn [length]. lia.
    + apply IH in Hv; [| exact Hval]. cbn [length]. lia.
Qed.

(** X22. The first pass stops at the value line.  The value index it
    records is a line of the file, and the result of the pass is that of the
    pass over the lines up to and including that line, whatever follows
    them: no later line, not even a further service block, is looked
    at. *)
Theorem first_pass_stops_at_value lines vi more :
  cap_drop_value_line_index (first_pass lines) = Some vi ->
  vi < length lines /\
  first_pass (take (S vi) lines ++ more) = first_pass lines.
Proof.
  intros Hv.
  assert (vi < length lines) as Hlt.
  { apply (scan_from_value_range scan_init 0 lines vi eq_refl) in Hv. lia. }
  split; [exact Hlt |].
  assert (first_pass (take (S vi) lines) = first_pass lines) as Hcut.
  { rewrite <- (take_drop (S vi) lines) at 2. unfold first_pass.
    rewrite scan_from_app by reflexivity.
    destruct (cap_drop_value_line_index (scan_from scan_init 0 (take (S vi) lines)))
      as [v |] eqn:E; [reflexivity | exfalso].
    rewrite <- (take_drop (S vi) lines) in Hv. unfold first_pass in Hv.
    rewrite scan_from_app, E in Hv by reflexivity.
    apply scan_from_value_range in Hv; [| exact E].
    rewrite length_take in Hv. lia. }
  unfold first_pass in *. rewrite scan_from_app by reflexivity.
  rewrite Hcut. now rewrite Hv.
Qed.

Lemma first_pass_stops_at_value_witness :
  first_pass (take 5 (readlines compose_searxng)
              ++ ["  searxng:" +:+ NL; "    cap_drop:" +:+ NL])
  = first_pass (readlines compose_searxng).
Proof.
  apply (first_pass_stops_at_value (readlines compose_searxng) 4).
  vm_compute. reflexivity.
Defined.


(** * The health-check rewriter settles *)

(** ** [find] returns the first occurrence *)

Lemma find_aux_at s sub pos k :
  k <= len s ->
  startswith (substr_from k s) sub = true ->
  (forall j, j < k -> startswith (substr_from j s) sub = false) ->
  find_aux s sub pos = (pos + Z.of_nat k)%Z.
Proof.
  revert s pos. induction k as [| k IH]; intros s pos Hk Hs Hmin.
  - cbn [substr_from] in Hs. destruct s; cbn [find_aux]; rewrite Hs; lia.
  - destruct s as [| c s]; [cbn in Hk; lia |].
    cbn [find_aux]. pose proof (Hmin 0 ltac:(lia)) as H0.
    cbn [substr_from] in H0. rewrite H0.
    rewrite (IH s (pos + 1)%Z);
      [lia | unfold len in *; cbn [String.length] in Hk; lia | exact Hs |].
    intros j Hj. apply (Hmin (S j)). lia.
Qed.

Lemma find_aux_min s sub pos k :
  (0 <= pos)%Z ->
  find_aux s sub pos = (pos + Z.of_nat k)%Z ->
  forall j, j < k -> startswith (substr_from j s) sub = false.
Proof.
  revert pos k. induction s as [| c s IH]; intros pos k Hpos H j Hj.
  - cbn [find_aux] in H. destruct (startswith "" sub); lia.
  - cbn [find_aux] in H. destruct (startswith (String c s) sub) eqn:E; [lia |].
    destruct j as [| j]; [exact E |].
    destruct k as [| k]; [lia |].
    apply (IH (pos + 1)%Z k); [lia | rewrite H; lia | lia].
Qed.

(** [find] from [a] returns [i] when [sub] starts at [i] and nowhere from
    [a] up to [i]. *)
Lemma find_at s sub a i :
  a <= i -> i <= len s ->
  startswith (substr_from i s) sub = true ->
  (forall j, a <= j < i -> startswith (substr_from j s) sub = false) ->
  find s sub (Z.of_nat a) = Z.of_nat i.
Proof.
  intros Hai Hil Hs Hmin. unfold find.
  destruct (Z.ltb_spec (Z.of_nat a) 0) as [? | _]; [lia |].
  destruct (Z.ltb_spec (Z.of_nat (len s)) (Z.of_nat a)) as [? | _]; [lia |].
  rewrite Nat2Z.id.
  rewrite (find_aux_at _ _ _ (i - a)).
  - lia.
  - rewrite len_drop. lia.
  - rewrite str_drop_drop. now replace (a + (i - a)) with i by lia.
  - intros j Hj. rewrite str_drop_drop. apply Hmin. lia.
Qed.

(** Before the position [find] returns, [sub] starts nowhere from [a] on. *)
Lemma find_min s sub a i :
  find s sub (Z.of_nat a) = Z.of_nat i ->
  forall j, a <= j < i -> startswith (substr_from j s) sub = false.
Proof.
  unfold find. intros H j Hj.
  destruct (Z.ltb_spec (Z.of_nat a) 0) as [? | _]; [lia |].
  destruct (Z.ltb_spec (Z.of_nat (len s)) (Z.of_nat a)) as [? | _]; [lia |].
  rewrite Nat2Z.id in H.
  pose proof (find_aux_min (substr_from a s) sub (Z.of_nat a) (i - a)) as Hm.
  specialize (Hm ltac:(lia)). rewrite H in Hm. specialize (Hm ltac:(lia) (j - a)).
  rewrite str_drop_drop in Hm. replace (a + (j - a)) with j in Hm by lia.
  apply Hm. lia.
Qed.

Lemma find_aux_present s sub pos :
  str_in sub s = true -> find_aux s sub pos <> (-1)%Z \/ (pos < 0)%Z.
Proof.
  revert pos. induction s as [| c s IH]; intros pos H.
  - cbn [find_aux]. unfold str_in in H. rewrite orb_false_r in H. rewrite H. lia.
  - rewrite str_in_cons in H. cbn [find_aux].
    destruct (startswith (String c s) sub); [lia |]. cbn [orb] in H.
    destruct (IH (pos + 1)%Z H); [now left | right; lia].
Qed.

(** A text that occurs is found from the start. *)
Lemma find_present s sub :
  str_in sub s = true -> exists i, find s sub 0 = Z.of_nat i.
Proof.
  intros H.
  destruct (Z.eq_dec (find s sub 0) (-1)%Z) as [E | Hne].
  - exfalso. unfold find in E. cbn in E.
    destruct (Z.ltb_spec (Z.of_nat (len s)) 0) as [? | _]; [lia |].
    destruct (find_aux_present s sub 0 H); [contradiction | lia].
  - destruct (find_found s sub 0 _ eq_refl Hne) as (i & Hi & _). eauto.
Qed.

Lemma startswith_long a x p :
  len p <= len a -> startswith (a +:+ x) p = startswith a p.
Proof.
  revert a. induction p as [| d p IH]; intros a Hl.
  - now rewrite !startswith_nil.
  - destruct a as [| c a]; [cbn in Hl; lia |].
    cbn [String.append]. rewrite !startswith_cons. rewrite IH; [reflexivity |].
    unfold len in *. cbn [String.length] in Hl. lia.
Qed.

(** ** Where the span is located *)

Lemma startswith_of_take n s p :
  startswith (substr_to n s) p = true -> len p <= n /\ startswith s p = true.
Proof.
  revert n s. induction p as [| d p IH]; intros n s H.
  - split; [cbn; lia | apply startswith_nil].
  - destruct n as [| n]; [destruct s; discriminate |].
    destruct s as [| c s]; [discriminate |].
    cbn [substr_to] in H. rewrite startswith_cons in H |- *.
    apply andb_true_iff in H as [Hc H]. apply IH in H as [Hl Hs].
    rewrite Hc, Hs. split; [unfold len in *; cbn [String.length]; lia | reflexivity].
Qed.

Lemma str_in_empty sub : str_in sub "" = true -> sub = "".
Proof. destruct sub; [reflexivity | discriminate]. Qed.

Lemma str_in_take n s sub :
  str_in sub (substr_to n s) = true ->
  exists k, k + len sub <= n /\ startswith (substr_from k s) sub = true.
Proof.
  revert s. induction n as [| n IH]; intros s H.
  - replace (substr_to 0 s) with "" in H by (now destruct s).
    apply str_in_empty in H as ->. exists 0.
    split; [cbn; lia | apply startswith_nil].
  - destruct s as [| c s].
    + cbn [substr_to] in H. apply str_in_empty in H as ->. exists 0.
      split; [cbn; lia | apply startswith_nil].
    + cbn [substr_to] in H. rewrite str_in_cons in H.
      apply orb_true_iff in H as [H | H].
      * change (String c (substr_to n s)) with (substr_to (S n) (String c s)) in H.
        apply startswith_of_take in H as [Hl Hs]. exists 0. split; [lia | exact Hs].
      * apply IH in H as (k & Hk & Hs). exists (S k). split; [lia | exact Hs].
Qed.

(** The three positions the rewriter computes. *)
Lemma located_positions content :
  has_triggers content = true ->
  healthcheck_start content <> (-1)%Z ->
  environment_start content <> (-1)%Z ->
  exists t i j,
    find content service_token 0 = Z.of_nat t /\
    healthcheck_start content = Z.of_nat i /\
    environment_start content = Z.of_nat j /\
    t + len service_token <= i /\ i + len "healthcheck:" <= j /\ j <= len content /\
    startswith (substr_from t content) service_token = true /\
    (forall k, k < t -> startswith (substr_from k content) service_token = false) /\
    (forall k, t <= k < i ->
       startswith (substr_from k content) "healthcheck:" = false) /\
    (forall k, i <= k < j ->
       startswith (substr_from k content) "environment:" = false).
Proof.
  intros Ht Hh He.
  destruct (located_span content Hh He)
    as (i & j & Hi & Hj & Hij & Hjl & Hsec & _ & _ & _).
  unfold has_triggers in Ht. apply andb_true_iff in Ht as [_ Htok].
  destruct (find_present _ _ Htok) as [t Hti].
  destruct (find_found content service_token 0 _ Hti ltac:(lia))
    as (t' & Ht' & _ & Hts & _).
  assert (t' = t) as -> by lia. clear Ht'.
  assert (find content "healthcheck:" (Z.of_nat t) = Z.of_nat i) as Hfi
    by (rewrite <- Hti; exact Hi).
  assert (find content "environment:" (Z.of_nat i) = Z.of_nat j) as Hfj
    by (rewrite <- Hi; exact Hj).
  destruct (find_found content "healthcheck:" (Z.of_nat t) _ Hfi ltac:(lia))
    as (i' & Hi' & _ & His & Hge).
  assert (i' = i) as -> by lia. clear Hi'. specialize (Hge ltac:(lia)).
  assert (t + len service_token <= i) as Hroom.
  { destruct (le_lt_dec (t + len service_token) i) as [? | Hlt];
      [assumption | exfalso].
    destruct (startswith_spec _ _ Hts) as [r0 Hr0].
    replace i with (t + (i - t)) in His by lia.
    rewrite <- str_drop_drop, Hr0, str_drop_app_le in His by lia.
    assert (sealed service_token "healthcheck:") as Hs
      by (apply sealed_by_check; reflexivity).
    rewrite Hs in His; [discriminate | | apply is_suffix_drop_of].
    apply len_pos_ne. rewrite len_drop. lia. }
  exists t, i, j. repeat (split; [first [assumption | exact Hij] |]).
  split; [intros k Hk; apply (find_min _ _ 0 t Hti); lia |].
  split; [exact (find_min _ _ t i Hfi) | exact (find_min _ _ i j Hfj)].
Qed.

(** X23. The span the rewriter replaces is the first health check after the
    service name.  With the triggers present and both markers found, the
    service name is first found at a position [t], the span starts at the
    first [healthcheck:] that begins at or after [t], which lies wholly after
    that occurrence of the name, and the span ends right before the first
    [environment:] that begins at or after its start; the span itself
    contains no [environment:]. *)
Theorem located_span_is_first content :
  has_triggers content = true ->
  healthcheck_start content <> (-1)%Z ->
  environment_start content <> (-1)%Z ->
  exists t i j,
    find content service_token 0 = Z.of_nat t /\
    healthcheck_start content = Z.of_nat i /\
    environment_start content = Z.of_nat j /\
    t + len service_token <= i /\ i + len "healthcheck:" <= j /\ j <= len content /\
    startswith (substr_from t content) service_token = true /\
    (forall k, k < t -> startswith (substr_from k content) service_token = false) /\
    (forall k, t <= k < i ->
       startswith (substr_from k content) "healthcheck:" = false) /\
    (forall k, i <= k < j ->
       startswith (substr_from k content) "environment:" = false) /\
    str_in "environment:" (healthcheck_section content) = false.
Proof.
  intros Ht Hh He.
  destruct (located_positions content Ht Hh He)
    as (t & i & j & Hti & Hi & Hj & Hroom & Hij & Hjl & Hts & Hmt & Hmi & Hmj).
  exists t, i, j. repeat (split; [assumption |]).
  destruct (str_in "environment:" (healthcheck_section content)) eqn:E;
    [exfalso | reflexivity].
  unfold healthcheck_section in E. rewrite Hi, Hj in E.
  rewrite slice_nat in E by (change (len "healthcheck:") with 12 in Hij; lia).
  apply str_in_take in E as (k & Hk & Hs).
  rewrite str_drop_drop in Hs. rewrite (Hmj (i + k)) in Hs; [discriminate |].
  change (len "environment:") with 12 in Hk. lia.
Qed.

Lemma located_span_is_first_witness :
  str_in "environment:" (healthcheck_section compose_realtime) = false.
Proof.
  destruct (located_span_is_first compose_realtime)
    as (t & i & j & H); [vm_compute; reflexivity | vm_compute; discriminate
                        | vm_compute; discriminate |].
  apply H.
Defined.

(** ** The rewritten file *)

Lemma prefix_transfer pre x y p k :
  k + len p <= len pre ->
  startswith (substr_from k (pre +:+ x)) p = startswith (substr_from k (pre +:+ y)) p.
Proof.
  intros H. rewrite !str_drop_app_le by lia.
  rewrite !startswith_long by (rewrite len_drop; lia). reflexivity.
Qed.

(** In the file as rewritten, the located span is the corrected block. *)
Lemma rewritten_span content :
  has_triggers content = true ->
  healthcheck_start content <> (-1)%Z ->
  environment_start content <> (-1)%Z ->
  occurrences (healthcheck_section content) content
    = [Z.to_nat (healthcheck_start content)] ->
  let result := modified_content content in
  healthcheck_start result = healthcheck_start content /\
  environment_start result
    = (healthcheck_start content + Z.of_nat (len new_healthcheck))%Z /\
  healthcheck_section result = new_healthcheck.
Proof.
  intros Ht Hh He Huniq result.
  destruct (located_span content Hh He)
    as (i & j & Hi & Hj & Hij & Hjl & Hsec & Hsplit & Hhc & Henv).
  rewrite Hi, Nat2Z.id in Huniq.
  set (section := healthcheck_section content) in *.
  set (pre := substr_to i content) in *.
  set (rest := substr_from j content) in *.
  assert (len pre = i) as Hpre by (apply len_take; lia).
  assert (section <> "") as Hne by (intros E; rewrite E in Hhc; discriminate).
  assert (result = pre +:+ new_healthcheck +:+ rest) as Hres.
  { subst result. unfold modified_content. fold section. rewrite Hsplit at 1.
    apply (replace_unique _ _ _ _ 0 Hne). rewrite <- Hsplit, Hpre. exact Huniq. }
  (* the service name is found at the same place *)
  destruct (located_positions content Ht Hh He)
    as (ti & i' & _ & Hti & Hi' & _ & Hroom & _ & _ & Hts & Hmt & Hmi & _).
  assert (i' = i) as -> by lia. clear Hi'.
  assert (find result service_token 0 = Z.of_nat ti) as Hti2.
  { rewrite Hres. apply (find_at _ _ 0 ti); [lia | rewrite len_app; lia | |].
    - rewrite (prefix_transfer pre _ (section +:+ rest)) by lia.
      now rewrite <- Hsplit.
    - intros k Hk.
      rewrite (prefix_transfer pre _ (section +:+ rest)) by lia.
      rewrite <- Hsplit. apply Hmt. lia. }
  (* so is the start of the health check *)
  destruct (startswith_spec _ _ Hhc) as [sec' Hsec'].
  assert (find result "healthcheck:" (Z.of_nat ti) = Z.of_nat i) as Hfi2.
  { rewrite Hres. apply find_at; [lia | rewrite len_app; lia | |].
    - replace i with (len pre) by exact Hpre.
      rewrite str_drop_app. now apply startswith_extend.
    - intros k Hk.
      destruct (startswith_spec new_healthcheck "healthcheck:" eq_refl)
        as [new' Hnew'].
      rewrite Hnew' at 1.
      replace (pre +:+ ("healthcheck:" +:+ new') +:+ rest)
        with ((pre +:+ "healthcheck:") +:+ (new' +:+ rest))
        by (now rewrite !str_app_assoc).
      rewrite (prefix_transfer (pre +:+ "healthcheck:") _ (sec' +:+ rest))
        by (rewrite len_app; cbn; lia).
      replace ((pre +:+ "healthcheck:") +:+ (sec' +:+ rest)) with content
        by (etransitivity; [exact Hsplit |];
            rewrite Hsec', !str_app_assoc; reflexivity).
      apply Hmi. lia. }
  (* the next section starts right after the corrected block *)
  assert (find result "environment:" (Z.of_nat i)
          = Z.of_nat (i + len new_healthcheck)) as Hfj2.
  { rewrite Hres. apply find_at;
      [lia | rewrite !len_app; lia | |].
    - replace (i + len new_healthcheck) with (len (pre +:+ new_healthcheck))
        by (rewrite len_app; lia).
      rewrite <- str_app_assoc, str_drop_app. exact Henv.
    - intros k Hk. replace k with (len pre + (k - i)) by lia.
      rewrite <- str_drop_drop, str_drop_app.
      rewrite str_drop_app_le by lia.
      assert (sealed new_healthcheck "environment:") as Hs
        by (apply sealed_by_check; reflexivity).
      apply Hs; [| apply is_suffix_drop_of].
      apply len_pos_ne. rewrite len_drop. lia. }
  assert (healthcheck_start result = Z.of_nat i) as Hh2
    by (unfold healthcheck_start; now rewrite Hti2).
  assert (environment_start result = Z.of_nat (i + len new_healthcheck)) as He2
    by (unfold environment_start; now rewrite Hh2).
  split; [congruence |]. split; [rewrite He2, Hi; lia |].
  unfold healthcheck_section. rewrite Hh2, He2.
  rewrite slice_nat by (rewrite ?Hres, ?len_app; lia).
  replace (i + len new_healthcheck - i) with (len new_healthcheck) by lia.
  rewrite Hres. replace i with (len pre) by exact Hpre.
  rewrite str_drop_app. apply str_take_app.
Qed.

(** X24. Running the health-check rewriter again changes nothing.  After a
    rewrite that replaced the located span alone, the span located in the
    rewritten file is the corrected block itself, so that rewriting it is
    the identity; a second invocation either finds the triggers gone or
    writes back the very content it read, and the file system stays as the
    first invocation left it. *)
Theorem healthcheck_rewrite_settles w content :
  fs w !! supabase_compose_path = Some content ->
  has_triggers content = true ->
  healthcheck_start content <> (-1)%Z ->
  environment_start content <> (-1)%Z ->
  occurrences (healthcheck_section content) content
    = [Z.to_nat (healthcheck_start content)] ->
  let result := modified_content content in
  let w1 := (fix_supabase_realtime_healthcheck w).2 in
  let w2 := (fix_supabase_realtime_healthcheck w1).2 in
  fs w1 !! supabase_compose_path = Some result /\
  healthcheck_section result = new_healthcheck /\
  modified_content result = result /\
  fs w2 = fs w1.
Proof.
  intros Hc Ht Hh He Huniq result w1 w2.
  destruct (rewritten_span content Ht Hh He Huniq) as (Hh2 & He2 & Hsec2).
  fold result in Hh2, He2, Hsec2.
  assert (modified_content result = result) as Hfix.
  { unfold modified_content. rewrite Hsec2. now apply replace_same. }
  assert (located result = true) as Hloc.
  { apply has_triggers_located; [congruence |]. rewrite He2.
    destruct (located_span content Hh He) as (i & _ & -> & _). lia. }
  assert (fs w1 = <[supabase_compose_path := result]> (fs w)) as H1.
  { subst w1.
    change (post fix_supabase_realtime_healthcheck w (fun _ w' =>
              fs w' = <[supabase_compose_path := result]> (fs w))).
    unfold fix_supabase_realtime_healthcheck. repeat post_step.
    rewrite bool_decide_true by eauto. cbn [orb negb]. repeat post_step.
    rewrite Hc, Ht. repeat post_step.
    rewrite (has_triggers_located _ Hh He). repeat post_step. reflexivity. }
  assert (fs w1 !! supabase_compose_path = Some result) as Hc1
    by (rewrite H1; apply lookup_insert_eq).
  split; [exact Hc1 |]. split; [exact Hsec2 |]. split; [exact Hfix |].
  subst w2.
  change (post fix_supabase_realtime_healthcheck w1 (fun _ w' => fs w' = fs w1)).
  unfold fix_supabase_realtime_healthcheck. repeat post_step.
  rewrite bool_decide_true by eauto. cbn [orb negb]. repeat post_step.
  rewrite Hc1. destruct (has_triggers result); repeat post_step; [| reflexivity].
  rewrite Hloc. repeat post_step. cbn [fs log]. rewrite Hfix.
  now apply insert_id.
Qed.

Lemma healthcheck_rewrite_settles_witness :
  fs (fix_supabase_realtime_healthcheck
        (fix_supabase_realtime_healthcheck (w_supabase compose_realtime)).2).2
  = fs (fix_supabase_realtime_healthcheck (w_supabase compose_realtime)).2.
Proof.
  apply (healthcheck_rewrite_settles (w_supabase compose_realtime) compose_realtime).
  - reflexivity.
  - vm_compute. reflexivity.
  - vm_compute. discriminate.
  - vm_compute. discriminate.
  - vm_compute. reflexivity.
Defined.
